(** * Photo ingestion and enrichment pipeline: a shallow embedding

    The development follows the TypeScript sources of the photo
    geolocation app:

    - [lib/gps.ts]                         the GPS normaliser,
    - [lib/ai/visionProvider.ts]           the vision providers and their selection,
    - [app/api/photos/route.ts]            upload and background enrichment,
    - [app/api/photos/[id]/route.ts]       delete,
    - [app/api/photos/[id]/comments/route.ts]               add comment,
    - [app/api/photos/[id]/regenerate-description/route.ts] regenerate,
    - the two reading handlers of the photo routes (list and detail),
    - [components/PhotoUpload.tsx] and [components/PhotoDetailModal.tsx],
      as far as they decide what is sent to the routes.

    Route handlers are written in a small free monad [Prog] whose
    operations are the calls the handlers make to the record store, the
    file system, the EXIF parser and the inference backend.  A program is
    run against an explicit [World]; a fire-and-forget promise is a forked
    program that the run hands back unexecuted. *)

From Stdlib Require Import NArith List String Ascii PrimFloat DecimalString.
From stdpp Require Import base decidable option list sorting gmap.

Set Default Proof Using "Type".

(* ===================================================================== *)
(** * JavaScript strings *)
(* ===================================================================== *)

(** A JavaScript string is a sequence of UTF-16 code units, each a
    number; [length] counts code units, exactly as
    [String.prototype.length] does. *)
Abbreviation jsstring := (list N).

(** A string literal of the source (ASCII only). *)
Definition js (s : string) : jsstring :=
  map N_of_ascii (list_ascii_of_string s).
Arguments js s%_string.

(** [s.startsWith(p)] *)
Fixpoint startsWith (s p : jsstring) {struct p} : bool :=
  match p with
  | [] => true
  | c :: p' =>
      match s with
      | [] => false
      | d :: s' => (c =? d)%N && startsWith s' p'
      end
  end.

(** [s.endsWith(p)] *)
Definition endsWith (s p : jsstring) : bool :=
  startsWith (rev s) (rev p).

(** [s.includes(p)] *)
Fixpoint includes (s p : jsstring) : bool :=
  startsWith s p ||
  match s with
  | [] => false
  | _ :: s' => includes s' p
  end.

(** [s.replace(/^p/, "")] for a literal prefix [p]: the prefix is removed
    when present, the string is returned as it is otherwise. *)
Definition stripPrefix (p s : jsstring) : jsstring :=
  if startsWith s p then drop (length p) s else s.

(** [toLowerCase] on one code unit.  ASCII and Latin-1 capitals are
    mapped as JavaScript maps them.  Code units from 0x100 on are left
    as they are: JavaScript maps them by the Unicode tables, and only
    U+212A (to k) and U+0130 (to i followed by U+0307) produce an ASCII
    letter, neither of which occurs in a literal this development compares
    a lower-cased string with (image/jpeg, image/jpg, .jpg, .jpeg). *)
Definition lowerUnit (c : N) : N :=
  if ((65 <=? c) && (c <=? 90))%N then (c + 32)%N
  else if ((192 <=? c) && (c <=? 222) && negb (c =? 215))%N then (c + 32)%N
  else c.

Definition toLowerCase (s : jsstring) : jsstring := map lowerUnit s.

(** White space and line terminators of ECMAScript, the code units that
    [trim] removes. *)
Definition isWhiteSpace (c : N) : bool :=
  existsb (N.eqb c)
    [9; 10; 11; 12; 13; 32; 160; 5760;
     8192; 8193; 8194; 8195; 8196; 8197; 8198; 8199; 8200; 8201; 8202;
     8232; 8233; 8239; 8287; 12288; 65279]%N.

Fixpoint trimStart (s : jsstring) : jsstring :=
  match s with
  | [] => []
  | c :: s' => if isWhiteSpace c then trimStart s' else s
  end.

Definition trimEnd (s : jsstring) : jsstring := rev (trimStart (rev s)).

(** [s.trim()] *)
Definition trim (s : jsstring) : jsstring := trimEnd (trimStart s).

(** [array.includes(x)] on an array of strings. *)
Definition arrayIncludes (xs : list jsstring) (x : jsstring) : bool :=
  bool_decide (x ∈ xs).

(** Decimal digits of a natural number, as [String(n)] prints them. *)
Definition decimal (n : N) : jsstring :=
  js (NilZero.string_of_uint (N.to_uint n)).

(** [posix.join(...parts)] of Node's [path]: the non-empty parts are put
    together with a slash and the result is normalised (empty and [.]
    segments dropped, [..] resolved, a leading slash kept). *)
Fixpoint splitSlash (s : jsstring) (cur : jsstring) : list jsstring :=
  match s with
  | [] => [rev cur]
  | c :: s' =>
      if (c =? 47)%N then rev cur :: splitSlash s' []
      else splitSlash s' (c :: cur)
  end.

Fixpoint normalizeSegments (absolute : bool) (segs : list jsstring)
    (acc : list jsstring) : list jsstring :=
  match segs with
  | [] => rev acc
  | seg :: rest =>
      if bool_decide (seg = []) || bool_decide (seg = js ".") then
        normalizeSegments absolute rest acc
      else if bool_decide (seg = js "..") then
        match acc with
        | prev :: acc' =>
            if bool_decide (prev = js "..") then
              normalizeSegments absolute rest (seg :: acc)
            else normalizeSegments absolute rest acc'
        | [] =>
            if absolute then normalizeSegments absolute rest acc
            else normalizeSegments absolute rest (seg :: acc)
        end
      else normalizeSegments absolute rest (seg :: acc)
  end.

Fixpoint joinSlash (segs : list jsstring) : jsstring :=
  match segs with
  | [] => []
  | [seg] => seg
  | seg :: rest => seg ++ 47%N :: joinSlash rest
  end.

Definition join (parts : list jsstring) : jsstring :=
  let joined := joinSlash (filter (λ p, p ≠ []) parts) in
  let absolute := startsWith joined (js "/") in
  let segs := normalizeSegments absolute (splitSlash joined []) [] in
  let trailing := endsWith joined (js "/") && negb (bool_decide (segs = [])) in
  let path := (if absolute then js "/" else []) ++ joinSlash segs
              ++ (if trailing then js "/" else []) in
  if bool_decide (path = []) then js "." else path.

(** The string functions are computed by [reflexivity] and [vm_compute]
    on literals and kept folded otherwise. *)
Arguments js : simpl never.
Arguments startsWith : simpl never.
Arguments endsWith : simpl never.
Arguments includes : simpl never.
Arguments stripPrefix : simpl never.
Arguments toLowerCase : simpl never.
Arguments trim : simpl never.
Arguments decimal : simpl never.
Arguments join : simpl never.
Arguments Nat.ltb : simpl never.
Arguments Nat.leb : simpl never.
Arguments N.ltb : simpl never.

(* ===================================================================== *)
(** * lib/gps.ts: the GPS normaliser *)
(* ===================================================================== *)

(** JavaScript numbers are IEEE 754 binary64 values: Rocq's primitive
    floats, with the same [+] and [/]. *)
Abbreviation number := float.

(** A value that can reach [normalizeGps].  The declared parameter type is
    [number | number[] | undefined | null]; the EXIF parser's result is
    untyped, so [Other] stands for any further run-time value that is
    neither a number nor an array (a string, a boolean, an object) and
    records whether JavaScript counts it as true. *)
Inductive GpsField :=
| Undefined
| Null
| Num (x : number)
| Arr (xs : list number)
| Other (truthy : bool).

(** [value[i]] used as an operand of arithmetic: an index past the end
    gives [undefined], which arithmetic reads as NaN. *)
Definition at_index (xs : list number) (i : nat) : number := nth i xs nan.

Definition normalizeGps (value : GpsField) : option number :=
  match value with
  | Undefined | Null => None
  | Num x => Some x
  | Arr xs =>
      if (3 <=? length xs)%nat then
        (* Convert [degrees, minutes, seconds] to decimal *)
        Some (at_index xs 0 + at_index xs 1 / 60 + at_index xs 2 / 3600)%float
      else None
  | Other _ => None
  end.

(** JavaScript truthiness, as [a || b] tests it. *)
Definition truthy (v : GpsField) : bool :=
  match v with
  | Undefined | Null => false
  | Num x => negb (is_zero x || is_nan x)
  | Arr _ => true
  | Other t => t
  end.

(** [a || b] *)
Definition js_or (a b : GpsField) : GpsField := if truthy a then a else b.

(* ===================================================================== *)
(** * lib/ai/visionProvider.ts: provider selection *)
(* ===================================================================== *)

(** [process.env] and [process.cwd()], as far as the sources read them. *)
Record ProcessEnv := {
  VISION_PROVIDER : option jsstring;
  OLLAMA_BASE_URL : option jsstring;
  OLLAMA_MODEL : option jsstring;
  cwd : jsstring
}.

(** [process.env.X || fallback]: an unset or empty variable gives the
    fallback. *)
Definition env_or (v : option jsstring) (fallback : jsstring) : jsstring :=
  match v with
  | Some (c :: s) => c :: s
  | _ => fallback
  end.

(** The two classes that implement [VisionProvider]; an
    [OllamaVisionProvider] holds the fields its constructor sets. *)
Inductive VisionProvider :=
| MockVisionProvider
| OllamaVisionProvider (baseUrl model : jsstring).

Definition new_OllamaVisionProvider (env : ProcessEnv) : VisionProvider :=
  OllamaVisionProvider
    (env_or (OLLAMA_BASE_URL env) (js "http://localhost:11434"))
    (env_or (OLLAMA_MODEL env) (js "llava")).

(** The console output of the development mode is not modelled. *)
Definition getVisionProvider (env : ProcessEnv) : VisionProvider :=
  let provider := env_or (VISION_PROVIDER env) (js "mock") in
  if bool_decide (provider = js "mock") then MockVisionProvider
  else if bool_decide (provider = js "ollama") then new_OllamaVisionProvider env
  else MockVisionProvider.

(* ===================================================================== *)
(** * The data model (prisma schema and its migration) *)
(* ===================================================================== *)

Inductive AiStatus := PENDING | DONE | ERROR.

(** A row of table [photos].  A nullable column is an [option]. *)
Record Photo := {
  photo_id : jsstring;
  ownerId : jsstring;
  url : jsstring;
  lat : number;
  lng : number;
  createdAt : N;
  aiStatus : AiStatus;
  aiDescription : option jsstring;
  aiError : option jsstring
}.

(** A row of table [comments]. *)
Record Comment := {
  comment_id : jsstring;
  photoId : jsstring;
  authorId : jsstring;
  content : jsstring;
  comment_createdAt : N
}.

(** The authenticated principal of a session. *)
Record User := {
  user_id : jsstring;
  email : jsstring
}.

(** The [data] object of [db.photo.update]: a key that the object does
    not mention is [None] and leaves the column alone; [Some None] writes
    [null]. *)
Record PhotoUpdateData := {
  data_aiStatus : option AiStatus;
  data_aiDescription : option (option jsstring);
  data_aiError : option (option jsstring)
}.

Definition applyUpdate (data : PhotoUpdateData) (p : Photo) : Photo :=
  {| photo_id := photo_id p;
     ownerId := ownerId p;
     url := url p;
     lat := lat p;
     lng := lng p;
     createdAt := createdAt p;
     aiStatus := default (aiStatus p) (data_aiStatus data);
     aiDescription := default (aiDescription p) (data_aiDescription data);
     aiError := default (aiError p) (data_aiError data) |}.

(** What [exifr.parse] returns for the picked keys. *)
Record ExifData := {
  latitude : GpsField;
  longitude : GpsField;
  GPSLatitude : GpsField;
  GPSLongitude : GpsField
}.

(** [exifData?.key]: [undefined] when the parser found nothing. *)
Definition optionalChain (exifData : option ExifData)
    (key : ExifData → GpsField) : GpsField :=
  match exifData with
  | Some d => key d
  | None => Undefined
  end.

(* ===================================================================== *)
(** * Programs: the calls a handler makes, in program order *)
(* ===================================================================== *)

(** A thrown value. [SyntaxError] is kept apart from the other [Error]
    classes because the comment route tests for it. *)
Inductive exn :=
| JsError (message : jsstring)
| JsSyntaxError (message : jsstring)
| NotAnError.

(** How a call ends: the value of a fulfilled promise (or of a plain
    return), or the reason of a rejection (or of a throw). *)
Inductive Outcome (X : Type) :=
| Fulfilled (x : X)
| Rejected (e : exn).
Arguments Fulfilled {X} x.
Arguments Rejected {X} e.

(** The calls into the record store (Prisma), the file system, the EXIF
    parser, the UUID generator, the timer and the inference backend. *)
Inductive Eff : Type → Type :=
| DbPhotoFindFirst (where_id : jsstring) (where_ownerId : option jsstring)
    : Eff (option Photo)
| DbPhotoCreate (data_ownerId data_url : jsstring) (data_lat data_lng : number)
    (data_status : AiStatus) : Eff Photo
| DbPhotoUpdate (where_id : jsstring) (data : PhotoUpdateData) : Eff unit
| DbPhotoDelete (where_id : jsstring) : Eff unit
| DbCommentCreate (data_photoId data_authorId data_content : jsstring)
    : Eff Comment
| ExifrParse (buffer : list N) : Eff (option ExifData)
| Uuidv4 : Eff jsstring
| ExistsSync (path : jsstring) : Eff bool
| Mkdir (path : jsstring) : Eff unit
| WriteFile (path : jsstring) (data : list N) : Eff unit
| Unlink (path : jsstring) : Eff unit
| ReadFile (path : jsstring) : Eff (list N)
| SetTimeout (ms : N) : Eff unit
| OllamaChat (baseUrl model : jsstring) (image : list N) : Eff jsstring.

(** A program returns, throws, makes a call and goes on with its outcome,
    or starts a promise that nobody awaits and goes on at once. *)
Inductive Prog (R : Type) : Type :=
| Ret (r : R)
| Throw (e : exn)
| Call {X : Type} (op : Eff X) (k : Outcome X → Prog R)
| Fork (child : Prog unit) (k : Prog R).
Arguments Ret {R} r.
Arguments Throw {R} e.
Arguments Call {R X} op k.
Arguments Fork {R} child k.

Fixpoint bind {A B : Type} (p : Prog A) (f : A → Prog B) : Prog B :=
  match p with
  | Ret a => f a
  | Throw e => Throw e
  | Call op k => Call op (λ o, bind (k o) f)
  | Fork child k => Fork child (bind k f)
  end.

#[export] Instance Prog_ret : MRet Prog := @Ret.
#[export] Instance Prog_bind : MBind Prog := λ A B f p, bind p f.

(** [await op] (or a plain call of a synchronous library function): a
    rejection is thrown at the call site. *)
Definition await {X : Type} (op : Eff X) : Prog X :=
  Call op (λ o, match o with
                | Fulfilled x => Ret x
                | Rejected e => Throw e
                end).

(** [try { p } catch (error) { h error }] *)
Fixpoint try_catch {A : Type} (p : Prog A) (h : exn → Prog A) : Prog A :=
  match p with
  | Ret a => Ret a
  | Throw e => h e
  | Call op k => Call op (λ o, try_catch (k o) h)
  | Fork child k => Fork child (try_catch k h)
  end.

(** [p] can make a call that satisfies [P], itself or in a promise it
    starts, for some outcomes of the calls before. *)
Inductive performs (P : ∀ X, Eff X → Prop) : ∀ R, Prog R → Prop :=
| performs_now R X (op : Eff X) (k : Outcome X → Prog R) :
    P X op → performs P R (Call op k)
| performs_next R X (op : Eff X) (k : Outcome X → Prog R) (o : Outcome X) :
    performs P R (k o) → performs P R (Call op k)
| performs_child R (child : Prog unit) (k : Prog R) :
    performs P unit child → performs P R (Fork child k)
| performs_after_fork R (child : Prog unit) (k : Prog R) :
    performs P R k → performs P R (Fork child k).
Arguments performs P {R} p.

Definition isExifrParse (X : Type) (op : Eff X) : Prop :=
  match op with ExifrParse _ => True | _ => False end.

Definition isReadFile (X : Type) (op : Eff X) : Prop :=
  match op with ReadFile _ => True | _ => False end.

Definition isOllamaChat (X : Type) (op : Eff X) : Prop :=
  match op with OllamaChat _ _ _ => True | _ => False end.

(* ===================================================================== *)
(** * The world a program runs against *)
(* ===================================================================== *)

(** The record store, the files under the working directory, and a
    counter of the values drawn from outside so far. *)
Record World := {
  photos : gmap jsstring Photo;
  comments : list Comment;
  files : gmap jsstring (list N);
  dirs : gset jsstring;
  tick : nat
}.

(** What the model does not compute: the EXIF parser's reading of a byte
    stream, generated identifiers, the clock, and the inference
    backend's reply (lines 95-169 of the provider: the HTTP exchange and
    the cleaning of the reply). *)
Record Outside := {
  exifr_parse : list N → Outcome (option ExifData);
  cuid : nat → jsstring;
  uuid : nat → jsstring;
  now : nat → N;
  ollama_chat : nat → list N → Outcome jsstring
}.

Definition with_photos (w : World) (ps : gmap jsstring Photo) : World :=
  {| photos := ps; comments := comments w; files := files w;
     dirs := dirs w; tick := tick w |}.

Definition with_files (w : World) (fs : gmap jsstring (list N)) : World :=
  {| photos := photos w; comments := comments w; files := fs;
     dirs := dirs w; tick := tick w |}.

Definition next_tick (w : World) : World :=
  {| photos := photos w; comments := comments w; files := files w;
     dirs := dirs w; tick := S (tick w) |}.

(** [findFirst({ where: { id, ownerId } })] on a table whose primary key
    is [id]. *)
Definition findFirst (w : World) (where_id : jsstring)
    (where_ownerId : option jsstring) : option Photo :=
  match photos w !! where_id with
  | Some p =>
      match where_ownerId with
      | Some o => if bool_decide (ownerId p = o) then Some p else None
      | None => Some p
      end
  | None => None
  end.

(** One call against the world.  Prisma rejects an update or a delete of
    a row that does not exist and a comment on a photo that does not
    exist (foreign key); deleting a photo deletes its comments (ON DELETE
    CASCADE).  The table of users is outside the model: a session's user
    is taken to exist. *)
Definition exec {X : Type} (out : Outside) (op : Eff X) (w : World)
    : Outcome X * World :=
  match op in Eff X return Outcome X * World with
  | DbPhotoFindFirst where_id where_ownerId =>
      (Fulfilled (findFirst w where_id where_ownerId), w)
  | DbPhotoCreate o u la ln st =>
      let p := {| photo_id := cuid out (tick w); ownerId := o; url := u;
                  lat := la; lng := ln; createdAt := now out (tick w);
                  aiStatus := st; aiDescription := None; aiError := None |} in
      match photos w !! photo_id p with
      | Some _ => (Rejected (JsError (js "Unique constraint failed")), next_tick w)
      | None => (Fulfilled p, next_tick (with_photos w (<[photo_id p := p]> (photos w))))
      end
  | DbPhotoUpdate where_id data =>
      match photos w !! where_id with
      | Some p =>
          (Fulfilled (), with_photos w (<[where_id := applyUpdate data p]> (photos w)))
      | None => (Rejected (JsError (js "Record to update not found.")), w)
      end
  | DbPhotoDelete where_id =>
      match photos w !! where_id with
      | Some _ =>
          (Fulfilled (),
           {| photos := delete where_id (photos w);
              comments := filter (λ c, photoId c ≠ where_id) (comments w);
              files := files w; dirs := dirs w; tick := tick w |})
      | None => (Rejected (JsError (js "Record to delete does not exist.")), w)
      end
  | DbCommentCreate pid aid text =>
      match photos w !! pid with
      | Some _ =>
          let c := {| comment_id := cuid out (tick w); photoId := pid;
                      authorId := aid; content := text;
                      comment_createdAt := now out (tick w) |} in
          (Fulfilled c,
           {| photos := photos w; comments := comments w ++ [c];
              files := files w; dirs := dirs w; tick := S (tick w) |})
      | None => (Rejected (JsError (js "Foreign key constraint failed")), w)
      end
  | ExifrParse buffer => (exifr_parse out buffer, w)
  | Uuidv4 => (Fulfilled (uuid out (tick w)), next_tick w)
  | ExistsSync path =>
      (Fulfilled (bool_decide (path ∈ dirs w) || bool_decide (is_Some (files w !! path))), w)
  | Mkdir path =>
      (Fulfilled (),
       {| photos := photos w; comments := comments w; files := files w;
          dirs := {[path]} ∪ dirs w; tick := tick w |})
  | WriteFile path data => (Fulfilled (), with_files w (<[path := data]> (files w)))
  | Unlink path =>
      match files w !! path with
      | Some _ => (Fulfilled (), with_files w (delete path (files w)))
      | None =>
          (Rejected (JsError (js "ENOENT: no such file or directory, unlink '"
                              ++ path ++ js "'")), w)
      end
  | ReadFile path =>
      match files w !! path with
      | Some data => (Fulfilled data, w)
      | None =>
          (Rejected (JsError (js "ENOENT: no such file or directory, open '"
                              ++ path ++ js "'")), w)
      end
  | SetTimeout _ => (Fulfilled (), w)
  | OllamaChat _ _ image => (ollama_chat out (tick w) image, next_tick w)
  end.

(** Running a program to its end: its outcome, the world it leaves, and
    the promises it started, which have not run.  In JavaScript the
    callbacks of a promise run only after the code that started it has
    returned, and what a provider does before its first [await] touches
    neither the record store nor the files; so a started promise is
    handed back whole, to be run when it settles. *)
Fixpoint run {R : Type} (out : Outside) (p : Prog R) (w : World)
    : Outcome R * World * list (Prog unit) :=
  match p with
  | Ret r => (Fulfilled r, w, [])
  | Throw e => (Rejected e, w, [])
  | Call op k => let '(o, w') := exec out op w in run out (k o) w'
  | Fork child k =>
      let '(o, w', started) := run out k w in (o, w', child :: started)
  end.

(* ===================================================================== *)
(** * lib/ai/visionProvider.ts: describeImage *)
(* ===================================================================== *)

Module Mock.
Definition describeImage (imageUrlOrPath : jsstring) : Prog jsstring :=
  (* Simulate some processing time *)
  await (SetTimeout 500);;
  Ret (js "A photo taken near railway tracks and vegetation.").
End Mock.

Module Ollama.
(** The [catch] clause of [describeImage]. *)
Definition rethrow (baseUrl imageUrlOrPath : jsstring) (error : exn)
    : Prog jsstring :=
  match error with
  | JsError message | JsSyntaxError message =>
      if includes message (js "fetch failed")
         || includes message (js "ECONNREFUSED")
         || includes message (js "ENOTFOUND")
      then Throw (JsError (js "Cannot connect to Ollama at " ++ baseUrl
                           ++ js ". Make sure Ollama is running."))
      else if includes message (js "ENOENT")
      then Throw (JsError (js "Image file not found: " ++ imageUrlOrPath))
      else Throw error
  | NotAnError =>
      Throw (JsError (js "Unknown error during image description generation"))
  end.

Definition describeImage (env : ProcessEnv) (baseUrl model : jsstring)
    (imageUrlOrPath : jsstring) : Prog jsstring :=
  try_catch
    ((* Only allow paths that start with /uploads/ *)
     if negb (startsWith imageUrlOrPath (js "/uploads/")) then
       Throw (JsError (js "Invalid image path. Only /uploads/ paths are allowed."))
     else
       (* Strip the /uploads/ prefix to get the relative filename *)
       let rel := stripPrefix (js "/uploads/") imageUrlOrPath in
       (* Extra safety: prevent traversal and Windows-style separators *)
       if includes rel (js "..") || includes rel (js "\")
          || startsWith rel (js "/")
       then Throw (JsError (js "Invalid image path."))
       (* Length cap for extra defense *)
       else if (200 <? length rel)%nat
       then Throw (JsError (js "Invalid image path."))
       (* Only allow .jpg/.jpeg extensions *)
       else if negb (endsWith (toLowerCase rel) (js ".jpg"))
               && negb (endsWith (toLowerCase rel) (js ".jpeg"))
       then Throw (JsError (js "Invalid image path. Only .jpg/.jpeg files are allowed."))
       else
         let absolutePath := join [cwd env; js "public"; js "uploads"; rel] in
         imageBuffer ← await (ReadFile absolutePath);
         await (OllamaChat baseUrl model imageBuffer))
    (rethrow baseUrl imageUrlOrPath).
End Ollama.
Arguments Ollama.rethrow : simpl never.

(** [provider.describeImage(imageUrlOrPath)] *)
Definition describeImage (env : ProcessEnv) (provider : VisionProvider)
    (imageUrlOrPath : jsstring) : Prog jsstring :=
  match provider with
  | MockVisionProvider => Mock.describeImage imageUrlOrPath
  | OllamaVisionProvider baseUrl model =>
      Ollama.describeImage env baseUrl model imageUrlOrPath
  end.

(* ===================================================================== *)
(** * Requests and responses *)
(* ===================================================================== *)

(** The [File] of the form data: its declared type, its size in bytes
    and its content.  The handler reads [size] without touching the
    content, and the model does not tie [file_size] to the length of
    [file_bytes], so that a file of 10 MiB can be written down without
    its bytes. *)
Record File := {
  file_type : jsstring;
  file_size : N;
  file_bytes : list N
}.

(** A parsed JSON body. *)
#[warnings="-register-all"]
Inductive Json :=
| JNull
| JBool (b : bool)
| JNumber (x : number)
| JString (s : jsstring)
| JArray (xs : list Json)
| JObject (fields : list (jsstring * Json)).

(** What a handler reads of a request: the session (absent when nobody is
    signed in), the [id] of the route, the [file] entry of the form data
    (a form that does not parse is not modelled), and the JSON body
    ([None] when it does not parse). *)
Record Request := {
  session : option User;
  params_id : jsstring;
  formData_file : option File;
  json_body : option Json
}.

Inductive Body :=
| BodyError (error : jsstring)
| BodyMessage (message : jsstring)
| BodyPhoto (id url : jsstring) (lat lng : number) (createdAt : N)
    (aiStatus : AiStatus) (aiDescription : option jsstring)
| BodyComment (c : Comment)
| BodyRegenerate (message : jsstring) (aiStatus : AiStatus).

Record Response := {
  status : N;
  body : Body
}.

(** [NextResponse.json(body, { status })] *)
Definition json (b : Body) (st : N) : Response := {| status := st; body := b |}.

(** Modelled from the spec: [requireAuth] of [lib/auth-helpers], which is
    not among the sources.  The identity provider supplies the principal
    or signals that there is none; the handlers' [catch] clauses show that
    the signal is an [Error] whose message is [Unauthorized]. *)
Definition requireAuth (request : Request) : Prog User :=
  match session request with
  | Some user => Ret user
  | None => Throw (JsError (js "Unauthorized"))
  end.

(** [error instanceof Error && error.message === "Unauthorized"] *)
Definition isUnauthorized (error : exn) : bool :=
  match error with
  | JsError message | JsSyntaxError message =>
      bool_decide (message = js "Unauthorized")
  | NotAnError => false
  end.

(** The [catch] clause shared by the photo, delete and regenerate
    handlers. *)
Definition onError (error : exn) : Prog Response :=
  if isUnauthorized error then Ret (json (BodyError (js "Unauthorized")) 401)
  else Ret (json (BodyError (js "Internal server error")) 500).

(* ===================================================================== *)
(** * app/api/photos/route.ts *)
(* ===================================================================== *)

Module PhotosRoute.

Definition MAX_FILE_SIZE : N := 10 * 1024 * 1024.

Definition ALLOWED_MIME_TYPES : list jsstring :=
  [js "image/jpeg"; js "image/jpg"].

(** [(size / (1024 * 1024)).toFixed(2)].  The quotient of an integer
    below 2^53 by 2^20 is exact in binary64, and [toFixed(2)] prints the
    integer [n] for which [n / 100] is nearest to it (the larger on a
    tie), with a point before its last two digits. *)
Definition sizeMB (size : N) : jsstring :=
  let n := ((200 * size + 1048576) / 2097152)%N in
  decimal (n / 100) ++ js "."
  ++ (if (n mod 100 <? 10)%N then js "0" else []) ++ decimal (n mod 100).

Definition done_data (description : jsstring) : PhotoUpdateData :=
  {| data_aiStatus := Some DONE;
     data_aiDescription := Some (Some description);
     data_aiError := Some None |}.

Definition error_message (error : exn) : jsstring :=
  match error with
  | JsError message | JsSyntaxError message => message
  | NotAnError => js "Unknown error"
  end.

Definition error_data (error : exn) : PhotoUpdateData :=
  {| data_aiStatus := Some ERROR;
     data_aiDescription := None;
     data_aiError := Some (Some (error_message error)) |}.

(** Generate AI description for a photo (async, fire-and-forget) *)
Definition generateAIDescription (env : ProcessEnv)
    (photoId imageUrl : jsstring) : Prog unit :=
  try_catch
    (let provider := getVisionProvider env in
     description ← describeImage env provider imageUrl;
     (* Update photo with AI description *)
     await (DbPhotoUpdate photoId (done_data description)))
    (λ error,
     (* Update photo with error status *)
     await (DbPhotoUpdate photoId (error_data error))).

Definition POST (env : ProcessEnv) (request : Request) : Prog Response :=
  try_catch
    (user ← requireAuth request;
     match formData_file request with
     | None =>
         Ret (json (BodyError (js "No file provided. Please select an image file to upload.")) 400)
     | Some file =>
         (* Validate file type *)
         if negb (arrayIncludes ALLOWED_MIME_TYPES (toLowerCase (file_type file)))
         then
           Ret (json (BodyError (js "Invalid file type. Only JPEG/JPG images are allowed. Received: "
                                 ++ file_type file)) 400)
         (* Validate file size *)
         else if (MAX_FILE_SIZE <? file_size file)%N
         then
           Ret (json (BodyError (js "File size (" ++ sizeMB (file_size file)
                                 ++ js "MB) exceeds the 10MB limit. Please upload a smaller image.")) 400)
         else
           let buffer := file_bytes file in
           (* Extract GPS coordinates from EXIF *)
           exifData ← await (ExifrParse buffer);
           (* Try multiple possible GPS field names *)
           let latField := js_or (optionalChain exifData latitude)
                                 (optionalChain exifData GPSLatitude) in
           let lngField := js_or (optionalChain exifData longitude)
                                 (optionalChain exifData GPSLongitude) in
           (* Normalize GPS coordinates to numbers *)
           match normalizeGps latField, normalizeGps lngField with
           | Some latNumber, Some lngNumber =>
               (* Generate unique filename *)
               id ← await Uuidv4;
               let filename := id ++ js ".jpg" in
               let uploadsDir := join [cwd env; js "public"; js "uploads"] in
               (* Ensure uploads directory exists *)
               found ← await (ExistsSync uploadsDir);
               (if (found : bool) then Ret () else await (Mkdir uploadsDir));;
               (* Save file to public/uploads *)
               let filePath := join [uploadsDir; filename] in
               await (WriteFile filePath buffer);;
               (* Create Photo record in database with PENDING status *)
               photo ← await (DbPhotoCreate (user_id user)
                                (js "/uploads/" ++ filename) latNumber lngNumber
                                PENDING);
               (* Generate AI description asynchronously (fire-and-forget) *)
               Fork (try_catch
                       (generateAIDescription env (photo_id photo) (url photo))
                       (λ _, Ret ()))
                 (Ret (json (BodyPhoto (photo_id photo) (url photo)
                               (lat photo) (lng photo)
                               (createdAt photo) (aiStatus photo)
                               (aiDescription photo)) 201))
           | _, _ =>
               Ret (json (BodyError (js "Image does not contain GPS coordinates in EXIF metadata. Please upload a photo taken with a device that has location services enabled.")) 400)
           end
     end)
    onError.

End PhotosRoute.

(* ===================================================================== *)
(** * app/api/photos/[id]/route.ts *)
(* ===================================================================== *)

Module PhotoRoute.

Definition DELETE (env : ProcessEnv) (request : Request) : Prog Response :=
  try_catch
    (user ← requireAuth request;
     let photoId := params_id request in
     (* Fetch photo and verify ownership *)
     photo ← await (DbPhotoFindFirst photoId (Some (user_id user)));
     match photo with
     | None => Ret (json (BodyError (js "Photo not found")) 404)
     | Some photo =>
         (* Delete the image file; log but don't fail if it is missing *)
         try_catch
           (let imagePath := join [cwd env; js "public"; url photo] in
            await (Unlink imagePath))
           (λ fileError, Ret ());;
         (* Delete photo from database (cascade will delete comments) *)
         await (DbPhotoDelete photoId);;
         Ret (json (BodyMessage (js "Photo deleted successfully")) 200)
     end)
    onError.

End PhotoRoute.

(* ===================================================================== *)
(** * app/api/photos/[id]/comments/route.ts *)
(* ===================================================================== *)

Module CommentsRoute.

(** Check if photo exists; returns the photo ID if valid, null
    otherwise.  [photo?.id || null] turns an empty id into [null]. *)
Definition verifyPhotoExists (photoId : jsstring) : Prog (option jsstring) :=
  photo ← await (DbPhotoFindFirst photoId None);
  Ret (match photo with
       | Some p => if bool_decide (photo_id p = []) then None else Some (photo_id p)
       | None => None
       end).

(** [await request.json()] *)
Definition request_json (request : Request) : Prog Json :=
  match json_body request with
  | Some b => Ret b
  | None => Throw (JsSyntaxError (js "Unexpected token in JSON"))
  end.

(** [body.content] of an object: the last field of that name, as
    [JSON.parse] keeps it. *)
Definition lookupField (fields : list (jsstring * Json)) (key : jsstring)
    : option Json :=
  (λ found, found.2.2) <$> list_find (λ kv, kv.1 = key) (rev fields).

(** [const { content } = body]: destructuring [null] throws a
    [TypeError]; any other value that is not an object with that field
    gives [undefined]. *)
Definition destructure_content (b : Json) : Prog (option Json) :=
  match b with
  | JNull => Throw (JsError (js "Cannot destructure property 'content' of 'body' as it is null."))
  | JObject fields => Ret (lookupField fields (js "content"))
  | _ => Ret None
  end.

(** The [catch] clause of this route also answers a body that is not
    JSON. *)
Definition onError (error : exn) : Prog Response :=
  if isUnauthorized error then Ret (json (BodyError (js "Unauthorized")) 401)
  else match error with
       | JsSyntaxError _ => Ret (json (BodyError (js "Invalid JSON")) 400)
       | _ => Ret (json (BodyError (js "Internal server error")) 500)
       end.

Definition POST (env : ProcessEnv) (request : Request) : Prog Response :=
  try_catch
    (user ← requireAuth request;
     let photoId := params_id request in
     (* Verify photo exists (any authenticated user can comment) *)
     photo ← verifyPhotoExists photoId;
     match photo with
     | None => Ret (json (BodyError (js "Photo not found")) 404)
     | Some _ =>
         (* Parse and validate request body *)
         b ← request_json request;
         c ← destructure_content b;
         match c with
         | Some (JString (u :: s)) =>
             let content := u :: s in
             (* Trim whitespace and validate length *)
             let trimmedContent := trim content in
             if bool_decide (length trimmedContent = 0%nat) then
               Ret (json (BodyError (js "Comment cannot be empty. Please enter some text.")) 400)
             else if (500 <? length trimmedContent)%nat then
               Ret (json (BodyError (js "Comment is too long ("
                                     ++ decimal (N.of_nat (length trimmedContent))
                                     ++ js " characters). Maximum length is 500 characters.")) 400)
             else
               (* Create comment *)
               comment ← await (DbCommentCreate photoId (user_id user) trimmedContent);
               Ret (json (BodyComment comment) 201)
         | _ =>
             (* !content || typeof content !== "string" *)
             Ret (json (BodyError (js "Comment content is required and must be a string. Please provide a valid comment.")) 400)
         end
     end)
    onError.

End CommentsRoute.

(* ===================================================================== *)
(** * app/api/photos/[id]/regenerate-description/route.ts *)
(* ===================================================================== *)

Module RegenerateRoute.

Definition reset_data : PhotoUpdateData :=
  {| data_aiStatus := Some PENDING;
     data_aiDescription := Some None;
     data_aiError := Some None |}.

(** [provider.describeImage(url).then(...).catch(...)]: the [catch]
    callback also receives a rejection of the [then] callback. *)
Definition enrichment (env : ProcessEnv) (provider : VisionProvider)
    (photoId imageUrl : jsstring) : Prog unit :=
  try_catch
    (description ← describeImage env provider imageUrl;
     (* Update photo with AI description *)
     await (DbPhotoUpdate photoId (PhotosRoute.done_data description)))
    (λ error,
     (* Update photo with error status *)
     await (DbPhotoUpdate photoId (PhotosRoute.error_data error))).

Definition POST (env : ProcessEnv) (request : Request) : Prog Response :=
  try_catch
    (user ← requireAuth request;
     let photoId := params_id request in
     (* Fetch photo and verify ownership *)
     photo ← await (DbPhotoFindFirst photoId (Some (user_id user)));
     match photo with
     | None => Ret (json (BodyError (js "Photo not found")) 404)
     | Some photo =>
         (* Reset AI status to PENDING *)
         await (DbPhotoUpdate photoId reset_data);;
         (* Generate AI description asynchronously (fire-and-forget) *)
         let provider := getVisionProvider env in
         Fork (enrichment env provider photoId (url photo))
           (Ret (json (BodyRegenerate (js "AI description regeneration started")
                         PENDING) 200))
     end)
    onError.

End RegenerateRoute.

(* ===================================================================== *)
(** * The running system *)
(* ===================================================================== *)

(** The world together with the promises that have been started and have
    not settled yet. *)
Record System := {
  world : World;
  pending : list (Prog unit)
}.

Inductive Route := Upload | Delete | AddComment | Regenerate.

Definition handler (env : ProcessEnv) (route : Route) : Request → Prog Response :=
  match route with
  | Upload => PhotosRoute.POST env
  | Delete => PhotoRoute.DELETE env
  | AddComment => CommentsRoute.POST env
  | Regenerate => RegenerateRoute.POST env
  end.

(** What happens next: a request is served, or the [i]-th pending promise
    settles. *)
Inductive Action :=
| Serve (route : Route) (request : Request)
| Settle (i : nat).

Definition act (out : Outside) (env : ProcessEnv) (a : Action) (s : System)
    : System :=
  match a with
  | Serve route request =>
      let '(_, w, started) := run out (handler env route request) (world s) in
      {| world := w; pending := pending s ++ started |}
  | Settle i =>
      match pending s !! i with
      | Some p =>
          let '(_, w, started) := run out p (world s) in
          {| world := w; pending := delete i (pending s) ++ started |}
      | None => s
      end
  end.

Definition acts (out : Outside) (env : ProcessEnv) (l : list Action)
    (s : System) : System :=
  fold_left (λ s a, act out env a s) l s.

Definition initial : System :=
  {| world := {| photos := ∅; comments := []; files := ∅; dirs := ∅; tick := 0 |};
     pending := [] |}.

(** The states the system can be in. *)
Definition reachable (out : Outside) (env : ProcessEnv) (s : System) : Prop :=
  ∃ l, s = acts out env l initial.

(* ===================================================================== *)
(** * The contract of the GPS normaliser, in the words of the
      specification *)
(* ===================================================================== *)

(** A triple gives degrees + minutes/60 + seconds/3600, a bare number is
    returned as it is, and everything else (absent, wrong arity,
    non-numeric) is absent. *)
Definition normalizeGps_contract (value : GpsField) : option number :=
  match value with
  | Num x => Some x
  | Arr [d; m; s] => Some (d + m / 60 + s / 3600)%float
  | _ => None
  end.

(** The configuration values the specification recognises, with [remote]
    for the live backend. *)
Definition selection_contract (env : ProcessEnv) : VisionProvider :=
  if bool_decide (VISION_PROVIDER env = Some (js "remote"))
  then new_OllamaVisionProvider env
  else MockVisionProvider.

(* ===================================================================== *)
(** * Upload validation *)
(* ===================================================================== *)

(** The three answers of the validation. *)
Definition invalidMediaType (file : File) : Response :=
  json (BodyError (js "Invalid file type. Only JPEG/JPG images are allowed. Received: "
                   ++ file_type file)) 400.

Definition payloadTooLarge (file : File) : Response :=
  json (BodyError (js "File size (" ++ PhotosRoute.sizeMB (file_size file)
                   ++ js "MB) exceeds the 10MB limit. Please upload a smaller image.")) 400.

Definition missingLocation : Response :=
  json (BodyError (js "Image does not contain GPS coordinates in EXIF metadata. Please upload a photo taken with a device that has location services enabled.")) 400.

(** The content type is one of the allowed JPEG variants, whatever its
    case. *)
Definition typeAllowed (file : File) : bool :=
  arrayIncludes PhotosRoute.ALLOWED_MIME_TYPES (toLowerCase (file_type file)).

(* ===================================================================== *)
(** * Concrete inputs used by the examples *)
(* ===================================================================== *)

Definition ollama_env : ProcessEnv :=
  {| VISION_PROVIDER := Some (js "ollama"); OLLAMA_BASE_URL := None;
     OLLAMA_MODEL := None; cwd := js "/app" |}.

Definition alice : User := {| user_id := js "alice"; email := js "alice@example.org" |}.
Definition bob : User := {| user_id := js "bob"; email := js "bob@example.org" |}.

Definition upload_of (u : User) (f : File) : Request :=
  {| session := Some u; params_id := []; formData_file := Some f;
     json_body := None |}.

Definition request_on (u : User) (id : jsstring) (b : option Json) : Request :=
  {| session := Some u; params_id := id; formData_file := None;
     json_body := b |}.

(** A PNG of 11 MiB. *)
Definition big_png : File :=
  {| file_type := js "image/png"; file_size := 11 * 1024 * 1024;
     file_bytes := [] |}.

(** A JPEG one byte over the ceiling, and one exactly at it. *)
Definition big_jpeg : File :=
  {| file_type := js "image/jpeg"; file_size := 10 * 1024 * 1024 + 1;
     file_bytes := [] |}.

Definition full_jpeg : File :=
  {| file_type := js "image/jpeg"; file_size := 10 * 1024 * 1024;
     file_bytes := [] |}.

Definition small_jpeg : File :=
  {| file_type := js "image/jpeg"; file_size := 3;
     file_bytes := [255; 216; 255]%N |}.

(** EXIF data of a photo taken on the equator: the decimal latitude is
    0 and the raw fields are not there. *)
Definition equator : ExifData :=
  {| latitude := Num 0; longitude := Num 2.25;
     GPSLatitude := Undefined; GPSLongitude := Undefined |}.

Definition paris : ExifData :=
  {| latitude := Num 48.5; longitude := Num 2.25;
     GPSLatitude := Undefined; GPSLongitude := Undefined |}.

(** An outside in which the parser finds [exifData] in every file and
    the inference backend answers its first call and is unreachable from
    then on. *)
Definition outside_with (exifData : ExifData) : Outside :=
  {| exifr_parse := λ _, Fulfilled (Some exifData);
     cuid := λ n, js "c" ++ decimal (N.of_nat n);
     uuid := λ n, js "u" ++ decimal (N.of_nat n);
     now := λ n, N.of_nat n;
     ollama_chat := λ n _,
       if (n <=? 2)%nat then Fulfilled (js "empty train tracks")
       else Rejected (JsError (js "fetch failed")) |}.

(* ===================================================================== *)
(** * Rows and update data named in the statements *)
(* ===================================================================== *)

(** The row that [db.comment.create] makes for a request whose content
    is [s]. *)
Definition created_comment (out : Outside) (w : World) (request : Request)
    (user : User) (s : jsstring) : Comment :=
  {| comment_id := cuid out (tick w); photoId := params_id request;
     authorId := user_id user; content := trim s;
     comment_createdAt := now out (tick w) |}.

(** The write that ends an enrichment, by the outcome of the provider's
    call. *)
Definition completion_data (o : Outcome jsstring) : PhotoUpdateData :=
  match o with
  | Fulfilled description => PhotosRoute.done_data description
  | Rejected error => PhotosRoute.error_data error
  end.

(** What the path check of the remote provider accepts. *)
Definition confined (imageUrlOrPath : jsstring) : bool :=
  let rel := stripPrefix (js "/uploads/") imageUrlOrPath in
  startsWith imageUrlOrPath (js "/uploads/")
  && negb (includes rel (js ".."))
  && negb (includes rel (js "\"))
  && negb (startsWith rel (js "/"))
  && negb (200 <? length rel)%nat
  && (endsWith (toLowerCase rel) (js ".jpg")
      || endsWith (toLowerCase rel) (js ".jpeg")).

(** The answer to a delete or regenerate request that is not the
    owner's. *)
Definition notFound : Response := json (BodyError (js "Photo not found")) 404.

(** The caller owns a photo stored under the requested id. *)
Definition owned (w : World) (request : Request) (user : User) : Prop :=
  ∃ p, photos w !! params_id request = Some p ∧ ownerId p = user_id user.

(** A photo of alice's, a world that holds it with one comment and its
    file, and a comment of 500 letters between spaces. *)
Definition photo1 : Photo :=
  {| photo_id := js "c1"; ownerId := js "alice"; url := js "/uploads/u0.jpg";
     lat := 48.5; lng := 2.25; createdAt := 1; aiStatus := DONE;
     aiDescription := Some (js "empty train tracks"); aiError := None |}.

Definition world1 : World :=
  {| photos := {[ js "c1" := photo1 ]};
     comments := [ {| comment_id := js "k1"; photoId := js "c1";
                      authorId := js "bob"; content := js "nice";
                      comment_createdAt := 2 |} ];
     files := {[ js "/app/public/uploads/u0.jpg" := [255; 216; 255]%N ]};
     dirs := {[ js "/app/public/uploads" ]};
     tick := 3 |}.

Definition letters500 : jsstring := js "  " ++ repeat 97%N 500 ++ js " ".

Definition comment_body (s : jsstring) : option Json :=
  Some (JObject [(js "content", JString s)]).

(* ===================================================================== *)
(** * The enrichment invariant, as far as the code keeps it *)
(* ===================================================================== *)

(** The invariant of the specification: a description only with DONE, an
    error only with ERROR, so never both. *)
Definition exclusive (p : Photo) : Prop :=
  (is_Some (aiDescription p) → aiStatus p = DONE)
  ∧ (is_Some (aiError p) → aiStatus p = ERROR).

(** What holds of every stored photo: PENDING has neither field, DONE
    has a description and no error, ERROR has an error.  An ERROR photo
    may hold a description as well. *)
Definition consistent (p : Photo) : Prop :=
  match aiStatus p with
  | PENDING => aiDescription p = None ∧ aiError p = None
  | DONE => is_Some (aiDescription p) ∧ aiError p = None
  | ERROR => is_Some (aiError p)
  end.

(** The writes to the enrichment fields that the handlers make: a photo
    is created PENDING, and an update is the reset, the success write or
    the failure write. *)
Definition tame_op {X : Type} (op : Eff X) : Prop :=
  match op with
  | DbPhotoUpdate _ data =>
      data = RegenerateRoute.reset_data
      ∨ (∃ description, data = PhotosRoute.done_data description)
      ∨ (∃ error, data = PhotosRoute.error_data error)
  | DbPhotoCreate _ _ _ _ st => st = PENDING
  | _ => True
  end.

(** A program all of whose calls, and all of whose promises' calls, are
    of that kind, whatever the outcomes. *)
Inductive tame : ∀ R, Prog R → Prop :=
| tame_Ret R (r : R) : tame R (Ret r)
| tame_Throw R (e : exn) : tame R (Throw e)
| tame_Call R X (op : Eff X) (k : Outcome X → Prog R) :
    tame_op op → (∀ o, tame R (k o)) → tame R (Call op k)
| tame_Fork R (child : Prog unit) (k : Prog R) :
    tame unit child → tame R k → tame R (Fork child k).
Arguments tame {R} p.

Definition invariant (s : System) : Prop :=
  map_Forall (λ _ p, consistent p) (photos (world s))
  ∧ Forall (λ p, tame p) (pending s).

(* ===================================================================== *)
(** * How a handler ends *)
(* ===================================================================== *)

(** [ends throws Q p]: whatever the calls answer, [p] ends by returning
    a value that satisfies [Q] or, when [throws] is set, by throwing.
    The promises it starts are not looked at. *)
Inductive ends {R : Type} (throws : bool) (Q : R → Prop) : Prog R → Prop :=
| ends_Ret (r : R) : Q r → ends throws Q (Ret r)
| ends_Throw (e : exn) : throws = true → ends throws Q (Throw e)
| ends_Call (X : Type) (op : Eff X) (k : Outcome X → Prog R) :
    (∀ o, ends throws Q (k o)) → ends throws Q (Call op k)
| ends_Fork (child : Prog unit) (k : Prog R) :
    ends throws Q k → ends throws Q (Fork child k).

(** The status codes a route answers with. *)
Definition statuses (route : Route) : list N :=
  match route with
  | Upload => [201; 400; 401; 500]
  | Delete => [200; 404; 401; 500]
  | AddComment => [201; 400; 404; 401; 500]
  | Regenerate => [200; 404; 401; 500]
  end%N.

Definition unauthorized : Response := json (BodyError (js "Unauthorized")) 401.

(* ===================================================================== *)
(** * What an accepted upload stores *)
(* ===================================================================== *)

(** The name, the reference and the path of the file that an upload
    served in world [w] saves. *)
Definition upload_filename (out : Outside) (w : World) : jsstring :=
  uuid out (tick w) ++ js ".jpg".

Definition upload_url (out : Outside) (w : World) : jsstring :=
  js "/uploads/" ++ upload_filename out w.

Definition upload_path (env : ProcessEnv) (out : Outside) (w : World)
    : jsstring :=
  join [join [cwd env; js "public"; js "uploads"]; upload_filename out w].

(** The world once the file is saved: an identifier has been drawn, the
    uploads directory exists, and the bytes are stored. *)
Definition upload_saved (env : ProcessEnv) (out : Outside) (w : World)
    (file : File) : World :=
  {| photos := photos w; comments := comments w;
     files := <[upload_path env out w := file_bytes file]> (files w);
     dirs := (let uploadsDir := join [cwd env; js "public"; js "uploads"] in
              if bool_decide (uploadsDir ∈ dirs w)
                 || bool_decide (is_Some (files w !! uploadsDir))
              then dirs w else {[uploadsDir]} ∪ dirs w);
     tick := S (tick w) |}.

(** The row that the store creates for it. *)
Definition upload_photo (out : Outside) (w : World) (user : User)
    (latNumber lngNumber : number) : Photo :=
  {| photo_id := cuid out (S (tick w)); ownerId := user_id user;
     url := upload_url out w; lat := latNumber; lng := lngNumber;
     createdAt := now out (S (tick w)); aiStatus := PENDING;
     aiDescription := None; aiError := None |}.

(** The coordinates that the handler takes from the parser's answer. *)
Definition selected_lat (exifData : option ExifData) : option number :=
  normalizeGps (js_or (optionalChain exifData latitude)
                      (optionalChain exifData GPSLatitude)).

Definition selected_lng (exifData : option ExifData) : option number :=
  normalizeGps (js_or (optionalChain exifData longitude)
                      (optionalChain exifData GPSLongitude)).

Definition internalError : Response :=
  json (BodyError (js "Internal server error")) 500.

(* ===================================================================== *)
(** * Paths under the working directory *)
(* ===================================================================== *)

(** A path segment that normalisation keeps as it is: not empty, without
    a slash, and neither [.] nor [..]. *)
Definition plain (seg : jsstring) : bool :=
  negb (bool_decide (seg = []))
  && negb (existsb (N.eqb 47) seg)
  && negb (bool_decide (seg = js "."))
  && negb (bool_decide (seg = js "..")).

(** An absolute, normalised path, as [process.cwd()] returns it: a slash
    followed by plain segments with slashes between them. *)
Definition absolute (path : jsstring) : Prop :=
  ∃ segs, path = 47%N :: joinSlash segs ∧ forallb plain segs = true.

(** The accumulator of [normalizeSegments], before it is reversed. *)
Fixpoint normalizeAcc (isAbsolute : bool) (segs : list jsstring)
    (acc : list jsstring) : list jsstring :=
  match segs with
  | [] => acc
  | seg :: rest =>
      if bool_decide (seg = []) || bool_decide (seg = js ".") then
        normalizeAcc isAbsolute rest acc
      else if bool_decide (seg = js "..") then
        match acc with
        | prev :: acc' =>
            if bool_decide (prev = js "..") then
              normalizeAcc isAbsolute rest (seg :: acc)
            else normalizeAcc isAbsolute rest acc'
        | [] =>
            if isAbsolute then normalizeAcc isAbsolute rest acc
            else normalizeAcc isAbsolute rest (seg :: acc)
        end
      else normalizeAcc isAbsolute rest (seg :: acc)
  end.

(** A generated file name is safe when it has no slash, no dot and no
    backslash; a UUID, made of hexadecimal digits and hyphens, is. *)
Definition safeName (id : jsstring) : bool :=
  forallb (λ c, negb (c =? 47)%N && negb (c =? 46)%N && negb (c =? 92)%N) id.

(* ===================================================================== *)
(** * Messages and rows named in the statements on enrichment *)
(* ===================================================================== *)

Definition mockDescription : jsstring :=
  js "A photo taken near railway tracks and vegetation.".

(** The promise that an upload starts: the enrichment, with its
    rejection logged and dropped. *)
Definition upload_promise (env : ProcessEnv) (photoId imageUrl : jsstring)
    : Prog unit :=
  try_catch (PhotosRoute.generateAIDescription env photoId imageUrl)
    (λ _, Ret ()).

Definition cannotConnect (baseUrl : jsstring) : jsstring :=
  js "Cannot connect to Ollama at " ++ baseUrl
  ++ js ". Make sure Ollama is running.".

Definition fileNotFound (imageUrlOrPath : jsstring) : jsstring :=
  js "Image file not found: " ++ imageUrlOrPath.

(** The message of the file system for a file that is not there. *)
Definition enoent (path : jsstring) : jsstring :=
  js "ENOENT: no such file or directory, open '" ++ path ++ js "'".

(** A message that names a network failure, as the provider's [catch]
    clause recognises it. *)
Definition networkFailure (message : jsstring) : bool :=
  includes message (js "fetch failed")
  || includes message (js "ECONNREFUSED")
  || includes message (js "ENOTFOUND").

(** The path that the remote provider reads for a reference. *)
Definition provider_path (env : ProcessEnv) (imageUrlOrPath : jsstring)
    : jsstring :=
  join [cwd env; js "public"; js "uploads";
        stripPrefix (js "/uploads/") imageUrlOrPath].

(** A world in which the next generated record id is taken. *)
Definition photo4 : Photo :=
  {| photo_id := js "c4"; ownerId := js "bob"; url := js "/uploads/u9.jpg";
     lat := 1; lng := 2; createdAt := 2; aiStatus := PENDING;
     aiDescription := None; aiError := None |}.

Definition world4 : World :=
  with_photos world1 (<[js "c4" := photo4]> (photos world1)).

Definition mock_env : ProcessEnv :=
  {| VISION_PROVIDER := None; OLLAMA_BASE_URL := None; OLLAMA_MODEL := None;
     cwd := js "/app" |}.

(* ===================================================================== *)
(** * Uploads that pass every check *)
(* ===================================================================== *)

(** A request of a signed-in user with a file of an allowed type and
    size in which the parser finds both coordinates. *)
Definition acceptable (out : Outside) (request : Request) (user : User)
    (file : File) (latNumber lngNumber : number) : Prop :=
  session request = Some user
  ∧ formData_file request = Some file
  ∧ typeAllowed file = true
  ∧ (file_size file ≤ PhotosRoute.MAX_FILE_SIZE)%N
  ∧ ∃ exifData,
      exifr_parse out (file_bytes file) = Fulfilled exifData
      ∧ selected_lat exifData = Some latNumber
      ∧ selected_lng exifData = Some lngNumber.

(** The world that an accepted upload leaves. *)
Definition after_upload (env : ProcessEnv) (out : Outside) (w : World)
    (user : User) (file : File) (latNumber lngNumber : number) : World :=
  let photo := upload_photo out w user latNumber lngNumber in
  next_tick (with_photos (upload_saved env out w file)
               (<[photo_id photo := photo]> (photos w))).

(** [world1] after its file was removed by hand. *)
Definition world_without_file : World := with_files world1 ∅.

(** [world1] early enough for the backend of [outside_with] to answer. *)
Definition world1_early : World :=
  {| photos := photos world1; comments := comments world1;
     files := files world1; dirs := dirs world1; tick := 1 |}.

(* ===================================================================== *)
(** * What the store holds in every reachable state *)
(* ===================================================================== *)

(** A reference that an upload made: [/uploads/<uuid>.jpg] for a drawn
    identifier. *)
Definition generated (out : Outside) (imageUrl : jsstring) : Prop :=
  ∃ n, imageUrl = js "/uploads/" ++ uuid out n ++ js ".jpg".

(** The outcomes that a call can have as far as the statements below
    need them: [uuidv4()] returns one of the identifiers of [out]. *)
Definition possible {X : Type} (out : Outside) (op : Eff X)
    : Outcome X → Prop :=
  match op in Eff X return Outcome X → Prop with
  | Uuidv4 => λ o, ∃ n, o = Fulfilled (uuid out n)
  | _ => λ _, True
  end.

(** A photo is created only under a generated reference. *)
Definition orderly_op {X : Type} (out : Outside) (op : Eff X) : Prop :=
  match op with
  | DbPhotoCreate _ data_url _ _ _ => generated out data_url
  | _ => True
  end.

(** A program all of whose calls, and all of whose promises' calls, are
    of that kind, whatever the possible outcomes. *)
Inductive orderly (out : Outside) : ∀ R, Prog R → Prop :=
| orderly_Ret R (r : R) : orderly out R (Ret r)
| orderly_Throw R (e : exn) : orderly out R (Throw e)
| orderly_Call R X (op : Eff X) (k : Outcome X → Prog R) :
    orderly_op out op → (∀ o, possible out op o → orderly out R (k o)) →
    orderly out R (Call op k)
| orderly_Fork R (child : Prog unit) (k : Prog R) :
    orderly out unit child → orderly out R k → orderly out R (Fork child k).
Arguments orderly out {R} p.

(** Every photo is stored under its own id and under a generated
    reference, and every comment is on a stored photo. *)
Definition sound (out : Outside) (w : World) : Prop :=
  map_Forall (λ id p, photo_id p = id ∧ generated out (url p)) (photos w)
  ∧ Forall (λ c, is_Some (photos w !! photoId c)) (comments w).

(** Identifiers as [uuidv4()] makes them: no separator, no dot, and
    short. *)
Definition uuids_are_safe (out : Outside) : Prop :=
  ∀ n, safeName (uuid out n) = true ∧ length (uuid out n) ≤ 196.

(** An outside whose identifiers have the shape of a version 4 UUID. *)
Definition outside_v4 : Outside :=
  {| exifr_parse := λ _, Fulfilled (Some paris);
     cuid := λ n, js "c" ++ decimal (N.of_nat n);
     uuid := λ _, js "3f2b8c1e-7a4d-4e0b-9c55-0d6f1a2b3c4d";
     now := λ n, N.of_nat n;
     ollama_chat := λ _ _, Fulfilled (js "empty train tracks") |}.

(** The system after alice's first upload. *)
Definition after_one_upload (out : Outside) : System :=
  acts out ollama_env [Serve Upload (upload_of alice small_jpeg)] initial.

(* ===================================================================== *)
(** * What a route may change *)
(* ===================================================================== *)

(** Two rows that differ in the enrichment fields at most. *)
Definition same_identity (p p' : Photo) : Prop :=
  photo_id p' = photo_id p ∧ ownerId p' = ownerId p ∧ url p' = url p
  ∧ lat p' = lat p ∧ lng p' = lng p ∧ createdAt p' = createdAt p.

(** The change that a route makes to the world, at most: an upload adds
    photos and writes files, a delete removes, a comment appends, and a
    regeneration, like the enrichment it starts, rewrites the enrichment
    fields of stored photos. *)
Definition frame (route : Route) (w w' : World) : Prop :=
  match route with
  | Upload =>
      comments w' = comments w
      ∧ photos w ⊆ photos w'
      ∧ ∀ path, is_Some (files w !! path) → is_Some (files w' !! path)
  | Delete =>
      photos w' ⊆ photos w
      ∧ files w' ⊆ files w
      ∧ comments w' `sublist_of` comments w
  | AddComment =>
      photos w' = photos w
      ∧ files w' = files w
      ∧ comments w `prefix_of` comments w'
  | Regenerate =>
      comments w' = comments w
      ∧ files w' = files w
      ∧ ∀ id, match photos w !! id, photos w' !! id with
              | Some p, Some p' => same_identity p p'
              | None, None => True
              | _, _ => False
              end
  end.

(** The calls that stay within the frame of a route. *)
Definition within {X : Type} (route : Route) (op : Eff X) : Prop :=
  match route, op with
  | Upload, (ExifrParse _ | Uuidv4 | ExistsSync _ | Mkdir _ | WriteFile _ _
            | DbPhotoCreate _ _ _ _ _) => True
  | Delete, (DbPhotoFindFirst _ _ | Unlink _ | DbPhotoDelete _) => True
  | AddComment, (DbPhotoFindFirst _ _ | DbCommentCreate _ _ _) => True
  | Regenerate, (DbPhotoFindFirst _ _ | DbPhotoUpdate _ _ | ReadFile _
                | SetTimeout _ | OllamaChat _ _ _) => True
  | _, _ => False
  end.

(** A program that makes only calls that satisfy [P]; the promises it
    starts are not looked at. *)
Inductive every (P : ∀ X, Eff X → Prop) : ∀ R, Prog R → Prop :=
| every_Ret R (r : R) : every P R (Ret r)
| every_Throw R (e : exn) : every P R (Throw e)
| every_Call R X (op : Eff X) (k : Outcome X → Prog R) :
    P X op → (∀ o, every P R (k o)) → every P R (Call op k)
| every_Fork R (child : Prog unit) (k : Prog R) :
    every P R k → every P R (Fork child k).
Arguments every P {R} p.

(* ===================================================================== *)
(** * app/api/photos/route.ts and app/api/photos/[id]/route.ts: reading *)
(* ===================================================================== *)

(** The two [GET] handlers only read the record store.  Reading a table
    does not fail in this model, so that their [catch] clause is left
    with the one error it can see, the missing session; they are
    functions of the world. *)

(** What the list handler reads of its request: the session and
    [searchParams.get("all")], the first value of the parameter or
    [null]. *)
Record ListRequest := {
  list_session : option User;
  search_all : option jsstring
}.

(** [select: { id, lat, lng, createdAt }] *)
Record PhotoEntry := {
  entry_id : jsstring;
  entry_lat : number;
  entry_lng : number;
  entry_createdAt : N
}.

Definition select_entry (p : Photo) : PhotoEntry :=
  {| entry_id := photo_id p; entry_lat := lat p; entry_lng := lng p;
     entry_createdAt := createdAt p |}.

(** [orderBy: { createdAt: "desc" }] *)
Definition newer (p q : Photo) : Prop := (createdAt q ≤ createdAt p)%N.

#[export] Instance newer_dec : RelDecision newer :=
  λ p q, decide (createdAt q ≤ createdAt p)%N.

(** [where: {}] or [where: { ownerId }] *)
Definition owned_by (where_ownerId : option jsstring) (p : Photo) : Prop :=
  match where_ownerId with
  | Some o => ownerId p = o
  | None => True
  end.

#[export] Instance owned_by_dec (where_ownerId : option jsstring) (p : Photo) :
  Decision (owned_by where_ownerId p) :=
  match where_ownerId as o return Decision (owned_by o p) with
  | Some o => decide (ownerId p = o)
  | None => left I
  end.

(** [db.photo.findMany({ where, orderBy })].  The order of two photos of
    the same creation time is the store's choice; no statement below
    depends on the choice made here. *)
Definition findMany (w : World) (where_ownerId : option jsstring)
    : list Photo :=
  merge_sort newer (filter (owned_by where_ownerId) (map_to_list (photos w)).*2).

Inductive ListResponse :=
| ListOk (entries : list PhotoEntry)
| ListError (error : jsstring) (status : N).

Module ListRoute.

Definition GET (request : ListRequest) (w : World) : ListResponse :=
  match list_session request with
  | None => ListError (js "Unauthorized") 401
  | Some user =>
      (* Check if "all" query parameter is present to show all photos *)
      let showAll := bool_decide (search_all request = Some (js "true")) in
      (* Fetch photos based on toggle state *)
      let photos :=
        findMany w (if showAll then None else Some (user_id user)) in
      ListOk (select_entry <$> photos)
  end.

End ListRoute.

(** The detail handler selects every column of the photo. *)
Inductive DetailResponse :=
| DetailOk (photo : Photo)
| DetailError (error : jsstring) (status : N).

Module DetailRoute.

Definition GET (request : Request) (w : World) : DetailResponse :=
  match session request with
  | None => DetailError (js "Unauthorized") 401
  | Some user =>
      let photoId := params_id request in
      (* Fetch photo by ID (any authenticated user can view) *)
      match findFirst w photoId None with
      | None => DetailError (js "Photo not found") 404
      | Some photo => DetailOk photo
      end
  end.

End DetailRoute.

(* ===================================================================== *)
(** * components/PhotoUpload.tsx *)
(* ===================================================================== *)

(** The state of the form: the file it holds and the error it shows. *)
Record UploadForm := {
  form_file : option File;
  form_error : jsstring
}.

(** [type.match(/^image\/(jpeg|jpg)$/)]: the pattern is anchored on both
    sides and has no flag, so that it matches two strings. *)
Definition matchesJpeg (type : jsstring) : bool :=
  bool_decide (type = js "image/jpeg") || bool_decide (type = js "image/jpg").

Definition handleFileChange (selectedFile : option File) (form : UploadForm)
    : UploadForm :=
  match selectedFile with
  | Some selectedFile =>
      if negb (matchesJpeg (file_type selectedFile)) then
        {| form_file := form_file form;
           form_error := js "Only JPEG/JPG images are allowed" |}
      else if (10 * 1024 * 1024 <? file_size selectedFile)%N then
        {| form_file := form_file form;
           form_error := js "File size must be less than 10MB" |}
      else {| form_file := Some selectedFile; form_error := [] |}
  | None => form
  end.

(** The form as it is first shown, and after a series of selections. *)
Definition empty_form : UploadForm := {| form_file := None; form_error := [] |}.

Definition selections (picked : list (option File)) : UploadForm :=
  fold_left (λ form selectedFile, handleFileChange selectedFile form)
    picked empty_form.

(** [handleSubmit]: the request that the form sends for the signed-in
    user, if it sends one. *)
Definition handleSubmit (user : User) (form : UploadForm) : option Request :=
  match form_file form with
  | None => None
  | Some file => Some (upload_of user file)
  end.

(* ===================================================================== *)
(** * components/PhotoDetailModal.tsx *)
(* ===================================================================== *)

(** [photo && session?.user?.id && photo.ownerId === session.user.id],
    as the conditions of the delete and regenerate buttons read it. *)
Definition isOwner (photo : option Photo) (session : option User) : bool :=
  match photo, session with
  | Some photo, Some user =>
      negb (bool_decide (user_id user = []))
      && bool_decide (ownerId photo = user_id user)
  | _, _ => false
  end.

(** [handleSubmitComment]: the request that the modal sends for the
    signed-in user, if it sends one. *)
Definition handleSubmitComment (user : User) (photoId : option jsstring)
    (commentContent : jsstring) : option Request :=
  match photoId with
  | None | Some [] => None
  | Some photoId =>
      if bool_decide (trim commentContent = []) then None
      else Some (request_on user photoId (comment_body (trim commentContent)))
  end.

(** A photo of bob's beside [photo1], and a photo of alice's of the same
    age. *)
Definition photo2 : Photo :=
  {| photo_id := js "c2"; ownerId := js "bob"; url := js "/uploads/u1.jpg";
     lat := 1; lng := 2; createdAt := 5; aiStatus := PENDING;
     aiDescription := None; aiError := None |}.

Definition world2 : World :=
  with_photos world1 (<[js "c2" := photo2]> (photos world1)).

Definition list_of (u : User) (all : option jsstring) : ListRequest :=
  {| list_session := Some u; search_all := all |}.

(* ===================================================================== *)
(** * lib/ai/visionProvider.ts: shortening the backend's answer *)
(* ===================================================================== *)

(** The last steps that [OllamaVisionProvider.describeImage] applies to
    the text of the backend's answer, after the markdown and the opening
    phrases have been removed: cut at the first sentence end, cut at 200
    code units, remove trailing punctuation. *)

(** [/[.!?]/] *)
Definition isSentenceEnd (c : N) : bool :=
  (c =? 46)%N || (c =? 33)%N || (c =? 63)%N.

(** [/[.,;:!?]/] *)
Definition isPunctuation (c : N) : bool :=
  (c =? 46)%N || (c =? 44)%N || (c =? 59)%N || (c =? 58)%N
  || (c =? 33)%N || (c =? 63)%N.

(** [s.search(/[...]/)]: the index of the first code unit of the class,
    [None] for [-1]. *)
Fixpoint search (class : N → bool) (s : jsstring) : option nat :=
  match s with
  | [] => None
  | c :: s' => if class c then Some 0 else S <$> search class s'
  end.

(** [s.lastIndexOf(" ")] *)
Fixpoint lastIndexOf (unit : N) (s : jsstring) : option nat :=
  match s with
  | [] => None
  | c :: s' =>
      match lastIndexOf unit s' with
      | Some i => Some (S i)
      | None => if (c =? unit)%N then Some 0 else None
      end
  end.

(** [s.substring(0, n)] *)
Definition substring0 (s : jsstring) (n : nat) : jsstring := take n s.

Fixpoint dropLeading (class : N → bool) (s : jsstring) : jsstring :=
  match s with
  | [] => []
  | c :: s' => if class c then dropLeading class s' else s
  end.

(** [s.replace(/[.,;:!?]+$/, "")]: the match is the longest run of
    punctuation that ends the string. *)
Definition removeTrailingPunctuation (s : jsstring) : jsstring :=
  rev (dropLeading isPunctuation (rev s)).

Definition shorten (description : jsstring) : jsstring :=
  (* Take the first complete sentence *)
  let description :=
    match search isSentenceEnd description with
    | Some (S n) => trim (substring0 description (S n))
    | _ => description
    end in
  (* If still too long, truncate at word boundary *)
  let description :=
    if (200 <? length description)%nat then
      let truncated := substring0 description 200 in
      match lastIndexOf 32 truncated with
      | Some lastSpace =>
          if (150 <? lastSpace)%nat
          then trim (substring0 truncated lastSpace)
          else trim truncated
      | None => trim truncated
      end
    else description in
  (* Remove trailing punctuation *)
  let description := trim (removeTrailingPunctuation description) in
  trim description.

(* ===================================================================== *)
(** * Facts about strings *)
(* ===================================================================== *)

Lemma startsWith_nil (s : jsstring) : startsWith s [] = true.
Proof. reflexivity. Qed.

Lemma startsWith_cons (d c : N) (s p : jsstring) :
  startsWith (d :: s) (c :: p) = (c =? d)%N && startsWith s p.
Proof. reflexivity. Qed.

Lemma includes_cons (d : N) (s p : jsstring) :
  includes (d :: s) p = startsWith (d :: s) p || includes s p.
Proof. reflexivity. Qed.

Lemma startsWith_spec (s p : jsstring) :
  startsWith s p = true ↔ ∃ t, s = p ++ t.
Proof.
  revert s. induction p as [|c p IH]; intros s.
  - rewrite startsWith_nil. split; [intros _; by exists s | done].
  - destruct s as [|d s].
    + split; [done | intros [t Ht]; discriminate].
    + rewrite startsWith_cons, andb_true_iff, N.eqb_eq, IH. split.
      * intros [-> [t ->]]. by exists t.
      * intros [t Ht]. injection Ht as -> ->. split; [done | by exists t].
Qed.

Lemma endsWith_spec (s p : jsstring) :
  endsWith s p = true ↔ ∃ t, s = t ++ p.
Proof.
  unfold endsWith. rewrite startsWith_spec. split.
  - intros [t Ht]. exists (rev t).
    rewrite <- (rev_involutive s), Ht, rev_app_distr.
    by rewrite rev_involutive.
  - intros [t ->]. exists (rev t). by rewrite rev_app_distr.
Qed.

Lemma includes_spec (s p : jsstring) :
  includes s p = true ↔ ∃ a b, s = a ++ p ++ b.
Proof.
  induction s as [|d s IH].
  - change (includes [] p) with (startsWith [] p || false).
    rewrite orb_false_r, startsWith_spec. split.
    + intros [t Ht]. by exists [], t.
    + intros [a [b Hab]]. destruct a; [by exists b | discriminate].
  - rewrite includes_cons, orb_true_iff, startsWith_spec, IH. split.
    + intros [[t Ht] | [a [b Hab]]].
      * by exists [], t.
      * exists (d :: a), b. simpl. by rewrite Hab.
    + intros [a [b Hab]]. destruct a as [|d' a].
      * left. by exists b.
      * right. injection Hab as _ ->. by exists a, b.
Qed.

Lemma stripPrefix_spec (s p : jsstring) :
  startsWith s p = true → s = p ++ stripPrefix p s.
Proof.
  intros H. unfold stripPrefix. rewrite H.
  apply startsWith_spec in H as [t ->]. by rewrite drop_app_length.
Qed.

(** The prefix [/uploads/] holds no dot and no backslash and ends in a
    slash: what a reference that begins with it contains or ends in, its
    remainder contains or ends in. *)
Lemma includes_after_uploads (rel : jsstring) :
  includes (js "/uploads/" ++ rel) (js "..") = includes rel (js "..")
  ∧ includes (js "/uploads/" ++ rel) (js "\") = includes rel (js "\").
Proof. split; reflexivity. Qed.

Lemma endsWith_after_uploads (rel : jsstring) :
  endsWith (toLowerCase (js "/uploads/" ++ rel)) (js ".jpg")
  = endsWith (toLowerCase rel) (js ".jpg")
  ∧ endsWith (toLowerCase (js "/uploads/" ++ rel)) (js ".jpeg")
    = endsWith (toLowerCase rel) (js ".jpeg").
Proof.
  unfold endsWith, toLowerCase. rewrite map_app, rev_app_distr.
  generalize (rev (map lowerUnit rel)). intros l.
  split.
  - destruct l as [|a [|b [|c [|d l]]]]; try reflexivity;
      cbn; rewrite ?andb_false_r; reflexivity.
  - destruct l as [|a [|b [|c [|d [|e l]]]]]; try reflexivity;
      cbn; rewrite ?andb_false_r; reflexivity.
Qed.

Lemma trimStart_suffix (s : jsstring) : ∃ t, s = t ++ trimStart s.
Proof.
  induction s as [|c s [t Ht]]; simpl.
  - by exists [].
  - destruct (isWhiteSpace c).
    + exists (c :: t). simpl. by rewrite <- Ht.
    + by exists [].
Qed.

Lemma trimStart_head (s : jsstring) (c : N) (t : jsstring) :
  trimStart s = c :: t → isWhiteSpace c = false.
Proof.
  induction s as [|d s IH]; simpl; [done|].
  destruct (isWhiteSpace d) eqn:Hd; [done|].
  intros [= -> ->]. done.
Qed.

(** The lower-cased form of a string that is already one of the allowed
    types is itself: the check accepts the types as written. *)
Lemma toLowerCase_length (s : jsstring) : length (toLowerCase s) = length s.
Proof. apply length_map. Qed.

(* ===================================================================== *)
(** * The GPS normaliser *)
(* ===================================================================== *)

Lemma normalizeGps_number (x : number) : normalizeGps (Num x) = Some x.
Proof. reflexivity. Qed.

Lemma normalizeGps_absent : normalizeGps Undefined = None ∧ normalizeGps Null = None.
Proof. split; reflexivity. Qed.

Lemma normalizeGps_short (xs : list number) :
  (length xs < 3)%nat → normalizeGps (Arr xs) = None.
Proof.
  intros H. unfold normalizeGps.
  destruct (Nat.leb_spec 3 (length xs)); [lia | done].
Qed.

(** The contract of the specification and the code agree on every input
    but the arrays of more than three numbers. *)
Lemma normalizeGps_contract_agrees (value : GpsField) :
  (∀ xs, value = Arr xs → (length xs ≤ 3)%nat) →
  normalizeGps value = normalizeGps_contract value.
Proof.
  intros H. destruct value as [| |x|xs|t]; try reflexivity.
  specialize (H xs eq_refl).
  destruct xs as [|d [|m [|s [|e xs]]]]; try reflexivity.
  simpl in H. lia.
Qed.

(** C2, as stated, fails: an array of four numbers has the wrong arity,
    the contract calls it absent, and the code converts its first three
    elements. *)
Lemma C2_longer_array_is_converted :
  normalizeGps (Arr [48; 30; 0; 7]%float) = Some 48.5%float
  ∧ normalizeGps_contract (Arr [48; 30; 0; 7]%float) = None.
Proof. split; reflexivity. Qed.

(** C2, amended: [normalizeGps] returns a bare number unchanged; for an
    array of at least three numbers it returns the first plus the second
    over 60 plus the third over 3600, whatever follows them; and for
    [undefined], [null], an array of fewer than three elements and any
    value that is neither a number nor an array it returns [null]. *)
Theorem C2_normalizeGps_cases (value : GpsField) :
  normalizeGps value =
    match value with
    | Num x => Some x
    | Arr (d :: m :: s :: _) => Some (d + m / 60 + s / 3600)%float
    | Undefined | Null | Arr _ | Other _ => None
    end.
Proof.
  destruct value as [| |x|xs|t]; try reflexivity.
  destruct xs as [|d [|m [|s xs]]]; reflexivity.
Qed.

(* ===================================================================== *)
(** * Provider selection *)
(* ===================================================================== *)

Lemma env_or_unset (fallback : jsstring) :
  env_or None fallback = fallback ∧ env_or (Some []) fallback = fallback.
Proof. split; reflexivity. Qed.

Lemma getVisionProvider_mock (env : ProcessEnv) :
  VISION_PROVIDER env = Some (js "mock") ∨ VISION_PROVIDER env = None →
  getVisionProvider env = MockVisionProvider.
Proof. unfold getVisionProvider. intros [-> | ->]; reflexivity. Qed.

(** C8, as stated, fails: the value [remote] is not one the code
    recognises, and it selects the mock provider. *)
Lemma C8_remote_selects_mock :
  let env := {| VISION_PROVIDER := Some (js "remote");
                OLLAMA_BASE_URL := None; OLLAMA_MODEL := None;
                cwd := js "/app" |} in
  getVisionProvider env = MockVisionProvider
  ∧ selection_contract env
    = OllamaVisionProvider (js "http://localhost:11434") (js "llava").
Proof. split; reflexivity. Qed.

(** C8, amended: the recognised values are [mock] and [ollama].  The
    value [ollama] selects the live inference backend, built from the
    configured (or default) endpoint and model; every other value,
    [mock], an unrecognised one, the empty string or no value at all,
    selects the mock provider. *)
Theorem C8_getVisionProvider_selection (env : ProcessEnv) :
  getVisionProvider env =
    if bool_decide (VISION_PROVIDER env = Some (js "ollama"))
    then OllamaVisionProvider
           (env_or (OLLAMA_BASE_URL env) (js "http://localhost:11434"))
           (env_or (OLLAMA_MODEL env) (js "llava"))
    else MockVisionProvider.
Proof.
  unfold getVisionProvider.
  destruct (VISION_PROVIDER env) as [v|] eqn:Hv; [|reflexivity].
  destruct (decide (v = js "ollama")) as [->|Hne]; [reflexivity|].
  rewrite (bool_decide_eq_false_2 (Some v = Some (js "ollama"))) by congruence.
  destruct v as [|c s]; [reflexivity|]. simpl.
  rewrite (bool_decide_eq_false_2 (c :: s = js "ollama")) by done.
  by case_bool_decide.
Qed.

(* ===================================================================== *)
(** * Running programs *)
(* ===================================================================== *)

Lemma run_bind {A B : Type} (out : Outside) (p : Prog A) (f : A → Prog B)
    (w : World) :
  run out (p ≫= f) w =
    match run out p w with
    | (Fulfilled a, w', started) =>
        let '(o, w'', started') := run out (f a) w' in
        (o, w'', started ++ started')
    | (Rejected e, w', started) => (Rejected e, w', started)
    end.
Proof.
  unfold mbind, Prog_bind. revert B f w.
  induction p as [A a|A e|A X op k IH|A child _ k IH]; intros B f w; simpl.
  - by destruct (run out (f a) w) as [[o w'] started].
  - done.
  - destruct (exec out op w) as [o w']. apply IH.
  - rewrite IH. destruct (run out k w) as [[[a|e] w'] started]; [|done].
    by destruct (run out (f a) w') as [[o w''] started'].
Qed.

Lemma run_try_catch {A : Type} (out : Outside) (p : Prog A)
    (h : exn → Prog A) (w : World) :
  run out (try_catch p h) w =
    match run out p w with
    | (Fulfilled a, w', started) => (Fulfilled a, w', started)
    | (Rejected e, w', started) =>
        let '(o, w'', started') := run out (h e) w' in
        (o, w'', started ++ started')
    end.
Proof.
  revert h w.
  induction p as [A a|A e|A X op k IH|A child _ k IH]; intros h w; simpl.
  - done.
  - by destruct (run out (h e) w) as [[o w'] started].
  - destruct (exec out op w) as [o w']. apply IH.
  - rewrite IH. destruct (run out k w) as [[[a|e] w'] started]; [done|].
    by destruct (run out (h e) w') as [[o w''] started'].
Qed.

Lemma run_await {X : Type} (out : Outside) (op : Eff X) (w : World) :
  run out (await op) w = (exec out op w, []).
Proof.
  unfold await. simpl. by destruct (exec out op w) as [[x|e] w'].
Qed.

Lemma performs_Ret (P : ∀ X, Eff X → Prop) {R : Type} (r : R) :
  ¬ performs P (Ret r).
Proof. intros H. inversion H. Qed.

Lemma performs_Throw (P : ∀ X, Eff X → Prop) {R : Type} (e : exn) :
  ¬ performs P (@Throw R e).
Proof. intros H. inversion H. Qed.

(* ===================================================================== *)
(** * The remote provider's path check *)
(* ===================================================================== *)

(** The messages of the path check contain none of the words the
    [catch] clause looks for, so the clause throws them on as they are. *)
Lemma rethrow_plain (baseUrl imageUrlOrPath message : jsstring) :
  includes message (js "fetch failed") = false →
  includes message (js "ECONNREFUSED") = false →
  includes message (js "ENOTFOUND") = false →
  includes message (js "ENOENT") = false →
  Ollama.rethrow baseUrl imageUrlOrPath (JsError message)
  = Throw (JsError message).
Proof. intros H1 H2 H3 H4. unfold Ollama.rethrow. by rewrite H1, H2, H3, H4. Qed.

Lemma describeImage_unconfined (env : ProcessEnv)
    (baseUrl model imageUrlOrPath : jsstring) :
  confined imageUrlOrPath = false →
  ∃ message,
    Ollama.describeImage env baseUrl model imageUrlOrPath
    = Throw (JsError message).
Proof.
  unfold confined, Ollama.describeImage.
  set (rel := stripPrefix (js "/uploads/") imageUrlOrPath).
  destruct (startsWith imageUrlOrPath (js "/uploads/")); simpl.
  2:{ intros _. eexists. first [reflexivity | by apply rethrow_plain]. }
  destruct (includes rel (js "..")); simpl.
  { intros _. eexists. first [reflexivity | by apply rethrow_plain]. }
  destruct (includes rel (js "\")); simpl.
  { intros _. eexists. first [reflexivity | by apply rethrow_plain]. }
  destruct (startsWith rel (js "/")); simpl.
  { intros _. eexists. first [reflexivity | by apply rethrow_plain]. }
  destruct (200 <? length rel)%nat; simpl.
  { intros _. eexists. first [reflexivity | by apply rethrow_plain]. }
  destruct (endsWith (toLowerCase rel) (js ".jpg")); simpl; [done|].
  destruct (endsWith (toLowerCase rel) (js ".jpeg")); simpl; [done|].
  intros _. eexists. first [reflexivity | by apply rethrow_plain].
Qed.

Lemma describeImage_confined (env : ProcessEnv)
    (baseUrl model imageUrlOrPath : jsstring) :
  confined imageUrlOrPath = true →
  Ollama.describeImage env baseUrl model imageUrlOrPath
  = try_catch
      (imageBuffer ← await (ReadFile (join [cwd env; js "public"; js "uploads";
                                            stripPrefix (js "/uploads/") imageUrlOrPath]));
       await (OllamaChat baseUrl model imageBuffer))
      (Ollama.rethrow baseUrl imageUrlOrPath).
Proof.
  unfold confined, Ollama.describeImage.
  set (rel := stripPrefix (js "/uploads/") imageUrlOrPath).
  intros H. repeat (apply andb_prop in H as [H ?]).
  rewrite H.
  repeat match goal with
         | Hn : negb ?b = true |- _ =>
             apply negb_true_iff in Hn; rewrite Hn
         end.
  assert (negb (endsWith (toLowerCase rel) (js ".jpg"))
          && negb (endsWith (toLowerCase rel) (js ".jpeg")) = false) as ->.
  { destruct (endsWith (toLowerCase rel) (js ".jpg")); [done|].
    by destruct (endsWith (toLowerCase rel) (js ".jpeg")). }
  reflexivity.
Qed.

(** C9: the remote provider's [describeImage] rejects, with an error and
    before it reads a file or calls the inference backend, every
    reference that does not begin with [/uploads/], every reference that
    contains [..] or a backslash, every reference whose remainder after
    that prefix begins with a slash, and every reference that does not
    end, case-insensitively, in [.jpg] or [.jpeg]. *)
Theorem C9_unconfined_reference_is_rejected (env : ProcessEnv)
    (baseUrl model imageUrlOrPath : jsstring) :
  let call := describeImage env (OllamaVisionProvider baseUrl model)
                imageUrlOrPath in
  startsWith imageUrlOrPath (js "/uploads/") = false
  ∨ includes imageUrlOrPath (js "..") = true
  ∨ includes imageUrlOrPath (js "\") = true
  ∨ startsWith (stripPrefix (js "/uploads/") imageUrlOrPath) (js "/") = true
  ∨ (endsWith (toLowerCase imageUrlOrPath) (js ".jpg") = false
     ∧ endsWith (toLowerCase imageUrlOrPath) (js ".jpeg") = false) →
  (∃ message, call = Throw (JsError message))
  ∧ ¬ performs isReadFile call
  ∧ ¬ performs isOllamaChat call.
Proof.
  intros call Hbad.
  assert (Hc : confined imageUrlOrPath = false).
  { unfold confined.
    destruct (startsWith imageUrlOrPath (js "/uploads/")) eqn:Hp; [|done].
    set (rel := stripPrefix (js "/uploads/") imageUrlOrPath) in *.
    assert (Href : imageUrlOrPath = js "/uploads/" ++ rel)
      by (by apply stripPrefix_spec).
    destruct (includes_after_uploads rel) as [Hdots Hback].
    destruct (endsWith_after_uploads rel) as [Hjpg Hjpeg].
    rewrite Href, Hdots, Hback, Hjpg, Hjpeg in Hbad.
    destruct Hbad as [H|[H|[H|[H|[H1 H2]]]]]; rewrite ?H, ?H1, ?H2;
      simpl; rewrite ?andb_false_r; done. }
  destruct (describeImage_unconfined env baseUrl model _ Hc) as [message Hm].
  unfold call. simpl. rewrite Hm.
  split; [by exists message|]. split; apply performs_Throw.
Qed.

Lemma C9_witness :
  (∃ message,
     describeImage
       {| VISION_PROVIDER := Some (js "ollama"); OLLAMA_BASE_URL := None;
          OLLAMA_MODEL := None; cwd := js "/app" |}
       (OllamaVisionProvider (js "http://localhost:11434") (js "llava"))
       (js "/uploads/../../etc/passwd.jpg")
     = Throw (JsError message))
  ∧ ¬ performs isReadFile
        (describeImage
           {| VISION_PROVIDER := Some (js "ollama"); OLLAMA_BASE_URL := None;
              OLLAMA_MODEL := None; cwd := js "/app" |}
           (OllamaVisionProvider (js "http://localhost:11434") (js "llava"))
           (js "/uploads/../../etc/passwd.jpg"))
  ∧ ¬ performs isOllamaChat
        (describeImage
           {| VISION_PROVIDER := Some (js "ollama"); OLLAMA_BASE_URL := None;
              OLLAMA_MODEL := None; cwd := js "/app" |}
           (OllamaVisionProvider (js "http://localhost:11434") (js "llava"))
           (js "/uploads/../../etc/passwd.jpg")).
Proof.
  apply (C9_unconfined_reference_is_rejected
           {| VISION_PROVIDER := Some (js "ollama"); OLLAMA_BASE_URL := None;
              OLLAMA_MODEL := None; cwd := js "/app" |}
           (js "http://localhost:11434") (js "llava")
           (js "/uploads/../../etc/passwd.jpg")).
  right. left. reflexivity.
Defined.

(* ===================================================================== *)
(** * The order of the upload checks *)
(* ===================================================================== *)

Section upload.
Context (env : ProcessEnv) (request : Request) (user : User) (file : File).
Hypothesis Hsession : session request = Some user.
Hypothesis Hfile : formData_file request = Some file.

Lemma POST_bad_type :
  typeAllowed file = false →
  PhotosRoute.POST env request = Ret (invalidMediaType file).
Proof using Hsession Hfile.
  unfold typeAllowed, PhotosRoute.POST, requireAuth, mbind, Prog_bind.
  intros Hty. rewrite Hsession. simpl. rewrite Hfile, Hty. reflexivity.
Qed.

Lemma POST_too_large :
  typeAllowed file = true →
  (PhotosRoute.MAX_FILE_SIZE < file_size file)%N →
  PhotosRoute.POST env request = Ret (payloadTooLarge file).
Proof using Hsession Hfile.
  unfold typeAllowed, PhotosRoute.POST, requireAuth, mbind, Prog_bind.
  intros Hty Hsize. apply N.ltb_lt in Hsize.
  rewrite Hsession. simpl. rewrite Hfile, Hty, Hsize. reflexivity.
Qed.

Lemma POST_parses :
  typeAllowed file = true →
  (file_size file ≤ PhotosRoute.MAX_FILE_SIZE)%N →
  ∃ k, PhotosRoute.POST env request = Call (ExifrParse (file_bytes file)) k.
Proof using Hsession Hfile.
  unfold typeAllowed, PhotosRoute.POST, requireAuth, mbind, Prog_bind.
  intros Hty Hsize. apply N.ltb_ge in Hsize.
  rewrite Hsession. simpl. rewrite Hfile, Hty, Hsize. simpl. by eexists.
Qed.

End upload.

(** C3: an upload whose content type is not an allowed JPEG variant
    (compared in lower case) is answered with the invalid-type error and
    status 400 by a program that never calls the EXIF parser, whatever
    the size and the bytes; an upload of an allowed type that is too
    large is answered with the size error, again without parsing; and
    the EXIF parser is called only for an allowed type of an allowed
    size. *)
Theorem C3_checks_in_order (env : ProcessEnv) (request : Request)
    (user : User) (file : File) :
  session request = Some user →
  formData_file request = Some file →
  let upload := PhotosRoute.POST env request in
  (typeAllowed file = false →
     upload = Ret (invalidMediaType file)
     ∧ status (invalidMediaType file) = 400%N
     ∧ ¬ performs isExifrParse upload)
  ∧ (typeAllowed file = true →
     (PhotosRoute.MAX_FILE_SIZE < file_size file)%N →
     upload = Ret (payloadTooLarge file) ∧ ¬ performs isExifrParse upload)
  ∧ (performs isExifrParse upload →
     typeAllowed file = true
     ∧ (file_size file ≤ PhotosRoute.MAX_FILE_SIZE)%N).
Proof.
  intros Hs Hf upload. unfold upload. split; [|split].
  - intros Hty. rewrite (POST_bad_type env _ _ _ Hs Hf Hty).
    split; [done|]. split; [done|]. apply performs_Ret.
  - intros Hty Hsize. rewrite (POST_too_large env _ _ _ Hs Hf Hty Hsize).
    split; [done|]. apply performs_Ret.
  - intros Hp. destruct (typeAllowed file) eqn:Hty.
    + split; [done|].
      destruct (N.le_gt_cases (file_size file) PhotosRoute.MAX_FILE_SIZE)
        as [Hle|Hgt]; [done|].
      rewrite (POST_too_large env _ _ _ Hs Hf Hty Hgt) in Hp.
      by apply performs_Ret in Hp.
    + rewrite (POST_bad_type env _ _ _ Hs Hf Hty) in Hp.
      by apply performs_Ret in Hp.
Qed.

Lemma C3_witness :
  PhotosRoute.POST ollama_env (upload_of alice big_png)
  = Ret (invalidMediaType big_png)
  ∧ status (invalidMediaType big_png) = 400%N
  ∧ ¬ performs isExifrParse (PhotosRoute.POST ollama_env (upload_of alice big_png)).
Proof.
  destruct (C3_checks_in_order ollama_env (upload_of alice big_png) alice
              big_png eq_refl eq_refl) as [Htype _].
  apply Htype. reflexivity.
Defined.

(** The size printed in the message, on three sizes. *)
Example sizeMB_examples :
  PhotosRoute.sizeMB (10 * 1024 * 1024 + 1) = js "10.00"
  ∧ PhotosRoute.sizeMB (11 * 1024 * 1024) = js "11.00"
  ∧ PhotosRoute.sizeMB 15938355 = js "15.20".
Proof. repeat split; reflexivity. Qed.

(** C6, as stated, fails: a file over the ceiling whose content type is
    not allowed is answered with the invalid-type error, not with the
    size error, because the type is checked first. *)
Lemma C6_large_file_of_wrong_type :
  (PhotosRoute.MAX_FILE_SIZE < file_size big_png)%N
  ∧ PhotosRoute.POST ollama_env (upload_of alice big_png)
    = Ret (json (BodyError (js "Invalid file type. Only JPEG/JPG images are allowed. Received: image/png")) 400)
  ∧ PhotosRoute.POST ollama_env (upload_of alice big_png)
    ≠ Ret (payloadTooLarge big_png).
Proof. split; [reflexivity|]. split; [reflexivity|]. vm_compute. discriminate. Qed.

(** C6, amended: an upload of an allowed JPEG content type whose size
    exceeds 10 * 1024 * 1024 bytes is answered with status 400 and the
    size error, whose message holds the size in MiB with two decimals;
    the answer is given without any call, so it is the same whatever the
    EXIF parser would have found and it leaves the world as it was.  An
    upload of exactly 10 * 1024 * 1024 bytes passes the size check: the
    handler goes on to parse its bytes. *)
Theorem C6_size_ceiling (env : ProcessEnv) (request : Request)
    (user : User) (file : File) :
  session request = Some user →
  formData_file request = Some file →
  typeAllowed file = true →
  ((file_size file > 10 * 1024 * 1024)%N →
     PhotosRoute.POST env request
     = Ret (json (BodyError (js "File size (" ++ PhotosRoute.sizeMB (file_size file)
                             ++ js "MB) exceeds the 10MB limit. Please upload a smaller image.")) 400)
     ∧ ∀ out w, run out (PhotosRoute.POST env request) w
                = (Fulfilled (payloadTooLarge file), w, []))
  ∧ (file_size file = (10 * 1024 * 1024)%N →
     ∃ k, PhotosRoute.POST env request = Call (ExifrParse (file_bytes file)) k).
Proof.
  intros Hs Hf Hty. split.
  - intros Hsize. apply N.gt_lt in Hsize.
    rewrite (POST_too_large env _ _ _ Hs Hf Hty Hsize). done.
  - intros Hsize. apply (POST_parses env _ _ _ Hs Hf Hty).
    rewrite Hsize. reflexivity.
Qed.

Lemma C6_witness :
  (PhotosRoute.POST ollama_env (upload_of alice big_jpeg)
   = Ret (json (BodyError (js "File size (" ++ PhotosRoute.sizeMB (file_size big_jpeg)
                           ++ js "MB) exceeds the 10MB limit. Please upload a smaller image.")) 400)
   ∧ ∀ out w, run out (PhotosRoute.POST ollama_env (upload_of alice big_jpeg)) w
              = (Fulfilled (payloadTooLarge big_jpeg), w, []))
  ∧ ∃ k, PhotosRoute.POST ollama_env (upload_of alice full_jpeg)
         = Call (ExifrParse (file_bytes full_jpeg)) k.
Proof.
  split.
  - apply (C6_size_ceiling ollama_env (upload_of alice big_jpeg) alice
             big_jpeg eq_refl eq_refl eq_refl).
    reflexivity.
  - apply (C6_size_ceiling ollama_env (upload_of alice full_jpeg) alice
             full_jpeg eq_refl eq_refl eq_refl).
    reflexivity.
Defined.

(* ===================================================================== *)
(** * The selection of the candidate coordinates *)
(* ===================================================================== *)

(** [0 || undefined] is [undefined]: a coordinate that is zero does not
    survive the selection when the raw field is absent. *)
Lemma js_or_zero (x : number) :
  is_zero x = true → js_or (Num x) Undefined = Undefined.
Proof. intros Hx. unfold js_or, truthy. by rewrite Hx. Qed.

Lemma js_or_nonzero (x : number) (v : GpsField) :
  is_zero x = false → is_nan x = false → js_or (Num x) v = Num x.
Proof. intros Hx Hn. unfold js_or, truthy. by rewrite Hx, Hn. Qed.

(** What the handler does once the parser has answered. *)
Lemma POST_after_parse (out : Outside) (env : ProcessEnv) (request : Request)
    (user : User) (file : File) (exifData : option ExifData) (w : World) :
  session request = Some user →
  formData_file request = Some file →
  typeAllowed file = true →
  (file_size file ≤ PhotosRoute.MAX_FILE_SIZE)%N →
  exifr_parse out (file_bytes file) = Fulfilled exifData →
  normalizeGps (js_or (optionalChain exifData latitude)
                      (optionalChain exifData GPSLatitude)) = None
  ∨ normalizeGps (js_or (optionalChain exifData longitude)
                        (optionalChain exifData GPSLongitude)) = None →
  run out (PhotosRoute.POST env request) w = (Fulfilled missingLocation, w, []).
Proof.
  unfold typeAllowed, PhotosRoute.POST, requireAuth, mbind, Prog_bind.
  intros Hs Hf Hty Hsize Hexif Hnone. apply N.ltb_ge in Hsize.
  rewrite Hs. simpl. rewrite Hf, Hty, Hsize. simpl. rewrite Hexif. simpl.
  destruct Hnone as [Hlat|Hlng].
  - rewrite Hlat. reflexivity.
  - rewrite Hlng.
    by destruct (normalizeGps (js_or (optionalChain exifData latitude)
                                     (optionalChain exifData GPSLatitude))).
Qed.

(** C10: in an upload that passes the type and size checks, a decimal
    latitude (or longitude) that is zero, with the raw [GPSLatitude] (or
    [GPSLongitude]) field absent, is dropped by the [||] that selects the
    candidate, and the upload is answered with the missing-location error;
    nothing is stored. *)
Theorem C10_zero_coordinate_is_discarded (out : Outside) (env : ProcessEnv)
    (request : Request) (user : User) (file : File) (exifData : ExifData)
    (w : World) :
  session request = Some user →
  formData_file request = Some file →
  typeAllowed file = true →
  (file_size file ≤ PhotosRoute.MAX_FILE_SIZE)%N →
  exifr_parse out (file_bytes file) = Fulfilled (Some exifData) →
  (∃ x, latitude exifData = Num x ∧ is_zero x = true
        ∧ GPSLatitude exifData = Undefined)
  ∨ (∃ y, longitude exifData = Num y ∧ is_zero y = true
          ∧ GPSLongitude exifData = Undefined) →
  run out (PhotosRoute.POST env request) w = (Fulfilled missingLocation, w, [])
  ∧ status missingLocation = 400%N.
Proof.
  intros Hs Hf Hty Hsize Hexif Hzero. split; [|reflexivity].
  apply (POST_after_parse out env request user file (Some exifData) w);
    try done.
  simpl. destruct Hzero as [(x & -> & Hx & ->)|(y & -> & Hy & ->)].
  - left. by rewrite js_or_zero.
  - right. by rewrite js_or_zero.
Qed.

Lemma C10_witness :
  run (outside_with equator) (PhotosRoute.POST ollama_env (upload_of alice small_jpeg))
      (world initial)
  = (Fulfilled missingLocation, world initial, [])
  ∧ status missingLocation = 400%N.
Proof.
  apply (C10_zero_coordinate_is_discarded (outside_with equator) ollama_env
           (upload_of alice small_jpeg) alice small_jpeg equator (world initial)
           eq_refl eq_refl eq_refl).
  - vm_compute. discriminate.
  - reflexivity.
  - left. exists 0%float. repeat split; reflexivity.
Defined.

(* ===================================================================== *)
(** * Adding a comment *)
(* ===================================================================== *)

Lemma trim_empty : trim [] = [].
Proof. reflexivity. Qed.

Section add_comment.
Context (out : Outside) (env : ProcessEnv) (w : World) (request : Request)
  (user : User) (p : Photo) (fields : list (jsstring * Json)) (s : jsstring).
Hypothesis Hsession : session request = Some user.
Hypothesis Hid : params_id request ≠ [].
Hypothesis Hphoto : photos w !! params_id request = Some p.
Hypothesis Hkey : photo_id p = params_id request.
Hypothesis Hbody : json_body request = Some (JObject fields).
Hypothesis Hcontent : CommentsRoute.lookupField fields (js "content") = Some (JString s).

Lemma POST_comment_run :
  run out (CommentsRoute.POST env request) w =
    match s with
    | [] =>
        (Fulfilled (json (BodyError (js "Comment content is required and must be a string. Please provide a valid comment.")) 400), w, [])
    | _ :: _ =>
        if bool_decide (length (trim s) = 0%nat) then
          (Fulfilled (json (BodyError (js "Comment cannot be empty. Please enter some text.")) 400), w, [])
        else if (500 <? length (trim s))%nat then
          (Fulfilled (json (BodyError (js "Comment is too long ("
                                       ++ decimal (N.of_nat (length (trim s)))
                                       ++ js " characters). Maximum length is 500 characters.")) 400), w, [])
        else
          (Fulfilled (json (BodyComment (created_comment out w request user s)) 201),
           {| photos := photos w;
              comments := comments w ++ [created_comment out w request user s];
              files := files w; dirs := dirs w; tick := S (tick w) |}, [])
    end.
Proof using Hsession Hid Hphoto Hkey Hbody Hcontent.
  unfold CommentsRoute.POST, CommentsRoute.verifyPhotoExists, requireAuth,
    CommentsRoute.request_json, CommentsRoute.destructure_content,
    mbind, Prog_bind, created_comment.
  rewrite Hsession. simpl. unfold findFirst. rewrite Hphoto. simpl.
  rewrite Hkey. rewrite bool_decide_eq_false_2 by done. simpl.
  rewrite Hbody. simpl. rewrite Hcontent.
  destruct s as [|u s']; [reflexivity|]. simpl.
  case_bool_decide; [reflexivity|].
  destruct (500 <? length (trim (u :: s')))%nat; [reflexivity|].
  simpl. rewrite Hphoto. reflexivity.
Qed.

End add_comment.

(** C7: for an add-comment request of a signed-in user on an existing
    photo whose body carries a string as [content], a trimmed content of
    length 0 or of more than 500 code units is answered with status 400
    and nothing is stored; a trimmed content of 1 to 500 code units (so
    exactly 500 as well) is answered with status 201 and the comment,
    holding the trimmed content, is appended to the photo's comments. *)
Theorem C7_comment_length (out : Outside) (env : ProcessEnv) (w : World)
    (request : Request) (user : User) (p : Photo)
    (fields : list (jsstring * Json)) (s : jsstring) :
  session request = Some user →
  params_id request ≠ [] →
  photos w !! params_id request = Some p →
  photo_id p = params_id request →
  json_body request = Some (JObject fields) →
  CommentsRoute.lookupField fields (js "content") = Some (JString s) →
  (length (trim s) = 0 ∨ 500 < length (trim s) →
     ∃ message,
       run out (CommentsRoute.POST env request) w
       = (Fulfilled (json (BodyError message) 400), w, []))
  ∧ (1 ≤ length (trim s) ≤ 500 →
     ∃ c,
       run out (CommentsRoute.POST env request) w
       = (Fulfilled (json (BodyComment c) 201),
          {| photos := photos w; comments := comments w ++ [c];
             files := files w; dirs := dirs w; tick := S (tick w) |}, [])
       ∧ photoId c = params_id request
       ∧ authorId c = user_id user
       ∧ content c = trim s).
Proof.
  intros Hs Hid Hp Hkey Hb Hc.
  rewrite (POST_comment_run out env w request user p fields s Hs Hid Hp Hkey Hb Hc).
  split.
  - intros Hlen. destruct s as [|u s']; [by eexists|].
    case_bool_decide; [by eexists|].
    destruct (Nat.ltb_spec 500 (length (trim (u :: s')))); [by eexists|lia].
  - intros [Hlo Hhi]. destruct s as [|u s'].
    + rewrite trim_empty in Hlo. simpl in Hlo. lia.
    + rewrite bool_decide_eq_false_2 by lia.
      destruct (Nat.ltb_spec 500 (length (trim (u :: s')))); [lia|].
      eexists. split; [reflexivity|]. done.
Qed.

Lemma C7_witness :
  ∃ c,
    run (outside_with paris)
      (CommentsRoute.POST ollama_env
         (request_on bob (js "c1") (comment_body letters500))) world1
    = (Fulfilled (json (BodyComment c) 201),
       {| photos := photos world1; comments := comments world1 ++ [c];
          files := files world1; dirs := dirs world1;
          tick := S (tick world1) |}, [])
    ∧ photoId c = js "c1"
    ∧ authorId c = user_id bob
    ∧ content c = trim letters500.
Proof.
  apply (C7_comment_length (outside_with paris) ollama_env world1
           (request_on bob (js "c1") (comment_body letters500)) bob photo1
           [(js "content", JString letters500)] letters500).
  - reflexivity.
  - vm_compute. discriminate.
  - reflexivity.
  - reflexivity.
  - reflexivity.
  - reflexivity.
  - vm_compute. split; lia.
Defined.

(** A comment of 501 letters is refused and the message counts them. *)
Example comment_501 :
  run (outside_with paris)
    (CommentsRoute.POST ollama_env
       (request_on bob (js "c1") (comment_body (repeat 97%N 501)))) world1
  = (Fulfilled (json (BodyError (js "Comment is too long (501 characters). Maximum length is 500 characters.")) 400),
     world1, []).
Proof. vm_compute. reflexivity. Qed.

(* ===================================================================== *)
(** * The ownership gate of delete and regenerate *)
(* ===================================================================== *)

Lemma findFirst_owner (w : World) (request : Request) (user : User) :
  (∃ p, findFirst w (params_id request) (Some (user_id user)) = Some p
        ∧ photos w !! params_id request = Some p
        ∧ ownerId p = user_id user)
  ∨ (findFirst w (params_id request) (Some (user_id user)) = None
     ∧ ¬ owned w request user).
Proof.
  unfold findFirst, owned.
  destruct (photos w !! params_id request) as [p|] eqn:Hp.
  - case_bool_decide as Ho.
    + left. by exists p.
    + right. split; [done|]. intros (q & Hq & Hoq). congruence.
  - right. split; [done|]. intros (q & Hq & _). congruence.
Qed.

Lemma DELETE_not_owned (out : Outside) (env : ProcessEnv) (w : World)
    (request : Request) (user : User) :
  session request = Some user →
  findFirst w (params_id request) (Some (user_id user)) = None →
  run out (PhotoRoute.DELETE env request) w = (Fulfilled notFound, w, []).
Proof.
  unfold PhotoRoute.DELETE, requireAuth, mbind, Prog_bind.
  intros Hs Hf. rewrite Hs. simpl. rewrite Hf. reflexivity.
Qed.

Lemma regenerate_not_owned (out : Outside) (env : ProcessEnv) (w : World)
    (request : Request) (user : User) :
  session request = Some user →
  findFirst w (params_id request) (Some (user_id user)) = None →
  run out (RegenerateRoute.POST env request) w = (Fulfilled notFound, w, []).
Proof.
  unfold RegenerateRoute.POST, requireAuth, mbind, Prog_bind.
  intros Hs Hf. rewrite Hs. simpl. rewrite Hf. reflexivity.
Qed.

(** The owner's delete removes the row, its comments and, when it is
    there, the file. *)
Lemma DELETE_owner (out : Outside) (env : ProcessEnv) (w : World)
    (request : Request) (user : User) (p : Photo) :
  session request = Some user →
  photos w !! params_id request = Some p →
  ownerId p = user_id user →
  run out (PhotoRoute.DELETE env request) w
  = (Fulfilled (json (BodyMessage (js "Photo deleted successfully")) 200),
     {| photos := delete (params_id request) (photos w);
        comments := filter (λ c, photoId c ≠ params_id request) (comments w);
        files := delete (join [cwd env; js "public"; url p]) (files w);
        dirs := dirs w; tick := tick w |}, []).
Proof.
  unfold PhotoRoute.DELETE, requireAuth, mbind, Prog_bind.
  intros Hs Hp Ho. rewrite Hs. simpl. unfold findFirst. rewrite Hp.
  rewrite bool_decide_eq_true_2 by done. simpl.
  destruct (files w !! join [cwd env; js "public"; url p]) eqn:Hfile; simpl;
    rewrite Hp; simpl; [reflexivity|].
  by rewrite (delete_id _ _ Hfile).
Qed.

(** C4: for a signed-in caller, Delete and Regenerate answer with
    success (status 200) only if a photo is stored under the requested id
    and its owner is the caller; in every other case, whether the id is
    unknown or the photo is somebody else's, both answer with the same
    404 [Photo not found], and the world (the photo rows, the files, the
    comments) is as it was. *)
Theorem C4_owner_gate (out : Outside) (env : ProcessEnv) (w : World)
    (request : Request) (user : User) :
  session request = Some user →
  ((∀ response w' started,
      run out (PhotoRoute.DELETE env request) w = (Fulfilled response, w', started) →
      status response = 200%N → owned w request user)
   ∧ (¬ owned w request user →
      run out (PhotoRoute.DELETE env request) w = (Fulfilled notFound, w, [])))
  ∧ ((∀ response w' started,
        run out (RegenerateRoute.POST env request) w = (Fulfilled response, w', started) →
        status response = 200%N → owned w request user)
     ∧ (¬ owned w request user →
        run out (RegenerateRoute.POST env request) w = (Fulfilled notFound, w, []))).
Proof.
  intros Hs.
  destruct (findFirst_owner w request user) as [(p & _ & Hp & Ho)|[Hf Hn]].
  - assert (owned w request user) by (by exists p).
    repeat split; done.
  - rewrite (DELETE_not_owned out env w request user Hs Hf).
    rewrite (regenerate_not_owned out env w request user Hs Hf).
    repeat split; try done;
      intros response w' started [= <- _ _] Hst; discriminate Hst.
Qed.

Lemma C4_witness :
  run (outside_with paris) (PhotoRoute.DELETE ollama_env (request_on bob (js "c1") None)) world1
  = (Fulfilled notFound, world1, [])
  ∧ run (outside_with paris) (RegenerateRoute.POST ollama_env (request_on bob (js "c1") None)) world1
    = (Fulfilled notFound, world1, []).
Proof.
  destruct (C4_owner_gate (outside_with paris) ollama_env world1
              (request_on bob (js "c1") None) bob eq_refl)
    as [[_ Hdelete] [_ Hregenerate]].
  assert (Hn : ¬ owned world1 (request_on bob (js "c1") None) bob).
  { intros (p & Hp & Ho). vm_compute in Hp. injection Hp as <-.
    vm_compute in Ho. discriminate Ho. }
  split; [apply Hdelete, Hn | apply Hregenerate, Hn].
Defined.

(** The same request for an id that is not stored gets the same answer. *)
Example unknown_id_not_found :
  run (outside_with paris) (PhotoRoute.DELETE ollama_env (request_on bob (js "zz") None)) world1
  = (Fulfilled notFound, world1, [])
  ∧ run (outside_with paris) (RegenerateRoute.POST ollama_env (request_on bob (js "zz") None)) world1
    = (Fulfilled notFound, world1, []).
Proof. split; reflexivity. Qed.

(* ===================================================================== *)
(** * Regeneration and the enrichment it starts *)
(* ===================================================================== *)

Lemma rethrow_throws (baseUrl imageUrlOrPath : jsstring) (error : exn) :
  ∃ e, Ollama.rethrow baseUrl imageUrlOrPath error = Throw e.
Proof.
  unfold Ollama.rethrow. destruct error as [message|message|];
    repeat match goal with
           | |- context [if ?b then _ else _] => destruct b
           end; by eexists.
Qed.

(** A provider's call ends, starts no promise, and leaves the record
    store and the files as they are. *)
Lemma describeImage_run (out : Outside) (env : ProcessEnv)
    (provider : VisionProvider) (imageUrlOrPath : jsstring) (w : World) :
  ∃ o w',
    run out (describeImage env provider imageUrlOrPath) w = (o, w', [])
    ∧ photos w' = photos w ∧ comments w' = comments w ∧ files w' = files w.
Proof.
  destruct provider as [|baseUrl model]; simpl.
  - by eexists _, _.
  - destruct (confined imageUrlOrPath) eqn:Hc.
    + rewrite (describeImage_confined env baseUrl model _ Hc).
      rewrite run_try_catch, run_bind, run_await.
      set (path := join _). simpl.
      destruct (files w !! path) as [data|].
      * destruct (ollama_chat out (tick w) data) as [d|e]; simpl.
        -- by eexists _, _.
        -- destruct (rethrow_throws baseUrl imageUrlOrPath e) as [e' ->].
           by eexists _, _.
      * match goal with
        | |- context [Ollama.rethrow ?b ?i ?e] =>
            destruct (rethrow_throws b i e) as [e' ->]
        end.
        by eexists _, _.
    + destruct (describeImage_unconfined env baseUrl model _ Hc) as [m ->].
      by eexists _, _.
Qed.


(** The order of the handler's calls, whatever the record store answers:
    the owner's photo is looked up, the reset is written, and only when
    that write is acknowledged is the enrichment started, with the
    PENDING answer returned in the same step.  No other path starts a
    promise. *)
Lemma regenerate_program_order (env : ProcessEnv) (request : Request)
    (user : User) :
  session request = Some user →
  ∃ k,
    RegenerateRoute.POST env request
    = Call (DbPhotoFindFirst (params_id request) (Some (user_id user))) k
    ∧ (∀ photo, ∃ k',
         k (Fulfilled (Some photo))
         = Call (DbPhotoUpdate (params_id request) RegenerateRoute.reset_data) k'
         ∧ k' (Fulfilled ())
           = Fork (RegenerateRoute.enrichment env (getVisionProvider env)
                     (params_id request) (url photo))
               (Ret (json (BodyRegenerate (js "AI description regeneration started")
                             PENDING) 200))
         ∧ ∀ e, ∃ r, k' (Rejected e) = Ret r)
    ∧ (∃ r, k (Fulfilled None) = Ret r)
    ∧ (∀ e, ∃ r, k (Rejected e) = Ret r).
Proof.
  unfold RegenerateRoute.POST, requireAuth, mbind, Prog_bind.
  intros ->. simpl. eexists. split; [reflexivity|]. simpl.
  split; [|split].
  - intros photo. eexists. split; [reflexivity|]. simpl.
    split; [reflexivity|].
    intros e. unfold onError. destruct (isUnauthorized e); by eexists.
  - by eexists.
  - intros e. unfold onError. destruct (isUnauthorized e); by eexists.
Qed.



(* ===================================================================== *)
(** * Every handler makes only the three writes *)
(* ===================================================================== *)

Lemma tame_bind {A B : Type} (p : Prog A) (f : A → Prog B) :
  tame p → (∀ a, tame (f a)) → tame (p ≫= f).
Proof.
  unfold mbind, Prog_bind. intros Hp. revert B f.
  induction Hp as [A a|A e|A X op k Hop _ IH|A child k Hc _ _ IH];
    intros B f Hf; simpl.
  - apply Hf.
  - constructor.
  - constructor; [done|]. intros o. by apply IH.
  - constructor; [done|]. by apply IH.
Qed.

Lemma tame_try_catch {A : Type} (p : Prog A) (h : exn → Prog A) :
  tame p → (∀ e, tame (h e)) → tame (try_catch p h).
Proof.
  intros Hp. revert h.
  induction Hp as [A a|A e|A X op k Hop _ IH|A child k Hc _ _ IH];
    intros h Hh; simpl.
  - constructor.
  - apply Hh.
  - constructor; [done|]. intros o. by apply IH.
  - constructor; [done|]. by apply IH.
Qed.

Lemma tame_await {X : Type} (op : Eff X) : tame_op op → tame (await op).
Proof. intros H. constructor; [done|]. intros [x|e]; constructor. Qed.

Lemma tame_requireAuth (request : Request) : tame (requireAuth request).
Proof. unfold requireAuth. destruct (session request); constructor. Qed.

Lemma tame_onError (error : exn) : tame (onError error).
Proof. unfold onError. destruct (isUnauthorized error); constructor. Qed.

Lemma tame_describeImage (env : ProcessEnv) (provider : VisionProvider)
    (imageUrlOrPath : jsstring) :
  tame (describeImage env provider imageUrlOrPath).
Proof.
  destruct provider as [|baseUrl model]; simpl.
  - unfold Mock.describeImage. apply tame_bind; [by apply tame_await|].
    intros _. constructor.
  - unfold Ollama.describeImage. apply tame_try_catch.
    + repeat match goal with
             | |- tame (if ?b then _ else _) => destruct b
             end; try apply tame_Throw.
      apply tame_bind; [by apply tame_await|].
      intros data. by apply tame_await.
    + intros e. destruct (rethrow_throws baseUrl imageUrlOrPath e) as [e' ->].
      constructor.
Qed.

Lemma tame_enrichment (env : ProcessEnv) (provider : VisionProvider)
    (photoId imageUrl : jsstring) :
  tame (RegenerateRoute.enrichment env provider photoId imageUrl).
Proof.
  unfold RegenerateRoute.enrichment. apply tame_try_catch.
  - apply tame_bind; [apply tame_describeImage|].
    intros d. apply tame_await. simpl. eauto.
  - intros e. apply tame_await. simpl. eauto.
Qed.

Lemma tame_generateAIDescription (env : ProcessEnv) (photoId imageUrl : jsstring) :
  tame (PhotosRoute.generateAIDescription env photoId imageUrl).
Proof. apply tame_enrichment. Qed.

Lemma tame_handler (env : ProcessEnv) (route : Route) (request : Request) :
  tame (handler env route request).
Proof.
  destruct route; simpl.
  - unfold PhotosRoute.POST.
    apply tame_try_catch; [|apply tame_onError].
    apply tame_bind; [apply tame_requireAuth|]. intros user.
    destruct (formData_file request) as [file|]; [|constructor].
    repeat match goal with
           | |- tame (if ?b then _ else _) => destruct b
           end; try apply tame_Ret.
    apply tame_bind; [by apply tame_await|]. intros exifData.
    repeat match goal with
           | |- tame (match ?x with _ => _ end) => destruct x
           end; try apply tame_Ret.
    apply tame_bind; [by apply tame_await|]. intros id.
    apply tame_bind; [by apply tame_await|]. intros found.
    apply tame_bind.
    { destruct found; [constructor | by apply tame_await]. }
    intros _. apply tame_bind; [by apply tame_await|]. intros _.
    apply tame_bind; [by apply tame_await|]. intros photo.
    constructor; [|constructor].
    apply tame_try_catch; [apply tame_generateAIDescription|].
    intros _. constructor.
  - unfold PhotoRoute.DELETE.
    apply tame_try_catch; [|apply tame_onError].
    apply tame_bind; [apply tame_requireAuth|]. intros user.
    apply tame_bind; [by apply tame_await|]. intros [photo|]; [|constructor].
    apply tame_bind.
    { apply tame_try_catch; [by apply tame_await|]. intros _. constructor. }
    intros _. apply tame_bind; [by apply tame_await|]. intros _. constructor.
  - unfold CommentsRoute.POST.
    apply tame_try_catch.
    2:{ intros e. unfold CommentsRoute.onError.
        destruct (isUnauthorized e); [constructor|]. destruct e; constructor. }
    apply tame_bind; [apply tame_requireAuth|]. intros user.
    apply tame_bind.
    { unfold CommentsRoute.verifyPhotoExists.
      apply tame_bind; [by apply tame_await|]. intros photo. constructor. }
    intros [photo|]; [|constructor].
    apply tame_bind.
    { unfold CommentsRoute.request_json.
      destruct (json_body request); constructor. }
    intros b. apply tame_bind.
    { unfold CommentsRoute.destructure_content. destruct b; constructor. }
    intros c.
    repeat match goal with
           | |- tame (match ?x with _ => _ end) => destruct x
           end; try apply tame_Ret.
    apply tame_bind; [by apply tame_await|]. intros comment. constructor.
  - unfold RegenerateRoute.POST.
    apply tame_try_catch; [|apply tame_onError].
    apply tame_bind; [apply tame_requireAuth|]. intros user.
    apply tame_bind; [by apply tame_await|]. intros [photo|]; [|constructor].
    apply tame_bind; [apply tame_await; simpl; eauto|]. intros _.
    constructor; [apply tame_enrichment | constructor].
Qed.

(* ===================================================================== *)
(** * The three writes keep every stored photo consistent *)
(* ===================================================================== *)

Lemma consistent_update (data : PhotoUpdateData) (p : Photo) :
  tame_op (DbPhotoUpdate (photo_id p) data) →
  consistent p → consistent (applyUpdate data p).
Proof.
  intros [->|[[d ->]|[e ->]]] Hp; unfold consistent; simpl; eauto.
Qed.

Lemma exec_consistent {X : Type} (out : Outside) (op : Eff X) (w : World) :
  tame_op op →
  map_Forall (λ _ p, consistent p) (photos w) →
  map_Forall (λ _ p, consistent p) (photos (exec out op w).2).
Proof.
  intros Hop Hw. destruct op; simpl; try done.
  - simpl in Hop. subst.
    destruct (photos w !! cuid out (tick w)); simpl; [done|].
    apply map_Forall_insert_2; [|done]. by unfold consistent.
  - destruct (photos w !! where_id) as [p|] eqn:Hp; simpl; [|done].
    apply map_Forall_insert_2; [|done].
    apply consistent_update; [exact Hop|]. by apply (Hw where_id).
  - destruct (photos w !! where_id); simpl; [|done].
    by apply map_Forall_delete.
  - by destruct (photos w !! data_photoId).
  - by destruct (files w !! path).
  - by destruct (files w !! path).
Qed.

Lemma run_invariant {R : Type} (out : Outside) (p : Prog R) (w : World) :
  tame p →
  map_Forall (λ _ q, consistent q) (photos w) →
  map_Forall (λ _ q, consistent q) (photos (run out p w).1.2)
  ∧ Forall (λ c, tame c) (run out p w).2.
Proof.
  intros Hp. revert w.
  induction Hp as [A a|A e|A X op k Hop _ IH|A child k Hc _ _ IH];
    intros w Hw; simpl.
  - done.
  - done.
  - destruct (exec out op w) as [o w'] eqn:He.
    apply IH. change w' with (o, w').2. rewrite <- He.
    by apply exec_consistent.
  - specialize (IH w Hw).
    destruct (run out k w) as [[o w'] started]. simpl in *.
    split; [apply IH|]. constructor; [done|apply IH].
Qed.

Lemma act_invariant (out : Outside) (env : ProcessEnv) (a : Action)
    (s : System) :
  invariant s → invariant (act out env a s).
Proof.
  intros [Hw Hp]. destruct a as [route request|i]; simpl.
  - pose proof (run_invariant out (handler env route request) (world s)
                  (tame_handler env route request) Hw) as [Hw' Hs].
    destruct (run out (handler env route request) (world s))
      as [[o w'] started]. simpl in *.
    split; [done|]. simpl. by apply Forall_app.
  - destruct (pending s !! i) as [p|] eqn:Hi; [|done].
    assert (tame p) as Htame by (by eapply Forall_lookup_1).
    pose proof (run_invariant out p (world s) Htame Hw) as [Hw' Hs].
    destruct (run out p (world s)) as [[o w'] started]. simpl in *.
    split; [done|]. simpl. apply Forall_app. split; [|done].
    by apply Forall_delete.
Qed.

Lemma acts_invariant (out : Outside) (env : ProcessEnv) (l : list Action)
    (s : System) :
  invariant s → invariant (acts out env l s).
Proof.
  unfold acts. revert s. induction l as [|a l IH]; intros s Hs; simpl.
  - done.
  - apply IH. by apply act_invariant.
Qed.

Lemma initial_invariant : invariant initial.
Proof. split; [apply map_Forall_empty | constructor]. Qed.

(** In every reachable state every stored photo is consistent: an error
    is present only with ERROR, PENDING has neither field, and DONE has
    a description and no error. *)
Theorem reachable_consistent (out : Outside) (env : ProcessEnv) (s : System)
    (id : jsstring) (p : Photo) :
  reachable out env s →
  photos (world s) !! id = Some p →
  consistent p
  ∧ (is_Some (aiError p) → aiStatus p = ERROR)
  ∧ (aiStatus p = PENDING → aiDescription p = None ∧ aiError p = None)
  ∧ (aiStatus p = DONE → is_Some (aiDescription p) ∧ aiError p = None).
Proof.
  intros [l ->] Hp.
  destruct (acts_invariant out env l initial initial_invariant) as [Hw _].
  assert (Hc : consistent p) by (by apply (Hw id)).
  split; [done|]. unfold consistent in Hc.
  destruct (aiStatus p); destruct Hc as [Hd He] || (pose proof Hc as He);
    repeat split; try done; rewrite ?He; by intros [? ?].
Qed.

Lemma reachable_consistent_witness :
  consistent photo1
  ∧ (is_Some (aiError photo1) → aiStatus photo1 = ERROR)
  ∧ (aiStatus photo1 = PENDING → aiDescription photo1 = None ∧ aiError photo1 = None)
  ∧ (aiStatus photo1 = DONE → is_Some (aiDescription photo1) ∧ aiError photo1 = None).
Proof.
  apply (reachable_consistent (outside_with paris) ollama_env
           (acts (outside_with paris) ollama_env
              [Serve Upload (upload_of alice small_jpeg); Settle 0] initial)
           (js "c1") photo1).
  - by eexists.
  - vm_compute. reflexivity.
Defined.

(* ===================================================================== *)
(** * The enrichment state of a photo *)
(* ===================================================================== *)

(** The success write clears the error. *)
Lemma done_write (description : jsstring) (p : Photo) :
  let q := applyUpdate (PhotosRoute.done_data description) p in
  aiStatus q = DONE ∧ aiDescription q = Some description ∧ aiError q = None.
Proof. done. Qed.

(** The failure write sets the error and leaves the description as it
    finds it: its [data] has no [aiDescription] key. *)
Lemma error_write (error : exn) (p : Photo) :
  let q := applyUpdate (PhotosRoute.error_data error) p in
  aiStatus q = ERROR
  ∧ aiDescription q = aiDescription p
  ∧ aiError q = Some (PhotosRoute.error_message error).
Proof. done. Qed.

(** An upload, then a regenerate request while the upload's enrichment
    is still pending, then the two enrichments settling in turn. *)
Example overlapping_enrichments_trace :
  let photo_after l :=
    p ← photos (world (acts (outside_with paris) ollama_env l initial)) !! js "c1";
    Some (aiStatus p, aiDescription p, aiError p) in
  let upload := Serve Upload (upload_of alice small_jpeg) in
  let regenerate := Serve Regenerate (request_on alice (js "c1") None) in
  photo_after [upload] = Some (PENDING, None, None)
  ∧ photo_after [upload; regenerate] = Some (PENDING, None, None)
  ∧ photo_after [upload; regenerate; Settle 0]
    = Some (DONE, Some (js "empty train tracks"), None)
  ∧ length (pending (acts (outside_with paris) ollama_env
                       [upload; regenerate; Settle 0] initial)) = 1.
Proof. vm_compute. done. Qed.

(** C1, on the code: after an upload, a regenerate request made while
    the upload's enrichment is pending, the success of the first
    enrichment and the failure of the second, the stored photo has
    status ERROR with both a description and an error. *)
Theorem C1_error_write_keeps_description :
  let s := acts (outside_with paris) ollama_env
             [Serve Upload (upload_of alice small_jpeg);
              Serve Regenerate (request_on alice (js "c1") None);
              Settle 0; Settle 0] initial in
  reachable (outside_with paris) ollama_env s
  ∧ ∃ p, photos (world s) !! js "c1" = Some p
         ∧ aiStatus p = ERROR
         ∧ aiDescription p = Some (js "empty train tracks")
         ∧ aiError p = Some (js "Cannot connect to Ollama at http://localhost:11434. Make sure Ollama is running.").
Proof.
  split; [by eexists|].
  eexists. split; [vm_compute; reflexivity|]. vm_compute. done.
Qed.

(* ===================================================================== *)
(** * Every request is answered *)
(* ===================================================================== *)

Lemma ends_weaken {R : Type} (throws : bool) (Q Q' : R → Prop) (p : Prog R) :
  (∀ r, Q r → Q' r) → ends throws Q p → ends true Q' p.
Proof.
  intros HQ Hp. induction Hp; constructor; auto.
Qed.

Lemma ends_bind {A B : Type} (QA : A → Prop) (QB : B → Prop)
    (p : Prog A) (f : A → Prog B) :
  ends true QA p → (∀ a, QA a → ends true QB (f a)) → ends true QB (p ≫= f).
Proof.
  unfold mbind, Prog_bind. intros Hp Hf.
  induction Hp as [a Ha|e _|X op k _ IH|child k _ IH]; simpl.
  - by apply Hf.
  - by constructor.
  - constructor. intros o. apply IH.
  - constructor. apply IH.
Qed.

Lemma ends_try_catch {A : Type} (throws : bool) (Q : A → Prop) (p : Prog A)
    (h : exn → Prog A) :
  ends true Q p → (∀ e, ends throws Q (h e)) → ends throws Q (try_catch p h).
Proof.
  intros Hp Hh.
  induction Hp as [a Ha|e _|X op k _ IH|child k _ IH]; simpl.
  - by constructor.
  - apply Hh.
  - constructor. intros o. apply IH.
  - constructor. apply IH.
Qed.

Lemma ends_await {X : Type} (op : Eff X) : ends true (λ _, True) (await op).
Proof. constructor. intros [x|e]; by constructor. Qed.

Lemma ends_requireAuth (request : Request) :
  ends true (λ _, True) (requireAuth request).
Proof. unfold requireAuth. destruct (session request); by constructor. Qed.

Lemma ends_run {R : Type} (Q : R → Prop) (out : Outside) (p : Prog R)
    (w : World) :
  ends false Q p →
  ∃ r w' started, run out p w = (Fulfilled r, w', started) ∧ Q r.
Proof.
  intros Hp. revert w.
  induction Hp as [r Hr|e He|X op k _ IH|child k _ IH]; intros w; simpl.
  - by eexists _, _, _.
  - done.
  - destruct (exec out op w) as [o w']. apply IH.
  - destruct (IH w) as (r & w' & started & -> & Hr). by eexists _, _, _.
Qed.

(** A tactic for the handlers: it walks a program along its binds,
    catches and case distinctions down to the values it returns. *)
Ltac walk :=
  repeat first
    [ progress intros
    | apply ends_requireAuth
    | apply ends_await
    | apply ends_Ret
    | apply ends_Throw; reflexivity
    | apply ends_Fork
    | eapply (ends_bind (λ _, True))
    | apply ends_try_catch
    | match goal with
      | |- ends _ _ (if ?b then _ else _) => destruct b
      | |- ends _ _ (match ?x with _ => _ end) => destruct x
      end ].

Lemma ends_onError (route : Route) (error : exn) :
  ends false (λ r, status r ∈ statuses route) (onError error).
Proof.
  unfold onError. destruct (isUnauthorized error); constructor;
    destruct route; simpl; set_solver.
Qed.

Lemma handler_ends (env : ProcessEnv) (route : Route) (request : Request) :
  ends false (λ r, status r ∈ statuses route) (handler env route request).
Proof.
  destruct route; simpl.
  - unfold PhotosRoute.POST.
    apply ends_try_catch; [|apply (ends_onError Upload)].
    walk; first [exact I | simpl; set_solver].
  - unfold PhotoRoute.DELETE.
    apply ends_try_catch; [|apply (ends_onError Delete)].
    walk; first [exact I | simpl; set_solver].
  - unfold CommentsRoute.POST, CommentsRoute.verifyPhotoExists,
      CommentsRoute.request_json, CommentsRoute.destructure_content.
    apply ends_try_catch.
    2:{ intros e. unfold CommentsRoute.onError.
        destruct (isUnauthorized e); [|destruct e]; constructor;
          simpl; set_solver. }
    walk; first [exact I | simpl; set_solver].
  - unfold RegenerateRoute.POST.
    apply ends_try_catch; [|apply (ends_onError Regenerate)].
    walk; first [exact I | simpl; set_solver].
Qed.

(** No exception escapes a handler: every request, on every route, in
    every world and whatever the calls answer, gets a response, and its
    status is one of the route's: 201, 400, 401 or 500 for an upload,
    200, 404, 401 or 500 for delete and regenerate, and 201, 400, 404,
    401 or 500 for a comment. *)
Theorem every_request_is_answered (out : Outside) (env : ProcessEnv)
    (route : Route) (request : Request) (w : World) :
  ∃ response w' started,
    run out (handler env route request) w = (Fulfilled response, w', started)
    ∧ status response ∈ statuses route.
Proof. apply ends_run, handler_ends. Qed.

(** Without a session every route answers 401 [Unauthorized], changes
    nothing and starts nothing. *)
Theorem no_session_no_effect (out : Outside) (env : ProcessEnv)
    (route : Route) (request : Request) (w : World) :
  session request = None →
  run out (handler env route request) w = (Fulfilled unauthorized, w, []).
Proof.
  intros Hs.
  destruct route; simpl;
    unfold PhotosRoute.POST, PhotoRoute.DELETE, CommentsRoute.POST,
      RegenerateRoute.POST, requireAuth, mbind, Prog_bind;
    rewrite Hs; reflexivity.
Qed.

Lemma no_session_no_effect_witness :
  run (outside_with paris)
    (handler ollama_env Delete
       {| session := None; params_id := js "c1"; formData_file := None;
          json_body := None |}) world1
  = (Fulfilled unauthorized, world1, []).
Proof.
  apply (no_session_no_effect (outside_with paris) ollama_env Delete
           {| session := None; params_id := js "c1"; formData_file := None;
              json_body := None |} world1).
  reflexivity.
Defined.

(* ===================================================================== *)
(** * Uploads: what is stored, and when nothing is *)
(* ===================================================================== *)

(** The path an upload takes once its coordinates are found. *)
Lemma POST_stores (out : Outside) (env : ProcessEnv) (request : Request)
    (user : User) (file : File) (exifData : option ExifData)
    (latNumber lngNumber : number) (w : World) :
  session request = Some user →
  formData_file request = Some file →
  typeAllowed file = true →
  (file_size file ≤ PhotosRoute.MAX_FILE_SIZE)%N →
  exifr_parse out (file_bytes file) = Fulfilled exifData →
  selected_lat exifData = Some latNumber →
  selected_lng exifData = Some lngNumber →
  run out (PhotosRoute.POST env request) w =
    let saved := upload_saved env out w file in
    let photo := upload_photo out w user latNumber lngNumber in
    match photos w !! photo_id photo with
    | Some _ => (Fulfilled internalError, next_tick saved, [])
    | None =>
        (Fulfilled (json (BodyPhoto (photo_id photo) (url photo) latNumber
                            lngNumber (createdAt photo) PENDING None) 201),
         next_tick (with_photos saved (<[photo_id photo := photo]> (photos w))),
         [try_catch
            (PhotosRoute.generateAIDescription env (photo_id photo) (url photo))
            (λ _, Ret ())])
    end.
Proof.
  unfold typeAllowed, selected_lat, selected_lng, PhotosRoute.POST,
    requireAuth, mbind, Prog_bind.
  intros Hs Hf Hty Hsize Hexif Hlat Hlng. apply N.ltb_ge in Hsize.
  rewrite Hs. simpl. rewrite Hf, Hty, Hsize. simpl. rewrite Hexif. simpl.
  rewrite Hlat, Hlng. simpl.
  unfold upload_saved, upload_photo, upload_url, upload_path, upload_filename.
  set (uploadsDir := join [cwd env; js "public"; js "uploads"]).
  destruct (bool_decide (uploadsDir ∈ dirs w)
            || bool_decide (is_Some (files w !! uploadsDir))); simpl;
    destruct (photos w !! cuid out (S (tick w))); reflexivity.
Qed.

Lemma POST_parse_fails (out : Outside) (env : ProcessEnv) (request : Request)
    (user : User) (file : File) (e : exn) (w : World) :
  session request = Some user →
  formData_file request = Some file →
  typeAllowed file = true →
  (file_size file ≤ PhotosRoute.MAX_FILE_SIZE)%N →
  exifr_parse out (file_bytes file) = Rejected e →
  run out (PhotosRoute.POST env request) w
  = (Fulfilled (if isUnauthorized e then unauthorized else internalError), w, []).
Proof.
  unfold typeAllowed, PhotosRoute.POST, requireAuth, mbind, Prog_bind.
  intros Hs Hf Hty Hsize Hexif. apply N.ltb_ge in Hsize.
  rewrite Hs. simpl. rewrite Hf, Hty, Hsize. simpl. rewrite Hexif. simpl.
  unfold onError. by destruct (isUnauthorized e).
Qed.

(** An upload that is answered 400 or 401 leaves no trace: the world is
    as it was (no file, no record, no identifier drawn) and no
    enrichment is started.  This holds for every request, whatever the
    parser answers. *)
Theorem refused_upload_leaves_no_trace (out : Outside) (env : ProcessEnv)
    (request : Request) (w w' : World) (response : Response)
    (started : list (Prog unit)) :
  run out (PhotosRoute.POST env request) w = (Fulfilled response, w', started) →
  status response = 400%N ∨ status response = 401%N →
  w' = w ∧ started = [].
Proof.
  destruct (session request) as [user|] eqn:Hs.
  2:{ unfold PhotosRoute.POST, requireAuth, mbind, Prog_bind.
      rewrite Hs. simpl. by intros [= <- <- <-]. }
  destruct (formData_file request) as [file|] eqn:Hf.
  2:{ unfold PhotosRoute.POST, requireAuth, mbind, Prog_bind.
      rewrite Hs. simpl. rewrite Hf. by intros [= <- <- <-]. }
  destruct (typeAllowed file) eqn:Hty.
  2:{ rewrite (POST_bad_type env _ _ _ Hs Hf Hty). by intros [= <- <- <-]. }
  destruct (N.le_gt_cases (file_size file) PhotosRoute.MAX_FILE_SIZE)
    as [Hle|Hgt].
  2:{ rewrite (POST_too_large env _ _ _ Hs Hf Hty Hgt). by intros [= <- <- <-]. }
  destruct (exifr_parse out (file_bytes file)) as [exifData|e] eqn:Hexif.
  2:{ rewrite (POST_parse_fails out env _ _ _ e w Hs Hf Hty Hle Hexif).
      by intros [= <- <- <-]. }
  destruct (selected_lat exifData) as [latNumber|] eqn:Hlat.
  2:{ rewrite (POST_after_parse out env _ _ _ exifData w Hs Hf Hty Hle Hexif)
        by (by left).
      by intros [= <- <- <-]. }
  destruct (selected_lng exifData) as [lngNumber|] eqn:Hlng.
  2:{ rewrite (POST_after_parse out env _ _ _ exifData w Hs Hf Hty Hle Hexif)
        by (by right).
      by intros [= <- <- <-]. }
  rewrite (POST_stores out env _ _ _ exifData latNumber lngNumber w
             Hs Hf Hty Hle Hexif Hlat Hlng).
  simpl. destruct (photos w !! _); intros [= <- <- <-] [Hst|Hst];
    discriminate Hst.
Qed.

Lemma refused_upload_leaves_no_trace_witness :
  world1 = world1 ∧ @nil (Prog unit) = [].
Proof.
  apply (refused_upload_leaves_no_trace (outside_with equator) ollama_env
           (upload_of alice small_jpeg) world1 world1 missingLocation []).
  - vm_compute. reflexivity.
  - left. reflexivity.
Defined.

(** An upload of an allowed type and size whose EXIF data give both
    coordinates, in a world where the generated record id is free, is
    answered 201 with status PENDING and no description; the bytes are
    saved under the uploads directory, the record is created for the
    caller with the normalised coordinates and the reference
    [/uploads/<uuid>.jpg], and exactly one enrichment is started, for
    that record and that reference. *)
Theorem accepted_upload_is_stored (out : Outside) (env : ProcessEnv)
    (request : Request) (user : User) (file : File)
    (exifData : option ExifData) (latNumber lngNumber : number) (w : World) :
  session request = Some user →
  formData_file request = Some file →
  typeAllowed file = true →
  (file_size file ≤ PhotosRoute.MAX_FILE_SIZE)%N →
  exifr_parse out (file_bytes file) = Fulfilled exifData →
  selected_lat exifData = Some latNumber →
  selected_lng exifData = Some lngNumber →
  photos w !! cuid out (S (tick w)) = None →
  ∃ w' photo,
    run out (PhotosRoute.POST env request) w
    = (Fulfilled (json (BodyPhoto (photo_id photo) (url photo) latNumber
                          lngNumber (createdAt photo) PENDING None) 201),
       w',
       [try_catch
          (PhotosRoute.generateAIDescription env (photo_id photo) (url photo))
          (λ _, Ret ())])
    ∧ photo = upload_photo out w user latNumber lngNumber
    ∧ photos w' = <[photo_id photo := photo]> (photos w)
    ∧ files w' = <[upload_path env out w := file_bytes file]> (files w)
    ∧ comments w' = comments w
    ∧ ownerId photo = user_id user
    ∧ url photo = js "/uploads/" ++ uuid out (tick w) ++ js ".jpg"
    ∧ aiStatus photo = PENDING.
Proof.
  intros Hs Hf Hty Hle Hexif Hlat Hlng Hfresh.
  rewrite (POST_stores out env _ _ _ exifData latNumber lngNumber w
             Hs Hf Hty Hle Hexif Hlat Hlng).
  simpl. rewrite Hfresh.
  exists (next_tick
            (with_photos (upload_saved env out w file)
               (<[cuid out (S (tick w))
                  := upload_photo out w user latNumber lngNumber]> (photos w)))),
    (upload_photo out w user latNumber lngNumber).
  repeat split.
Qed.

Lemma accepted_upload_is_stored_witness :
  ∃ w' photo,
    run (outside_with paris) (PhotosRoute.POST ollama_env (upload_of bob small_jpeg)) world1
    = (Fulfilled (json (BodyPhoto (photo_id photo) (url photo) 48.5 2.25
                          (createdAt photo) PENDING None) 201),
       w',
       [try_catch
          (PhotosRoute.generateAIDescription ollama_env (photo_id photo) (url photo))
          (λ _, Ret ())])
    ∧ photo = upload_photo (outside_with paris) world1 bob 48.5 2.25
    ∧ photos w' = <[photo_id photo := photo]> (photos world1)
    ∧ files w' = <[upload_path ollama_env (outside_with paris) world1
                   := file_bytes small_jpeg]> (files world1)
    ∧ comments w' = comments world1
    ∧ ownerId photo = user_id bob
    ∧ url photo = js "/uploads/" ++ uuid (outside_with paris) (tick world1) ++ js ".jpg"
    ∧ aiStatus photo = PENDING.
Proof.
  apply (accepted_upload_is_stored (outside_with paris) ollama_env
           (upload_of bob small_jpeg) bob small_jpeg (Some paris) 48.5 2.25
           world1);
    try reflexivity.
  vm_compute. discriminate.
Defined.

(** The file is saved before the record is created and nothing removes
    it afterwards: when the creation is rejected (here: the generated id
    is taken), the upload is answered 500, no record is added and no
    enrichment is started, but the saved file stays. *)
Theorem failed_create_leaves_the_file (out : Outside) (env : ProcessEnv)
    (request : Request) (user : User) (file : File)
    (exifData : option ExifData) (latNumber lngNumber : number) (w : World) :
  session request = Some user →
  formData_file request = Some file →
  typeAllowed file = true →
  (file_size file ≤ PhotosRoute.MAX_FILE_SIZE)%N →
  exifr_parse out (file_bytes file) = Fulfilled exifData →
  selected_lat exifData = Some latNumber →
  selected_lng exifData = Some lngNumber →
  is_Some (photos w !! cuid out (S (tick w))) →
  ∃ w',
    run out (PhotosRoute.POST env request) w = (Fulfilled internalError, w', [])
    ∧ photos w' = photos w
    ∧ files w' !! upload_path env out w = Some (file_bytes file).
Proof.
  intros Hs Hf Hty Hle Hexif Hlat Hlng [taken Htaken].
  rewrite (POST_stores out env _ _ _ exifData latNumber lngNumber w
             Hs Hf Hty Hle Hexif Hlat Hlng).
  simpl. rewrite Htaken. eexists. split; [reflexivity|].
  split; [reflexivity|]. simpl. apply lookup_insert_eq.
Qed.

(* ===================================================================== *)
(** * Joining paths *)
(* ===================================================================== *)

Arguments N.eqb : simpl never.

Lemma splitSlash_app (a b cur : jsstring) :
  splitSlash (a ++ 47%N :: b) cur = splitSlash a cur ++ splitSlash b [].
Proof.
  revert cur. induction a as [|c a IH]; intros cur; simpl.
  - reflexivity.
  - destruct (c =? 47)%N; simpl; by rewrite IH.
Qed.

Lemma splitSlash_no_slash (seg cur : jsstring) :
  existsb (N.eqb 47) seg = false → splitSlash seg cur = [rev cur ++ seg].
Proof.
  revert cur. induction seg as [|c seg IH]; intros cur; simpl.
  - intros _. by rewrite app_nil_r.
  - rewrite orb_false_iff. intros [Hc Hseg]. rewrite N.eqb_sym, Hc.
    rewrite IH by done. simpl. by rewrite <- app_assoc.
Qed.

Lemma plain_no_slash (seg : jsstring) :
  plain seg = true → existsb (N.eqb 47) seg = false.
Proof.
  unfold plain. intros H. repeat (apply andb_prop in H as [H ?]).
  by apply negb_true_iff.
Qed.

Lemma splitSlash_joinSlash (segs : list jsstring) :
  forallb plain segs = true →
  splitSlash (joinSlash segs) [] = match segs with [] => [[]] | _ => segs end.
Proof.
  induction segs as [|seg [|seg' segs] IH]; simpl.
  - done.
  - intros H. apply andb_prop in H as [H _].
    by rewrite splitSlash_no_slash by by apply plain_no_slash.
  - intros H. apply andb_prop in H as [H H'].
    rewrite splitSlash_app, splitSlash_no_slash by by apply plain_no_slash.
    simpl. f_equal. by apply IH.
Qed.

Lemma normalizeSegments_acc (isAbsolute : bool) (segs acc : list jsstring) :
  normalizeSegments isAbsolute segs acc = rev (normalizeAcc isAbsolute segs acc).
Proof.
  revert acc. induction segs as [|seg rest IH]; intros acc; simpl; [done|].
  repeat match goal with
         | |- context [if ?b then _ else _] => destruct b
         | |- context [match ?l with [] => _ | _ :: _ => _ end] => destruct l
         end; apply IH.
Qed.

Lemma normalizeAcc_app (isAbsolute : bool) (l1 l2 acc : list jsstring) :
  normalizeAcc isAbsolute (l1 ++ l2) acc
  = normalizeAcc isAbsolute l2 (normalizeAcc isAbsolute l1 acc).
Proof.
  revert acc. induction l1 as [|seg rest IH]; intros acc; simpl; [done|].
  repeat match goal with
         | |- context [if ?b then _ else _] => destruct b
         | |- context [match ?l with [] => _ | _ :: _ => _ end] => destruct l
         end; apply IH.
Qed.

Lemma normalizeAcc_plain (isAbsolute : bool) (segs acc : list jsstring) :
  forallb plain segs = true →
  normalizeAcc isAbsolute segs acc = rev segs ++ acc.
Proof.
  revert acc. induction segs as [|seg rest IH]; intros acc; simpl; [done|].
  intros H. apply andb_prop in H as [Hseg Hrest].
  unfold plain in Hseg. repeat (apply andb_prop in Hseg as [Hseg ?]).
  repeat match goal with
         | Hn : negb ?b = true |- _ => apply negb_true_iff in Hn; rewrite ?Hn
         end.
  simpl. rewrite IH by done. by rewrite <- app_assoc.
Qed.

(** Splitting and normalising an absolute path gives its segments. *)
Lemma normalizeAcc_absolute (segs rest acc : list jsstring) :
  forallb plain segs = true →
  normalizeAcc true (splitSlash (47%N :: joinSlash segs) [] ++ rest) acc
  = normalizeAcc true rest (rev segs ++ acc).
Proof.
  intros H.
  change (splitSlash (47%N :: joinSlash segs) [])
    with ([] :: splitSlash (joinSlash segs) []).
  rewrite splitSlash_joinSlash by done.
  destruct segs as [|seg segs]; [reflexivity|].
  change (normalizeAcc true (([] :: seg :: segs) ++ rest) acc)
    with (normalizeAcc true ((seg :: segs) ++ rest) acc).
  rewrite normalizeAcc_app. by rewrite (normalizeAcc_plain true _ acc H).
Qed.

Lemma endsWith_slash_false (x seg : jsstring) :
  plain seg = true → endsWith (x ++ seg) (js "/") = false.
Proof.
  intros H. pose proof (plain_no_slash seg H) as Hslash.
  unfold plain in H. repeat (apply andb_prop in H as [H ?]).
  apply negb_true_iff, bool_decide_eq_false in H.
  unfold endsWith. rewrite rev_app_distr.
  destruct (rev seg) as [|c l] eqn:Hrev.
  - apply (f_equal (@rev N)) in Hrev. rewrite rev_involutive in Hrev. done.
  - change (rev (js "/")) with [47%N].
    rewrite <- app_comm_cons, startsWith_cons, startsWith_nil, andb_true_r.
    assert (Hc : In c seg) by (apply in_rev; rewrite Hrev; by left).
    destruct (47 =? c)%N eqn:Hcc; [|done].
    apply N.eqb_eq in Hcc. subst c.
    assert (existsb (N.eqb 47) seg = true); [|congruence].
    apply existsb_exists. exists 47%N. by rewrite N.eqb_refl.
Qed.

(** The shape of a join whose first part is absolute and whose last part
    is a plain segment. *)
Lemma join_shape (parts : list jsstring) (joined : jsstring)
    (segs : list jsstring) :
  joinSlash (filter (λ p, p ≠ []) parts) = joined →
  startsWith joined (js "/") = true →
  endsWith joined (js "/") = false →
  normalizeAcc true (splitSlash joined []) [] = rev segs →
  join parts = 47%N :: joinSlash segs.
Proof.
  intros Hj Habs Hend Hsegs. unfold join. rewrite Hj, Habs, Hend.
  rewrite normalizeSegments_acc, Hsegs, rev_involutive. simpl.
  rewrite app_nil_r. reflexivity.
Qed.

Lemma plain_nonempty (seg : jsstring) : plain seg = true → seg ≠ [].
Proof. by destruct seg. Qed.

Lemma filter_plain (l : list jsstring) :
  forallb plain l = true → filter (λ p : jsstring, p ≠ []) l = l.
Proof.
  induction l as [|seg l IH]; simpl; [done|].
  intros H. apply andb_prop in H as [Hseg Hl].
  rewrite filter_cons_True by by apply plain_nonempty. by rewrite IH.
Qed.

Lemma joinSlash_cons (seg : jsstring) (l : list jsstring) :
  l ≠ [] → joinSlash (seg :: l) = seg ++ 47%N :: joinSlash l.
Proof. by destruct l. Qed.

Lemma joinSlash_last (l : list jsstring) :
  forallb plain l = true → l ≠ [] →
  ∃ x seg, joinSlash l = x ++ seg ∧ plain seg = true.
Proof.
  induction l as [|seg [|seg' l] IH]; [done| |].
  - simpl. intros H _. apply andb_prop in H as [H _]. by exists [], seg.
  - intros H _. apply andb_prop in H as [_ H].
    destruct (IH H) as (x & last & Hx & Hlast); [done|].
    rewrite joinSlash_cons by done. rewrite Hx.
    exists (seg ++ 47%N :: x), last. by rewrite <- app_assoc.
Qed.

(** Joining an absolute path with plain segments appends them. *)
Lemma join_root (segs l : list jsstring) :
  forallb plain segs = true → forallb plain l = true → l ≠ [] →
  join ((47%N :: joinSlash segs) :: l) = 47%N :: joinSlash (segs ++ l).
Proof.
  intros Hsegs Hl Hne.
  apply (join_shape _ ((47%N :: joinSlash segs) ++ 47%N :: joinSlash l)).
  - rewrite filter_cons_True by done. rewrite filter_plain by done.
    by rewrite joinSlash_cons.
  - reflexivity.
  - destruct (joinSlash_last l Hl Hne) as (x & seg & -> & Hseg).
    replace ((47%N :: joinSlash segs) ++ 47%N :: x ++ seg)
      with (((47%N :: joinSlash segs) ++ 47%N :: x) ++ seg)
      by (by rewrite <- app_assoc).
    by apply endsWith_slash_false.
  - rewrite splitSlash_app.
    rewrite normalizeAcc_absolute by done.
    rewrite splitSlash_joinSlash by done.
    destruct l as [|seg l]; [done|].
    rewrite normalizeAcc_plain by done.
    by rewrite app_nil_r, rev_app_distr.
Qed.

(** The same for the reference of an upload, which begins with a slash. *)
Lemma join_root_url (segs : list jsstring) (f : jsstring) :
  forallb plain segs = true → plain f = true →
  join [47%N :: joinSlash segs; js "public"; js "/uploads/" ++ f]
  = 47%N :: joinSlash (segs ++ [js "public"; js "uploads"; f]).
Proof.
  intros Hsegs Hf.
  apply (join_shape _ ((47%N :: joinSlash segs) ++ 47%N :: js "public"
                       ++ 47%N :: [] ++ 47%N :: js "uploads" ++ 47%N :: f)).
  - rewrite !filter_cons_True by done. reflexivity.
  - reflexivity.
  - replace ((47%N :: joinSlash segs) ++ 47%N :: js "public"
             ++ 47%N :: [] ++ 47%N :: js "uploads" ++ 47%N :: f)
      with (((47%N :: joinSlash segs) ++ 47%N :: js "public"
             ++ 47%N :: [] ++ 47%N :: js "uploads" ++ [47%N]) ++ f)
      by (by rewrite <- !app_assoc).
    by apply endsWith_slash_false.
  - rewrite !splitSlash_app.
    rewrite normalizeAcc_absolute by done.
    rewrite (splitSlash_no_slash f) by by apply plain_no_slash.
    change (splitSlash (js "public") [] ++ splitSlash [] []
            ++ splitSlash (js "uploads") [] ++ [rev [] ++ f])
      with ([js "public"] ++ [[]] ++ [js "uploads"; f]).
    rewrite normalizeAcc_app.
    rewrite (normalizeAcc_plain true [js "public"]) by done.
    change (normalizeAcc true ([[]] ++ [js "uploads"; f])
              (rev [js "public"] ++ rev segs ++ []))
      with (normalizeAcc true [js "uploads"; f]
              (rev [js "public"] ++ rev segs ++ [])).
    rewrite normalizeAcc_plain by (simpl; by rewrite Hf).
    rewrite app_nil_r, !rev_app_distr. reflexivity.
Qed.

(** The file that an upload saves, the file that the remote provider
    reads for the stored reference, and the file that a delete unlinks
    are the same file. *)
Lemma one_file (cwd f : jsstring) :
  absolute cwd → plain f = true →
  join [join [cwd; js "public"; js "uploads"]; f]
  = join [cwd; js "public"; js "uploads"; f]
  ∧ join [cwd; js "public"; js "/uploads/" ++ f]
    = join [cwd; js "public"; js "uploads"; f].
Proof.
  intros (segs & -> & Hsegs) Hf.
  rewrite (join_root segs [js "public"; js "uploads"]) by done.
  rewrite (join_root (segs ++ [js "public"; js "uploads"]) [f]).
  - rewrite (join_root segs [js "public"; js "uploads"; f])
      by (done || (simpl; by rewrite Hf)).
    rewrite join_root_url by done.
    by rewrite <- app_assoc.
  - rewrite forallb_app. by rewrite Hsegs.
  - simpl. by rewrite Hf.
  - done.
Qed.

Lemma plain_filename (id : jsstring) :
  safeName id = true → plain (id ++ js ".jpg") = true.
Proof.
  intros Hsafe. unfold plain.
  assert (existsb (N.eqb 47) (id ++ js ".jpg") = false) as ->.
  { rewrite existsb_app. apply orb_false_iff. split; [|reflexivity].
    induction id as [|c id IH]; [done|]. simpl in *.
    apply andb_prop in Hsafe as [Hc Hid].
    repeat (apply andb_prop in Hc as [Hc ?]).
    apply negb_true_iff in Hc. rewrite N.eqb_sym, Hc. by apply IH. }
  assert (4 ≤ length (id ++ js ".jpg"))
    by (rewrite length_app; simpl; lia).
  rewrite (bool_decide_eq_false_2 (id ++ js ".jpg" = []))
    by (intros Heq; rewrite Heq in H; simpl in H; lia).
  rewrite (bool_decide_eq_false_2 (id ++ js ".jpg" = js "."))
    by (intros Heq; rewrite Heq in H; vm_compute in H; lia).
  rewrite (bool_decide_eq_false_2 (id ++ js ".jpg" = js ".."))
    by (intros Heq; rewrite Heq in H; vm_compute in H; lia).
  reflexivity.
Qed.

(* ===================================================================== *)
(** * From the upload to the remote provider and to the delete *)
(* ===================================================================== *)

Lemma safe_no_dots (id : jsstring) :
  safeName id = true →
  includes (id ++ js ".jpg") (js "..") = false
  ∧ includes (id ++ js ".jpg") (js "\") = false
  ∧ startsWith (id ++ js ".jpg") (js "/") = false.
Proof.
  intros Hsafe. split; [|split].
  - induction id as [|c id IH]; [reflexivity|].
    simpl in Hsafe. apply andb_prop in Hsafe as [Hc Hid].
    repeat (apply andb_prop in Hc as [Hc ?]).
    rewrite <- app_comm_cons, includes_cons, (IH Hid), orb_false_r.
    change (js "..") with [46%N; 46%N]. rewrite startsWith_cons.
    apply andb_false_iff. left.
    match goal with Hd : negb (c =? 46)%N = true |- _ =>
      apply negb_true_iff in Hd; by rewrite N.eqb_sym end.
  - induction id as [|c id IH]; [reflexivity|].
    simpl in Hsafe. apply andb_prop in Hsafe as [Hc Hid].
    repeat (apply andb_prop in Hc as [Hc ?]).
    rewrite <- app_comm_cons, includes_cons, (IH Hid), orb_false_r.
    change (js "\") with [92%N]. rewrite startsWith_cons.
    apply andb_false_iff. left.
    match goal with Hd : negb (c =? 92)%N = true |- _ =>
      apply negb_true_iff in Hd; by rewrite N.eqb_sym end.
  - destruct id as [|c id]; [reflexivity|].
    simpl in Hsafe. apply andb_prop in Hsafe as [Hc Hid].
    repeat (apply andb_prop in Hc as [Hc ?]).
    rewrite <- app_comm_cons. change (js "/") with [47%N].
    rewrite startsWith_cons. apply andb_false_iff. left.
    apply negb_true_iff in Hc. by rewrite N.eqb_sym.
Qed.

Lemma upload_url_confined (id : jsstring) :
  safeName id = true → length id ≤ 196 →
  confined (js "/uploads/" ++ id ++ js ".jpg") = true.
Proof.
  intros Hsafe Hlen. unfold confined.
  change (stripPrefix (js "/uploads/") (js "/uploads/" ++ id ++ js ".jpg"))
    with (id ++ js ".jpg").
  change (startsWith (js "/uploads/" ++ id ++ js ".jpg") (js "/uploads/"))
    with true.
  destruct (safe_no_dots id Hsafe) as (-> & -> & ->).
  assert ((200 <? length (id ++ js ".jpg"))%nat = false) as ->.
  { apply Nat.ltb_ge. rewrite length_app.
    change (length (js ".jpg")) with 4. lia. }
  assert (endsWith (toLowerCase (id ++ js ".jpg")) (js ".jpg") = true) as ->.
  { apply endsWith_spec. exists (toLowerCase id).
    unfold toLowerCase. by rewrite map_app. }
  reflexivity.
Qed.

(** The reference that an upload stores passes the remote provider's
    path check, and the file that the provider then reads is the file
    that the upload saved, for an absolute working directory and a
    generated name without slash, dot or backslash (a UUID) of at most
    196 code units. *)
Theorem stored_reference_is_read_back (env : ProcessEnv) (out : Outside)
    (w : World) (baseUrl model : jsstring) :
  absolute (cwd env) →
  safeName (uuid out (tick w)) = true →
  length (uuid out (tick w)) ≤ 196 →
  confined (upload_url out w) = true
  ∧ ∃ k,
      describeImage env (OllamaVisionProvider baseUrl model) (upload_url out w)
      = Call (ReadFile (upload_path env out w)) k.
Proof.
  intros Habs Hsafe Hlen.
  pose proof (upload_url_confined _ Hsafe Hlen) as Hc.
  split; [exact Hc|]. simpl.
  unfold upload_url, upload_filename in *.
  rewrite (describeImage_confined env baseUrl model _ Hc).
  change (stripPrefix (js "/uploads/")
            (js "/uploads/" ++ uuid out (tick w) ++ js ".jpg"))
    with (uuid out (tick w) ++ js ".jpg").
  unfold upload_path, upload_filename.
  destruct (one_file (cwd env) (uuid out (tick w) ++ js ".jpg") Habs
              (plain_filename _ Hsafe)) as [-> _].
  by eexists.
Qed.

Lemma absolute_app : absolute (js "/app").
Proof. exists [js "app"]. split; reflexivity. Qed.

Lemma stored_reference_is_read_back_witness :
  confined (upload_url (outside_with paris) world1) = true
  ∧ ∃ k,
      describeImage ollama_env
        (OllamaVisionProvider (js "http://localhost:11434") (js "llava"))
        (upload_url (outside_with paris) world1)
      = Call (ReadFile (upload_path ollama_env (outside_with paris) world1)) k.
Proof.
  apply (stored_reference_is_read_back ollama_env (outside_with paris) world1
           (js "http://localhost:11434") (js "llava")).
  - exact absolute_app.
  - reflexivity.
  - vm_compute. lia.
Defined.

Lemma failed_create_leaves_the_file_witness :
  ∃ w',
    run (outside_with paris) (PhotosRoute.POST ollama_env (upload_of bob small_jpeg)) world4
    = (Fulfilled internalError, w', [])
    ∧ photos w' = photos world4
    ∧ files w' !! upload_path ollama_env (outside_with paris) world4
      = Some (file_bytes small_jpeg).
Proof.
  apply (failed_create_leaves_the_file (outside_with paris) ollama_env
           (upload_of bob small_jpeg) bob small_jpeg (Some paris) 48.5 2.25
           world4);
    try reflexivity.
  - vm_compute. discriminate.
  - exists photo4. vm_compute. reflexivity.
Defined.

(* ===================================================================== *)
(** * How an enrichment ends *)
(* ===================================================================== *)

(** The remote provider on a reference that passes the path check. *)
Lemma Ollama_run (out : Outside) (env : ProcessEnv)
    (baseUrl model imageUrlOrPath : jsstring) (w : World) :
  confined imageUrlOrPath = true →
  run out (Ollama.describeImage env baseUrl model imageUrlOrPath) w =
    match files w !! provider_path env imageUrlOrPath with
    | Some data =>
        match ollama_chat out (tick w) data with
        | Fulfilled description => (Fulfilled description, next_tick w, [])
        | Rejected e =>
            let '(o, w', started) :=
              run out (Ollama.rethrow baseUrl imageUrlOrPath e) (next_tick w) in
            (o, w', started)
        end
    | None =>
        let '(o, w', started) :=
          run out (Ollama.rethrow baseUrl imageUrlOrPath
                     (JsError (enoent (provider_path env imageUrlOrPath)))) w in
        (o, w', started)
    end.
Proof.
  intros Hc. rewrite (describeImage_confined env baseUrl model _ Hc).
  rewrite run_try_catch, run_bind, run_await. fold (provider_path env imageUrlOrPath).
  simpl. destruct (files w !! provider_path env imageUrlOrPath) as [data|].
  - destruct (ollama_chat out (tick w) data) as [d|e]; [reflexivity|]. simpl.
    by destruct (run out (Ollama.rethrow baseUrl imageUrlOrPath e) (next_tick w))
      as [[o w'] started].
  - unfold enoent.
    by destruct (run out (Ollama.rethrow baseUrl imageUrlOrPath _) w)
      as [[o w'] started].
Qed.

Lemma rethrow_network (baseUrl imageUrlOrPath message : jsstring) :
  networkFailure message = true →
  Ollama.rethrow baseUrl imageUrlOrPath (JsError message)
  = Throw (JsError (cannotConnect baseUrl)).
Proof. unfold networkFailure, Ollama.rethrow. by intros ->. Qed.

Lemma rethrow_enoent (baseUrl imageUrlOrPath message : jsstring) :
  networkFailure message = false →
  includes message (js "ENOENT") = true →
  Ollama.rethrow baseUrl imageUrlOrPath (JsError message)
  = Throw (JsError (fileNotFound imageUrlOrPath)).
Proof. unfold networkFailure, Ollama.rethrow. by intros -> ->. Qed.

(** The enrichment, by the outcome of the provider's call. *)
Lemma enrichment_by_outcome (out : Outside) (env : ProcessEnv)
    (provider : VisionProvider) (photoId imageUrl : jsstring)
    (w w' : World) (o : Outcome jsstring) (p : Photo) :
  run out (describeImage env provider imageUrl) w = (o, w', []) →
  photos w' !! photoId = Some p →
  run out (RegenerateRoute.enrichment env provider photoId imageUrl) w
  = (Fulfilled (),
     with_photos w' (<[photoId := applyUpdate (completion_data o) p]> (photos w')),
     []).
Proof.
  intros Hrun Hp. unfold RegenerateRoute.enrichment.
  rewrite run_try_catch, run_bind, Hrun.
  destruct o as [description|error]; simpl; rewrite Hp; reflexivity.
Qed.

(** With the mock provider an enrichment of a stored photo always ends
    in DONE with the fixed description and no error, whatever the
    reference is: the mock never looks at it.  The provider is the mock
    whenever the configured value is not [ollama]. *)
Theorem mock_enrichment_ends_done (out : Outside) (env : ProcessEnv)
    (photoId imageUrl : jsstring) (w : World) (p : Photo) :
  VISION_PROVIDER env ≠ Some (js "ollama") →
  photos w !! photoId = Some p →
  let done := applyUpdate (PhotosRoute.done_data mockDescription) p in
  run out (RegenerateRoute.enrichment env (getVisionProvider env) photoId imageUrl) w
  = (Fulfilled (), with_photos w (<[photoId := done]> (photos w)), [])
  ∧ run out (upload_promise env photoId imageUrl) w
    = (Fulfilled (), with_photos w (<[photoId := done]> (photos w)), [])
  ∧ aiStatus done = DONE
  ∧ aiDescription done = Some mockDescription
  ∧ aiError done = None.
Proof.
  intros Hv Hp done.
  assert (getVisionProvider env = MockVisionProvider) as Hmock.
  { unfold getVisionProvider.
    destruct (VISION_PROVIDER env) as [[|c s]|]; try reflexivity. simpl.
    case_bool_decide; [reflexivity|].
    rewrite bool_decide_eq_false_2; [reflexivity|]. congruence. }
  assert (run out (RegenerateRoute.enrichment env (getVisionProvider env)
                     photoId imageUrl) w
          = (Fulfilled (), with_photos w (<[photoId := done]> (photos w)), []))
    as Hrun.
  { rewrite Hmock.
    by apply (enrichment_by_outcome out env MockVisionProvider photoId
                imageUrl w w (Fulfilled mockDescription) p). }
  split; [exact Hrun|]. split; [|done].
  unfold upload_promise. rewrite run_try_catch.
  change (PhotosRoute.generateAIDescription env photoId imageUrl)
    with (RegenerateRoute.enrichment env (getVisionProvider env) photoId imageUrl).
  by rewrite Hrun.
Qed.

Lemma mock_enrichment_ends_done_witness :
  let done := applyUpdate (PhotosRoute.done_data mockDescription) photo1 in
  run (outside_with paris)
    (RegenerateRoute.enrichment mock_env (getVisionProvider mock_env)
       (js "c1") (js "/etc/passwd")) world1
  = (Fulfilled (), with_photos world1 (<[js "c1" := done]> (photos world1)), [])
  ∧ run (outside_with paris) (upload_promise mock_env (js "c1") (js "/etc/passwd")) world1
    = (Fulfilled (), with_photos world1 (<[js "c1" := done]> (photos world1)), [])
  ∧ aiStatus done = DONE
  ∧ aiDescription done = Some mockDescription
  ∧ aiError done = None.
Proof.
  apply (mock_enrichment_ends_done (outside_with paris) mock_env (js "c1")
           (js "/etc/passwd") world1 photo1).
  - discriminate.
  - reflexivity.
Defined.

Lemma enrichment_late (out : Outside) (env : ProcessEnv)
    (provider : VisionProvider) (photoId imageUrl : jsstring) (w : World) :
  photos w !! photoId = None →
  ∃ e w',
    run out (RegenerateRoute.enrichment env provider photoId imageUrl) w
    = (Rejected e, w', [])
    ∧ photos w' = photos w ∧ comments w' = comments w ∧ files w' = files w.
Proof.
  intros Hp.
  destruct (describeImage_run out env provider imageUrl w)
    as (o & w' & Hrun & Hphotos & Hcomments & Hfiles).
  unfold RegenerateRoute.enrichment.
  rewrite run_try_catch, run_bind, Hrun.
  destruct o as [d|e]; simpl; rewrite Hphotos, Hp; simpl;
    rewrite ?Hphotos, ?Hp; by eexists _, _.
Qed.

Lemma upload_promise_late (out : Outside) (env : ProcessEnv)
    (photoId imageUrl : jsstring) (w : World) :
  photos w !! photoId = None →
  ∃ w',
    run out (upload_promise env photoId imageUrl) w = (Fulfilled (), w', [])
    ∧ photos w' = photos w ∧ comments w' = comments w ∧ files w' = files w.
Proof.
  intros Hp.
  destruct (enrichment_late out env (getVisionProvider env) photoId imageUrl w Hp)
    as (e & w' & Hrun & Hw').
  exists w'. split; [|exact Hw'].
  unfold upload_promise. rewrite run_try_catch.
  change (PhotosRoute.generateAIDescription env photoId imageUrl)
    with (RegenerateRoute.enrichment env (getVisionProvider env) photoId imageUrl).
  by rewrite Hrun.
Qed.

(** An enrichment that settles after its photo was deleted recreates
    nothing: both of its writes are rejected, and the record store and
    the files are as they were.  The promise of a regenerate request
    ends rejected; the promise of an upload drops the rejection. *)
Theorem late_enrichment_recreates_nothing (out : Outside) (env : ProcessEnv)
    (provider : VisionProvider) (photoId imageUrl : jsstring) (w : World) :
  photos w !! photoId = None →
  (∃ e w',
     run out (RegenerateRoute.enrichment env provider photoId imageUrl) w
     = (Rejected e, w', [])
     ∧ photos w' = photos w ∧ comments w' = comments w ∧ files w' = files w)
  ∧ (∃ w',
       run out (upload_promise env photoId imageUrl) w = (Fulfilled (), w', [])
       ∧ photos w' = photos w ∧ comments w' = comments w ∧ files w' = files w).
Proof.
  intros Hp. split; [by apply enrichment_late | by apply upload_promise_late].
Qed.

Lemma late_enrichment_recreates_nothing_witness :
  (∃ e w',
     run (outside_with paris)
       (RegenerateRoute.enrichment ollama_env (getVisionProvider ollama_env)
          (js "c7") (js "/uploads/u0.jpg")) world1
     = (Rejected e, w', [])
     ∧ photos w' = photos world1 ∧ comments w' = comments world1
     ∧ files w' = files world1)
  ∧ (∃ w',
       run (outside_with paris)
         (upload_promise ollama_env (js "c7") (js "/uploads/u0.jpg")) world1
       = (Fulfilled (), w', [])
       ∧ photos w' = photos world1 ∧ comments w' = comments world1
       ∧ files w' = files world1).
Proof.
  apply (late_enrichment_recreates_nothing (outside_with paris) ollama_env
           (getVisionProvider ollama_env) (js "c7") (js "/uploads/u0.jpg")
           world1).
  reflexivity.
Defined.

Lemma getVisionProvider_ollama (env : ProcessEnv) :
  VISION_PROVIDER env = Some (js "ollama") →
  getVisionProvider env = new_OllamaVisionProvider env.
Proof. unfold getVisionProvider. by intros ->. Qed.

Lemma provider_path_upload (env : ProcessEnv) (out : Outside) (w : World) :
  absolute (cwd env) →
  safeName (uuid out (tick w)) = true →
  provider_path env (upload_url out w) = upload_path env out w
  ∧ join [cwd env; js "public"; upload_url out w] = upload_path env out w.
Proof.
  intros Habs Hsafe. unfold provider_path, upload_path, upload_url, upload_filename.
  change (stripPrefix (js "/uploads/")
            (js "/uploads/" ++ uuid out (tick w) ++ js ".jpg"))
    with (uuid out (tick w) ++ js ".jpg").
  destruct (one_file (cwd env) (uuid out (tick w) ++ js ".jpg") Habs
              (plain_filename _ Hsafe)) as [-> ->].
  done.
Qed.

(** The promise of an upload, by the outcome of the provider's call. *)
Lemma upload_promise_by_outcome (out : Outside) (env : ProcessEnv)
    (photoId imageUrl : jsstring) (w w' : World) (o : Outcome jsstring)
    (p : Photo) :
  run out (describeImage env (getVisionProvider env) imageUrl) w = (o, w', []) →
  photos w' !! photoId = Some p →
  run out (upload_promise env photoId imageUrl) w
  = (Fulfilled (),
     with_photos w' (<[photoId := applyUpdate (completion_data o) p]> (photos w')),
     []).
Proof.
  intros Hrun Hp. unfold upload_promise. rewrite run_try_catch.
  change (PhotosRoute.generateAIDescription env photoId imageUrl)
    with (RegenerateRoute.enrichment env (getVisionProvider env) photoId imageUrl).
  by rewrite (enrichment_by_outcome out env _ photoId imageUrl w w' o p Hrun Hp).
Qed.

Theorem upload_then_remote_description (out : Outside) (env : ProcessEnv)
    (request : Request) (user : User) (file : File)
    (latNumber lngNumber : number) (description : jsstring) (s : System) :
  VISION_PROVIDER env = Some (js "ollama") →
  absolute (cwd env) →
  safeName (uuid out (tick (world s))) = true →
  length (uuid out (tick (world s))) ≤ 196 →
  acceptable out request user file latNumber lngNumber →
  photos (world s) !! cuid out (S (tick (world s))) = None →
  ollama_chat out (S (S (tick (world s)))) (file_bytes file)
  = Fulfilled description →
  let photo := upload_photo out (world s) user latNumber lngNumber in
  let s' := acts out env [Serve Upload request; Settle (length (pending s))] s in
  photos (world s')
  = <[photo_id photo := applyUpdate (PhotosRoute.done_data description) photo]>
      (photos (world s))
  ∧ files (world s')
    = <[upload_path env out (world s) := file_bytes file]> (files (world s))
  ∧ comments (world s') = comments (world s)
  ∧ pending s' = pending s.
Proof.
  intros Hv Habs Hsafe Hlen (Hs & Hf & Hty & Hle & exifData & Hexif & Hlat & Hlng)
    Hfresh Hchat photo s'.
  subst s'. unfold acts. simpl.
  rewrite (POST_stores out env _ _ _ exifData latNumber lngNumber (world s)
             Hs Hf Hty Hle Hexif Hlat Hlng).
  simpl. rewrite Hfresh. simpl.
  rewrite list_lookup_middle by done.
  fold (upload_promise env (cuid out (S (tick (world s)))) (upload_url out (world s))).
  set (w1 := next_tick _).
  assert (run out (describeImage env (getVisionProvider env)
                     (upload_url out (world s))) w1
          = (Fulfilled description, next_tick w1, [])) as Hrun.
  { rewrite (getVisionProvider_ollama env Hv). unfold new_OllamaVisionProvider.
    simpl describeImage.
    rewrite Ollama_run by (by apply upload_url_confined).
    destruct (provider_path_upload env out (world s) Habs Hsafe) as [-> _].
    subst w1. simpl. rewrite lookup_insert_eq. by rewrite Hchat. }
  rewrite (upload_promise_by_outcome out env _ _ w1 (next_tick w1)
             (Fulfilled description) photo Hrun).
  2:{ subst w1. simpl. by rewrite lookup_insert_eq. }
  simpl. rewrite insert_insert_eq.
  split_and!; try done.
  by rewrite app_nil_r, delete_middle, app_nil_r.
Qed.

Lemma upload_then_remote_description_witness :
  let photo := upload_photo (outside_with paris) (world initial) alice 48.5 2.25 in
  let s' := acts (outside_with paris) ollama_env
              [Serve Upload (upload_of alice small_jpeg); Settle 0] initial in
  photos (world s')
  = <[photo_id photo
      := applyUpdate (PhotosRoute.done_data (js "empty train tracks")) photo]>
      (photos (world initial))
  ∧ files (world s')
    = <[upload_path ollama_env (outside_with paris) (world initial)
        := file_bytes small_jpeg]> (files (world initial))
  ∧ comments (world s') = comments (world initial)
  ∧ pending s' = pending initial.
Proof.
  apply (upload_then_remote_description (outside_with paris) ollama_env
           (upload_of alice small_jpeg) alice small_jpeg 48.5 2.25
           (js "empty train tracks") initial).
  - reflexivity.
  - exact absolute_app.
  - reflexivity.
  - vm_compute. lia.
  - repeat split; try reflexivity.
    + vm_compute. discriminate.
    + exists (Some paris). repeat split; reflexivity.
  - reflexivity.
  - reflexivity.
Defined.

(** A remote provider that cannot reach its backend: the photo ends in
    ERROR and its error names the address, whatever the backend's
    client reported besides. *)
Theorem unreachable_backend_is_reported (out : Outside) (env : ProcessEnv)
    (baseUrl model photoId imageUrl message : jsstring) (data : list N)
    (w : World) (p : Photo) :
  confined imageUrl = true →
  photos w !! photoId = Some p →
  files w !! provider_path env imageUrl = Some data →
  ollama_chat out (tick w) data = Rejected (JsError message) →
  networkFailure message = true →
  let failed :=
    applyUpdate (PhotosRoute.error_data (JsError (cannotConnect baseUrl))) p in
  run out (RegenerateRoute.enrichment env (OllamaVisionProvider baseUrl model)
             photoId imageUrl) w
  = (Fulfilled (),
     with_photos (next_tick w) (<[photoId := failed]> (photos w)), [])
  ∧ aiStatus failed = ERROR
  ∧ aiError failed = Some (cannotConnect baseUrl)
  ∧ aiDescription failed = aiDescription p.
Proof.
  intros Hc Hp Hfile Hchat Hnet failed. split; [|done].
  apply (enrichment_by_outcome out env (OllamaVisionProvider baseUrl model)
           photoId imageUrl w (next_tick w)
           (Rejected (JsError (cannotConnect baseUrl))) p); [|done].
  simpl describeImage. rewrite Ollama_run by done.
  rewrite Hfile, Hchat. by rewrite (rethrow_network _ _ _ Hnet).
Qed.

Lemma unreachable_backend_is_reported_witness :
  let failed :=
    applyUpdate (PhotosRoute.error_data
                   (JsError (cannotConnect (js "http://localhost:11434")))) photo1 in
  run (outside_with paris)
    (RegenerateRoute.enrichment ollama_env
       (OllamaVisionProvider (js "http://localhost:11434") (js "llava"))
       (js "c1") (js "/uploads/u0.jpg")) world1
  = (Fulfilled (),
     with_photos (next_tick world1) (<[js "c1" := failed]> (photos world1)), [])
  ∧ aiStatus failed = ERROR
  ∧ aiError failed = Some (cannotConnect (js "http://localhost:11434"))
  ∧ aiDescription failed = aiDescription photo1.
Proof.
  apply (unreachable_backend_is_reported (outside_with paris) ollama_env
           (js "http://localhost:11434") (js "llava") (js "c1")
           (js "/uploads/u0.jpg") (js "fetch failed") [255; 216; 255]%N
           world1 photo1); reflexivity.
Defined.

(** A photo whose file is gone: the remote provider makes no call to its
    backend, and the photo ends in ERROR with an error that names the
    stored reference, not the path on disk. *)
Theorem missing_file_is_reported (out : Outside) (env : ProcessEnv)
    (baseUrl model photoId imageUrl : jsstring) (w : World) (p : Photo) :
  confined imageUrl = true →
  photos w !! photoId = Some p →
  files w !! provider_path env imageUrl = None →
  networkFailure (enoent (provider_path env imageUrl)) = false →
  let failed :=
    applyUpdate (PhotosRoute.error_data (JsError (fileNotFound imageUrl))) p in
  run out (RegenerateRoute.enrichment env (OllamaVisionProvider baseUrl model)
             photoId imageUrl) w
  = (Fulfilled (), with_photos w (<[photoId := failed]> (photos w)), [])
  ∧ aiStatus failed = ERROR
  ∧ aiError failed = Some (fileNotFound imageUrl).
Proof.
  intros Hc Hp Hfile Hnet failed. split; [|done].
  apply (enrichment_by_outcome out env (OllamaVisionProvider baseUrl model)
           photoId imageUrl w w
           (Rejected (JsError (fileNotFound imageUrl))) p); [|done].
  simpl describeImage. rewrite Ollama_run by done.
  rewrite Hfile. by rewrite (rethrow_enoent _ _ _ Hnet).
Qed.

Lemma missing_file_is_reported_witness :
  let failed :=
    applyUpdate (PhotosRoute.error_data
                   (JsError (fileNotFound (js "/uploads/u0.jpg")))) photo1 in
  run (outside_with paris)
    (RegenerateRoute.enrichment ollama_env
       (OllamaVisionProvider (js "http://localhost:11434") (js "llava"))
       (js "c1") (js "/uploads/u0.jpg")) world_without_file
  = (Fulfilled (),
     with_photos world_without_file
       (<[js "c1" := failed]> (photos world_without_file)), [])
  ∧ aiStatus failed = ERROR
  ∧ aiError failed = Some (fileNotFound (js "/uploads/u0.jpg")).
Proof.
  apply (missing_file_is_reported (outside_with paris) ollama_env
           (js "http://localhost:11434") (js "llava") (js "c1")
           (js "/uploads/u0.jpg") world_without_file photo1); reflexivity.
Defined.


(* ===================================================================== *)
(** * Deleting a photo *)
(* ===================================================================== *)

(** A comment on an id under which nothing is stored is refused before
    the body is looked at. *)
Lemma POST_comment_unknown (out : Outside) (env : ProcessEnv) (w : World)
    (request : Request) (user : User) :
  session request = Some user →
  photos w !! params_id request = None →
  run out (CommentsRoute.POST env request) w = (Fulfilled notFound, w, []).
Proof.
  unfold CommentsRoute.POST, CommentsRoute.verifyPhotoExists, requireAuth,
    mbind, Prog_bind.
  intros -> Hp. simpl. unfold findFirst. by rewrite Hp.
Qed.

Lemma findFirst_unknown (w : World) (id : jsstring) (owner : option jsstring) :
  photos w !! id = None → findFirst w id owner = None.
Proof. unfold findFirst. by intros ->. Qed.

(** The owner's delete takes the photo and every comment on it out of
    the store and leaves every other photo and comment; it answers 200
    whether or not the file was still there.  From then on the id is
    unknown to every route and every caller: a second delete, a
    regenerate and a comment all answer 404 and change nothing. *)
Theorem delete_cascades (out : Outside) (env : ProcessEnv) (w : World)
    (request : Request) (user : User) (p : Photo) :
  session request = Some user →
  photos w !! params_id request = Some p →
  ownerId p = user_id user →
  ∃ w',
    run out (PhotoRoute.DELETE env request) w
    = (Fulfilled (json (BodyMessage (js "Photo deleted successfully")) 200), w', [])
    ∧ photos w' !! params_id request = None
    ∧ (∀ id, id ≠ params_id request → photos w' !! id = photos w !! id)
    ∧ (∀ c, c ∈ comments w' ↔ c ∈ comments w ∧ photoId c ≠ params_id request)
    ∧ files w' = delete (join [cwd env; js "public"; url p]) (files w)
    ∧ ∀ (again : Request) (caller : User),
        session again = Some caller →
        params_id again = params_id request →
        run out (PhotoRoute.DELETE env again) w' = (Fulfilled notFound, w', [])
        ∧ run out (RegenerateRoute.POST env again) w' = (Fulfilled notFound, w', [])
        ∧ run out (CommentsRoute.POST env again) w' = (Fulfilled notFound, w', []).
Proof.
  intros Hs Hp Ho. rewrite (DELETE_owner out env w request user p Hs Hp Ho).
  eexists. split; [reflexivity|]. simpl.
  split; [apply lookup_delete_eq|].
  split; [intros id Hid; by apply lookup_delete_ne|].
  split; [intros c; rewrite list_elem_of_filter; split; intros [? ?]; by split|].
  split; [reflexivity|].
  intros again caller Hs' Hid.
  assert (photos {| photos := delete (params_id request) (photos w);
                    comments := filter (λ c, photoId c ≠ params_id request) (comments w);
                    files := delete (join [cwd env; js "public"; url p]) (files w);
                    dirs := dirs w; tick := tick w |} !! params_id again = None)
    as Hgone by (rewrite Hid; apply lookup_delete_eq).
  split; [|split].
  - apply (DELETE_not_owned out env _ again caller Hs').
    by apply findFirst_unknown.
  - apply (regenerate_not_owned out env _ again caller Hs').
    by apply findFirst_unknown.
  - by apply (POST_comment_unknown out env _ again caller Hs').
Qed.

Lemma delete_cascades_witness :
  ∃ w',
    run (outside_with paris) (PhotoRoute.DELETE ollama_env (request_on alice (js "c1") None))
      world_without_file
    = (Fulfilled (json (BodyMessage (js "Photo deleted successfully")) 200), w', [])
    ∧ photos w' !! js "c1" = None
    ∧ (∀ id, id ≠ js "c1" → photos w' !! id = photos world_without_file !! id)
    ∧ (∀ c, c ∈ comments w' ↔ c ∈ comments world_without_file ∧ photoId c ≠ js "c1")
    ∧ files w' = delete (join [cwd ollama_env; js "public"; url photo1])
                   (files world_without_file)
    ∧ ∀ (again : Request) (caller : User),
        session again = Some caller →
        params_id again = js "c1" →
        run (outside_with paris) (PhotoRoute.DELETE ollama_env again) w'
        = (Fulfilled notFound, w', [])
        ∧ run (outside_with paris) (RegenerateRoute.POST ollama_env again) w'
          = (Fulfilled notFound, w', [])
        ∧ run (outside_with paris) (CommentsRoute.POST ollama_env again) w'
          = (Fulfilled notFound, w', []).
Proof.
  apply (delete_cascades (outside_with paris) ollama_env world_without_file
           (request_on alice (js "c1") None) alice photo1); reflexivity.
Defined.

(** An upload, the owner's delete of the new photo, and the settling of
    the enrichment that the upload started: when the generated file name
    was free and no comment bore the generated id, the photos, the
    comments and the files are what they were before the upload, and no
    promise is left over. *)
Theorem upload_then_delete_restores (out : Outside) (env : ProcessEnv)
    (request remove : Request) (user : User) (file : File)
    (latNumber lngNumber : number) (s : System) :
  absolute (cwd env) →
  safeName (uuid out (tick (world s))) = true →
  acceptable out request user file latNumber lngNumber →
  photos (world s) !! cuid out (S (tick (world s))) = None →
  files (world s) !! upload_path env out (world s) = None →
  Forall (λ c, photoId c ≠ cuid out (S (tick (world s)))) (comments (world s)) →
  session remove = Some user →
  params_id remove = cuid out (S (tick (world s))) →
  let s' := acts out env [Serve Upload request; Serve Delete remove;
                          Settle (length (pending s))] s in
  photos (world s') = photos (world s)
  ∧ comments (world s') = comments (world s)
  ∧ files (world s') = files (world s)
  ∧ pending s' = pending s.
Proof.
  intros Habs Hsafe (Hs & Hf & Hty & Hle & exifData & Hexif & Hlat & Hlng)
    Hfresh Hfile Hcomments Hs' Hid s'.
  subst s'. unfold acts. simpl.
  rewrite (POST_stores out env _ _ _ exifData latNumber lngNumber (world s)
             Hs Hf Hty Hle Hexif Hlat Hlng).
  simpl. rewrite Hfresh. simpl.
  set (photo := upload_photo out (world s) user latNumber lngNumber).
  rewrite (DELETE_owner out env _ remove user photo Hs');
    [|simpl; rewrite Hid; apply lookup_insert_eq|reflexivity].
  simpl. rewrite app_nil_r, list_lookup_middle by done.
  fold (upload_promise env (cuid out (S (tick (world s)))) (upload_url out (world s))).
  match goal with
  | |- context [run out ?p ?w] =>
      destruct (upload_promise_late out env (cuid out (S (tick (world s))))
                  (upload_url out (world s)) w)
        as (w' & -> & Hphotos & Hcomm & Hfiles)
  end.
  { simpl. rewrite Hid. apply lookup_delete_eq. }
  simpl in *. rewrite Hphotos, Hcomm, Hfiles, Hid.
  destruct (provider_path_upload env out (world s) Habs Hsafe) as [_ ->].
  split_and!.
  - rewrite delete_insert_eq. by apply delete_id.
  - clear -Hcomments. induction Hcomments as [|c l Hc _ IH]; [done|].
    rewrite filter_cons_True by done. by rewrite IH.
  - rewrite delete_insert_eq. by apply delete_id.
  - by rewrite delete_middle, app_nil_r, app_nil_r.
Qed.

Lemma upload_then_delete_restores_witness :
  let s' := acts (outside_with paris) ollama_env
              [Serve Upload (upload_of alice small_jpeg);
               Serve Delete (request_on alice (js "c1") None);
               Settle 0] initial in
  photos (world s') = photos (world initial)
  ∧ comments (world s') = comments (world initial)
  ∧ files (world s') = files (world initial)
  ∧ pending s' = pending initial.
Proof.
  apply (upload_then_delete_restores (outside_with paris) ollama_env
           (upload_of alice small_jpeg) (request_on alice (js "c1") None)
           alice small_jpeg 48.5 2.25 initial).
  - exact absolute_app.
  - reflexivity.
  - repeat split; try reflexivity.
    + vm_compute. discriminate.
    + exists (Some paris). repeat split; reflexivity.
  - reflexivity.
  - reflexivity.
  - constructor.
  - reflexivity.
  - reflexivity.
Defined.

(* ===================================================================== *)
(** * The store in every reachable state *)
(* ===================================================================== *)

Lemma orderly_bind {A B : Type} (out : Outside) (p : Prog A) (f : A → Prog B) :
  orderly out p → (∀ a, orderly out (f a)) → orderly out (p ≫= f).
Proof.
  unfold mbind, Prog_bind. intros Hp. revert B f.
  induction Hp as [A a|A e|A X op k Hop _ IH|A child k Hc _ _ IH];
    intros B f Hf; simpl.
  - apply Hf.
  - constructor.
  - constructor; [done|]. intros o Ho. by apply IH.
  - constructor; [done|]. by apply IH.
Qed.

Lemma orderly_try_catch {A : Type} (out : Outside) (p : Prog A)
    (h : exn → Prog A) :
  orderly out p → (∀ e, orderly out (h e)) → orderly out (try_catch p h).
Proof.
  intros Hp. revert h.
  induction Hp as [A a|A e|A X op k Hop _ IH|A child k Hc _ _ IH];
    intros h Hh; simpl.
  - constructor.
  - apply Hh.
  - constructor; [done|]. intros o Ho. by apply IH.
  - constructor; [done|]. by apply IH.
Qed.

Lemma orderly_await {X : Type} (out : Outside) (op : Eff X) :
  orderly_op out op → orderly out (await op).
Proof. intros H. constructor; [done|]. intros [x|e] _; constructor. Qed.

(** After [await op] the program goes on with a possible value. *)
Lemma orderly_after {X B : Type} (out : Outside) (op : Eff X)
    (f : X → Prog B) :
  orderly_op out op →
  (∀ x, possible out op (Fulfilled x) → orderly out (f x)) →
  orderly out (await op ≫= f).
Proof.
  intros Hop Hf. unfold mbind, Prog_bind. simpl. constructor; [done|].
  intros [x|e] Ho; simpl; [by apply Hf | constructor].
Qed.

Lemma orderly_requireAuth (out : Outside) (request : Request) :
  orderly out (requireAuth request).
Proof. unfold requireAuth. destruct (session request); constructor. Qed.

Lemma orderly_onError (out : Outside) (error : exn) : orderly out (onError error).
Proof. unfold onError. destruct (isUnauthorized error); constructor. Qed.

Lemma orderly_describeImage (out : Outside) (env : ProcessEnv)
    (provider : VisionProvider) (imageUrlOrPath : jsstring) :
  orderly out (describeImage env provider imageUrlOrPath).
Proof.
  destruct provider as [|baseUrl model]; simpl.
  - unfold Mock.describeImage. apply orderly_bind; [by apply orderly_await|].
    intros _. constructor.
  - unfold Ollama.describeImage. apply orderly_try_catch.
    + repeat match goal with
             | |- orderly _ (if ?b then _ else _) => destruct b
             end; try apply orderly_Throw.
      apply orderly_bind; [by apply orderly_await|].
      intros data. by apply orderly_await.
    + intros e. destruct (rethrow_throws baseUrl imageUrlOrPath e) as [e' ->].
      constructor.
Qed.

Lemma orderly_enrichment (out : Outside) (env : ProcessEnv)
    (provider : VisionProvider) (photoId imageUrl : jsstring) :
  orderly out (RegenerateRoute.enrichment env provider photoId imageUrl).
Proof.
  unfold RegenerateRoute.enrichment. apply orderly_try_catch.
  - apply orderly_bind; [apply orderly_describeImage|].
    intros d. by apply orderly_await.
  - intros e. by apply orderly_await.
Qed.

Lemma orderly_handler (out : Outside) (env : ProcessEnv) (route : Route)
    (request : Request) :
  orderly out (handler env route request).
Proof.
  destruct route; simpl.
  - unfold PhotosRoute.POST.
    apply orderly_try_catch; [|apply orderly_onError].
    apply orderly_bind; [apply orderly_requireAuth|]. intros user.
    destruct (formData_file request) as [file|]; [|constructor].
    repeat match goal with
           | |- orderly _ (if ?b then _ else _) => destruct b
           end; try apply orderly_Ret.
    apply orderly_bind; [by apply orderly_await|]. intros exifData.
    repeat match goal with
           | |- orderly _ (match ?x with _ => _ end) => destruct x
           end; try apply orderly_Ret.
    apply orderly_after; [done|]. intros id [n Hn].
    injection Hn as ->.
    apply orderly_bind; [by apply orderly_await|]. intros found.
    apply orderly_bind.
    { destruct found; [constructor | by apply orderly_await]. }
    intros _. apply orderly_bind; [by apply orderly_await|]. intros _.
    apply orderly_bind; [apply orderly_await; by exists n|]. intros photo.
    constructor; [|constructor].
    apply orderly_try_catch; [apply orderly_enrichment|].
    intros _. constructor.
  - unfold PhotoRoute.DELETE.
    apply orderly_try_catch; [|apply orderly_onError].
    apply orderly_bind; [apply orderly_requireAuth|]. intros user.
    apply orderly_bind; [by apply orderly_await|]. intros [photo|]; [|constructor].
    apply orderly_bind.
    { apply orderly_try_catch; [by apply orderly_await|]. intros _. constructor. }
    intros _. apply orderly_bind; [by apply orderly_await|]. intros _. constructor.
  - unfold CommentsRoute.POST.
    apply orderly_try_catch.
    2:{ intros e. unfold CommentsRoute.onError.
        destruct (isUnauthorized e); [constructor|]. destruct e; constructor. }
    apply orderly_bind; [apply orderly_requireAuth|]. intros user.
    apply orderly_bind.
    { unfold CommentsRoute.verifyPhotoExists.
      apply orderly_bind; [by apply orderly_await|]. intros photo. constructor. }
    intros [photo|]; [|constructor].
    apply orderly_bind.
    { unfold CommentsRoute.request_json.
      destruct (json_body request); constructor. }
    intros b. apply orderly_bind.
    { unfold CommentsRoute.destructure_content. destruct b; constructor. }
    intros c.
    repeat match goal with
           | |- orderly _ (match ?x with _ => _ end) => destruct x
           end; try apply orderly_Ret.
    apply orderly_bind; [by apply orderly_await|]. intros comment. constructor.
  - unfold RegenerateRoute.POST.
    apply orderly_try_catch; [|apply orderly_onError].
    apply orderly_bind; [apply orderly_requireAuth|]. intros user.
    apply orderly_bind; [by apply orderly_await|]. intros [photo|]; [|constructor].
    apply orderly_bind; [by apply orderly_await|]. intros _.
    constructor; [apply orderly_enrichment | constructor].
Qed.

Lemma sound_same (out : Outside) (w w' : World) :
  photos w' = photos w → comments w' = comments w →
  sound out w → sound out w'.
Proof. unfold sound. by intros -> ->. Qed.

Lemma exec_sound {X : Type} (out : Outside) (op : Eff X) (w : World) :
  orderly_op out op → sound out w →
  sound out (exec out op w).2 ∧ possible out op (exec out op w).1.
Proof.
  intros Hop [Hphotos Hcomments].
  destruct op; simpl; try (split; [by split | done]).
  - (* create *)
    destruct (photos w !! cuid out (tick w)) eqn:Hfresh; simpl;
      (split; [|done]); [by split|].
    split; simpl.
    + apply map_Forall_insert_2; [by split | done].
    + eapply Forall_impl; [exact Hcomments|]. intros c Hc. simpl in Hc.
      rewrite lookup_insert_is_Some. destruct (decide (cuid out (tick w) = photoId c));
        [by left | by right].
  - (* update *)
    destruct (photos w !! where_id) as [p|] eqn:Hp; simpl;
      (split; [|done]); [|by split].
    split; simpl.
    + apply map_Forall_insert_2; [|done]. simpl. by apply (Hphotos where_id).
    + eapply Forall_impl; [exact Hcomments|]. intros c Hc. simpl in Hc.
      rewrite lookup_insert_is_Some. destruct (decide (where_id = photoId c));
        [by left | by right].
  - (* delete *)
    destruct (photos w !! where_id) as [p|] eqn:Hp; simpl;
      (split; [|done]); [|by split].
    split; simpl.
    + by apply map_Forall_delete.
    + apply Forall_forall. intros c Hc.
      apply list_elem_of_filter in Hc as [Hne Hc].
      rewrite lookup_delete_ne by done.
      by apply (proj1 (Forall_forall _ _) Hcomments).
  - (* comment *)
    destruct (photos w !! data_photoId) as [p|] eqn:Hp; simpl;
      (split; [|done]); [|by split].
    split; simpl; [done|].
    apply Forall_app. split; [done|]. constructor; [|constructor].
    simpl. by rewrite Hp.
  - split; [by split|]. by exists (tick w).
  - destruct (files w !! path); simpl; (split; [by split | done]).
  - destruct (files w !! path); simpl; (split; [by split | done]).
Qed.

Lemma run_sound {R : Type} (out : Outside) (p : Prog R) (w : World) :
  orderly out p → sound out w →
  sound out (run out p w).1.2 ∧ Forall (λ c, orderly out c) (run out p w).2.
Proof.
  intros Hp. revert w.
  induction Hp as [A a|A e|A X op k Hop _ IH|A child k Hc _ _ IH];
    intros w Hw; simpl.
  - done.
  - done.
  - destruct (exec_sound out op w Hop Hw) as [Hw' Ho].
    destruct (exec out op w) as [o w']. by apply IH.
  - specialize (IH w Hw).
    destruct (run out k w) as [[o w'] started]. simpl in *.
    split; [apply IH|]. constructor; [done|apply IH].
Qed.

Lemma act_sound (out : Outside) (env : ProcessEnv) (a : Action) (s : System) :
  sound out (world s) ∧ Forall (λ c, orderly out c) (pending s) →
  sound out (world (act out env a s))
  ∧ Forall (λ c, orderly out c) (pending (act out env a s)).
Proof.
  intros [Hw Hp]. destruct a as [route request|i]; simpl.
  - pose proof (run_sound out (handler env route request) (world s)
                  (orderly_handler out env route request) Hw) as [Hw' Hs].
    destruct (run out (handler env route request) (world s))
      as [[o w'] started]. simpl in *.
    split; [done|]. by apply Forall_app.
  - destruct (pending s !! i) as [p|] eqn:Hi; [|done].
    assert (orderly out p) as Ho by (by eapply Forall_lookup_1).
    pose proof (run_sound out p (world s) Ho Hw) as [Hw' Hs].
    destruct (run out p (world s)) as [[o w'] started]. simpl in *.
    split; [done|]. apply Forall_app. split; [|done].
    by apply Forall_delete.
Qed.

Lemma reachable_sound (out : Outside) (env : ProcessEnv) (s : System) :
  reachable out env s → sound out (world s).
Proof.
  intros [l ->].
  assert (∀ s, sound out (world s) ∧ Forall (λ c, orderly out c) (pending s) →
               sound out (world (acts out env l s))
               ∧ Forall (λ c, orderly out c) (pending (acts out env l s))) as H.
  { unfold acts. induction l as [|a l IH]; intros s Hs; simpl; [done|].
    apply IH. by apply act_sound. }
  apply H. split; [|constructor].
  split; [apply map_Forall_empty | constructor].
Qed.

(** In every reachable state a photo is stored under its own id and
    under a reference that an upload generated, and every comment is on
    a photo that is stored: no delete leaves a comment behind, and no
    comment is created on a photo that is gone. *)
Theorem reachable_store_is_sound (out : Outside) (env : ProcessEnv)
    (s : System) :
  reachable out env s →
  (∀ id p, photos (world s) !! id = Some p →
     photo_id p = id ∧ generated out (url p))
  ∧ (∀ c, c ∈ comments (world s) → is_Some (photos (world s) !! photoId c)).
Proof.
  intros Hs. destruct (reachable_sound out env s Hs) as [Hp Hc].
  split.
  - intros id p Hid. by apply (Hp id).
  - intros c. by apply (proj1 (Forall_forall _ _) Hc).
Qed.

(** In every reachable state the reference of every stored photo passes
    the path check of the remote provider, which therefore starts by
    reading a file below the uploads directory: the messages [Invalid
    image path ...] are never the error of a stored photo. *)
Theorem reachable_references_are_confined (out : Outside) (env : ProcessEnv)
    (s : System) (id : jsstring) (p : Photo) (baseUrl model : jsstring) :
  uuids_are_safe out →
  reachable out env s →
  photos (world s) !! id = Some p →
  confined (url p) = true
  ∧ ∃ k,
      describeImage env (OllamaVisionProvider baseUrl model) (url p)
      = Call (ReadFile (provider_path env (url p))) k.
Proof.
  intros Hsafe Hs Hp. destruct (reachable_sound out env s Hs) as [Hphotos _].
  destruct (Hphotos id p Hp) as [_ [n Hurl]].
  destruct (Hsafe n) as [Hname Hlen].
  assert (confined (url p) = true) as Hc
    by (rewrite Hurl; by apply upload_url_confined).
  split; [exact Hc|]. simpl.
  rewrite (describeImage_confined env baseUrl model _ Hc).
  by eexists.
Qed.

Lemma reachable_store_is_sound_witness :
  (∀ id p, photos (world (after_one_upload (outside_with paris))) !! id = Some p →
     photo_id p = id ∧ generated (outside_with paris) (url p))
  ∧ (∀ c, c ∈ comments (world (after_one_upload (outside_with paris))) →
       is_Some (photos (world (after_one_upload (outside_with paris))) !! photoId c)).
Proof.
  apply (reachable_store_is_sound (outside_with paris) ollama_env
           (after_one_upload (outside_with paris))).
  by exists [Serve Upload (upload_of alice small_jpeg)].
Defined.

Lemma reachable_references_are_confined_witness :
  let p := upload_photo outside_v4 (world initial) alice 48.5 2.25 in
  confined (url p) = true
  ∧ ∃ k,
      describeImage ollama_env
        (OllamaVisionProvider (js "http://localhost:11434") (js "llava")) (url p)
      = Call (ReadFile (provider_path ollama_env (url p))) k.
Proof.
  apply (reachable_references_are_confined outside_v4 ollama_env
           (after_one_upload outside_v4) (js "c1")
           (upload_photo outside_v4 (world initial) alice 48.5 2.25)
           (js "http://localhost:11434") (js "llava")).
  - intros n. split; [reflexivity | vm_compute; lia].
  - by exists [Serve Upload (upload_of alice small_jpeg)].
  - reflexivity.
Defined.

(* ===================================================================== *)
(** * Comments without a text *)
(* ===================================================================== *)

(** A comment request of a signed-in user on a stored photo that carries
    no string as [content] stores nothing: a body that is not JSON is
    answered with 400 [Invalid JSON], the body [null] with 500, and every
    other body (an array, a number, a string, an object without
    [content] or with a [content] that is not a string) with 400. *)
Theorem comment_without_text_is_refused (out : Outside) (env : ProcessEnv)
    (w : World) (request : Request) (user : User) (p : Photo) :
  session request = Some user →
  params_id request ≠ [] →
  photos w !! params_id request = Some p →
  photo_id p = params_id request →
  (∀ fields s, json_body request = Some (JObject fields) →
     CommentsRoute.lookupField fields (js "content") ≠ Some (JString s)) →
  run out (CommentsRoute.POST env request) w
  = (Fulfilled
       (match json_body request with
        | None => json (BodyError (js "Invalid JSON")) 400
        | Some JNull => internalError
        | Some _ =>
            json (BodyError (js "Comment content is required and must be a string. Please provide a valid comment.")) 400
        end), w, []).
Proof.
  unfold CommentsRoute.POST, CommentsRoute.verifyPhotoExists, requireAuth,
    CommentsRoute.request_json, CommentsRoute.destructure_content,
    mbind, Prog_bind.
  intros -> Hid Hp Hkey Hnone. simpl. unfold findFirst. rewrite Hp. simpl.
  rewrite Hkey, bool_decide_eq_false_2 by done. simpl.
  destruct (json_body request) as [[| | | |xs|fields]|]; try reflexivity.
  simpl. specialize (Hnone fields).
  destruct (CommentsRoute.lookupField fields (js "content")) as [[| | |s| |]|];
    try reflexivity.
  by destruct (Hnone s).
Qed.

Lemma comment_without_text_is_refused_witness :
  run (outside_with paris)
    (CommentsRoute.POST ollama_env (request_on bob (js "c1") (Some JNull))) world1
  = (Fulfilled internalError, world1, []).
Proof.
  apply (comment_without_text_is_refused (outside_with paris) ollama_env world1
           (request_on bob (js "c1") (Some JNull)) bob photo1);
    try reflexivity; discriminate.
Defined.

(* ===================================================================== *)
(** * Every route keeps to its own data *)
(* ===================================================================== *)

Lemma every_bind (P : ∀ X, Eff X → Prop) {A B : Type} (p : Prog A)
    (f : A → Prog B) :
  every P p → (∀ a, every P (f a)) → every P (p ≫= f).
Proof.
  unfold mbind, Prog_bind. intros Hp. revert B f.
  induction Hp as [A a|A e|A X op k Hop _ IH|A child k _ IH];
    intros B f Hf; simpl.
  - apply Hf.
  - constructor.
  - constructor; [done|]. intros o. by apply IH.
  - constructor. by apply IH.
Qed.

Lemma every_try_catch (P : ∀ X, Eff X → Prop) {A : Type} (p : Prog A)
    (h : exn → Prog A) :
  every P p → (∀ e, every P (h e)) → every P (try_catch p h).
Proof.
  intros Hp. revert h.
  induction Hp as [A a|A e|A X op k Hop _ IH|A child k _ IH];
    intros h Hh; simpl.
  - constructor.
  - apply Hh.
  - constructor; [done|]. intros o. by apply IH.
  - constructor. by apply IH.
Qed.

Lemma every_await (P : ∀ X, Eff X → Prop) {X : Type} (op : Eff X) :
  P X op → every P (await op).
Proof. intros H. constructor; [done|]. intros [x|e]; constructor. Qed.

Lemma every_requireAuth (P : ∀ X, Eff X → Prop) (request : Request) :
  every P (requireAuth request).
Proof. unfold requireAuth. destruct (session request); constructor. Qed.

Lemma every_onError (P : ∀ X, Eff X → Prop) (error : exn) :
  every P (onError error).
Proof. unfold onError. destruct (isUnauthorized error); constructor. Qed.

Lemma every_enrichment (env : ProcessEnv) (provider : VisionProvider)
    (photoId imageUrl : jsstring) :
  every (λ X, @within X Regenerate)
    (RegenerateRoute.enrichment env provider photoId imageUrl).
Proof.
  unfold RegenerateRoute.enrichment. apply every_try_catch.
  - apply every_bind; [|intros d; by apply every_await].
    destruct provider as [|baseUrl model]; simpl.
    + unfold Mock.describeImage. apply every_bind; [by apply every_await|].
      intros _. constructor.
    + unfold Ollama.describeImage. apply every_try_catch.
      * repeat match goal with
               | |- every _ (if ?b then _ else _) => destruct b
               end; try apply every_Throw.
        apply every_bind; [by apply every_await|].
        intros data. by apply every_await.
      * intros e. destruct (rethrow_throws baseUrl imageUrl e) as [e' ->].
        constructor.
  - intros e. by apply every_await.
Qed.

Lemma every_handler (env : ProcessEnv) (route : Route) (request : Request) :
  every (λ X, @within X route) (handler env route request).
Proof.
  destruct route; simpl.
  - unfold PhotosRoute.POST.
    apply every_try_catch; [|apply every_onError].
    apply every_bind; [apply every_requireAuth|]. intros user.
    destruct (formData_file request) as [file|]; [|constructor].
    repeat match goal with
           | |- every _ (if ?b then _ else _) => destruct b
           end; try apply every_Ret.
    apply every_bind; [by apply every_await|]. intros exifData.
    repeat match goal with
           | |- every _ (match ?x with _ => _ end) => destruct x
           end; try apply every_Ret.
    apply every_bind; [by apply every_await|]. intros id.
    apply every_bind; [by apply every_await|]. intros found.
    apply every_bind.
    { destruct found; [constructor | by apply every_await]. }
    intros _. apply every_bind; [by apply every_await|]. intros _.
    apply every_bind; [by apply every_await|]. intros photo.
    constructor. constructor.
  - unfold PhotoRoute.DELETE.
    apply every_try_catch; [|apply every_onError].
    apply every_bind; [apply every_requireAuth|]. intros user.
    apply every_bind; [by apply every_await|]. intros [photo|]; [|constructor].
    apply every_bind.
    { apply every_try_catch; [by apply every_await|]. intros _. constructor. }
    intros _. apply every_bind; [by apply every_await|]. intros _. constructor.
  - unfold CommentsRoute.POST.
    apply every_try_catch.
    2:{ intros e. unfold CommentsRoute.onError.
        destruct (isUnauthorized e); [constructor|]. destruct e; constructor. }
    apply every_bind; [apply every_requireAuth|]. intros user.
    apply every_bind.
    { unfold CommentsRoute.verifyPhotoExists.
      apply every_bind; [by apply every_await|]. intros photo. constructor. }
    intros [photo|]; [|constructor].
    apply every_bind.
    { unfold CommentsRoute.request_json.
      destruct (json_body request); constructor. }
    intros b. apply every_bind.
    { unfold CommentsRoute.destructure_content. destruct b; constructor. }
    intros c.
    repeat match goal with
           | |- every _ (match ?x with _ => _ end) => destruct x
           end; try apply every_Ret.
    apply every_bind; [by apply every_await|]. intros comment. constructor.
  - unfold RegenerateRoute.POST.
    apply every_try_catch; [|apply every_onError].
    apply every_bind; [apply every_requireAuth|]. intros user.
    apply every_bind; [by apply every_await|]. intros [photo|]; [|constructor].
    apply every_bind; [by apply every_await|]. intros _.
    constructor. constructor.
Qed.

Lemma same_identity_refl (p : Photo) : same_identity p p.
Proof. by repeat split. Qed.

Lemma same_identity_trans (p q r : Photo) :
  same_identity p q → same_identity q r → same_identity p r.
Proof.
  unfold same_identity. intros (?&?&?&?&?&?) (?&?&?&?&?&?).
  repeat split; congruence.
Qed.

Lemma frame_refl (route : Route) (w : World) : frame route w w.
Proof.
  destruct route; simpl; repeat split; try done.
  intros id. destruct (photos w !! id); [apply same_identity_refl | done].
Qed.

Lemma frame_trans (route : Route) (w1 w2 w3 : World) :
  frame route w1 w2 → frame route w2 w3 → frame route w1 w3.
Proof.
  destruct route; simpl.
  - intros (Hc & Hp & Hf) (Hc' & Hp' & Hf').
    split; [congruence|]. split; [by etrans|]. intros path H. by apply Hf', Hf.
  - intros (Hp & Hf & Hc) (Hp' & Hf' & Hc').
    split; [by etrans|]. split; by etrans.
  - intros (Hp & Hf & Hc) (Hp' & Hf' & Hc').
    split; [congruence|]. split; [congruence|]. by etrans.
  - intros (Hc & Hf & Hp) (Hc' & Hf' & Hp').
    split; [congruence|]. split; [congruence|]. intros id.
    specialize (Hp id). specialize (Hp' id).
    destruct (photos w1 !! id), (photos w2 !! id), (photos w3 !! id);
      try done. by eapply same_identity_trans.
Qed.

Ltac same_photo :=
  let i := fresh "i" in
  intros i;
  try match goal with
      | H : ?m !! ?k = Some _ |- context [<[?k := _]> ?m !! i] =>
          destruct (decide (k = i)) as [<-|?];
          [ rewrite H, lookup_insert_eq; by repeat split
          | rewrite lookup_insert_ne by done ]
      end;
  match goal with
  | |- context [match ?m !! i with _ => _ end] => destruct (m !! i)
  end; [apply same_identity_refl | done].

Lemma exec_frame {X : Type} (out : Outside) (route : Route) (op : Eff X)
    (w : World) :
  within route op → frame route w (exec out op w).2.
Proof.
  intros Hop.
  destruct route, op; try done; simpl;
    repeat match goal with
    | |- context [match ?m !! ?k with _ => _ end] => destruct (m !! k) eqn:?
    end; simpl;
    split_and!;
    try first [ done | reflexivity | by apply insert_subseteq
              | apply delete_subseteq | apply sublist_filter
              | by apply prefix_app_r ].
  1:{ (* an upload writes the file: another file stays *)
    intros p Hp. rewrite lookup_insert_is_Some.
    destruct (decide (path = p)); [by left | by right]. }
  all: same_photo.
Qed.

Lemma run_frame {R : Type} (out : Outside) (route : Route) (p : Prog R)
    (w : World) :
  every (λ X, @within X route) p → frame route w (run out p w).1.2.
Proof.
  intros Hp. revert w.
  induction Hp as [A a|A e|A X op k Hop _ IH|A child k _ IH];
    intros w; simpl.
  - apply frame_refl.
  - apply frame_refl.
  - pose proof (exec_frame out route op w Hop) as Hw.
    destruct (exec out op w) as [o w']. simpl in Hw.
    by apply (frame_trans route w w'); [|apply IH].
  - specialize (IH w). by destruct (run out k w) as [[o w'] started].
Qed.

(** Whatever the request, a route changes only what is its own.  An
    upload leaves the comments, removes no photo and no file.  A delete
    adds nothing: what is stored afterwards was stored before.  A comment
    request leaves the photos and the files and only appends to the
    comments.  A regenerate request leaves the comments and the files,
    adds and removes no photo, and changes no photo's id, owner,
    reference, coordinates or creation time. *)
Theorem routes_keep_to_their_data (out : Outside) (env : ProcessEnv)
    (route : Route) (request : Request) (w : World) :
  frame route w (run out (handler env route request) w).1.2.
Proof. apply run_frame, every_handler. Qed.

(** An enrichment, whenever it settles and however the provider
    answers, leaves the comments and the files, adds and removes no
    photo, and changes nothing of a photo but its enrichment fields;
    this holds for the promise of a regenerate request and for the
    promise of an upload. *)
Theorem enrichment_rewrites_only_its_fields (out : Outside) (env : ProcessEnv)
    (provider : VisionProvider) (photoId imageUrl : jsstring) (w : World) :
  frame Regenerate w
    (run out (RegenerateRoute.enrichment env provider photoId imageUrl) w).1.2
  ∧ frame Regenerate w (run out (upload_promise env photoId imageUrl) w).1.2.
Proof.
  split.
  - apply run_frame, every_enrichment.
  - apply run_frame. unfold upload_promise.
    apply every_try_catch; [apply every_enrichment|]. intros _. constructor.
Qed.

(* ===================================================================== *)
(** * Reading the photos *)
(* ===================================================================== *)

Lemma findMany_elem_of (w : World) (where_ownerId : option jsstring)
    (p : Photo) :
  p ∈ findMany w where_ownerId
  ↔ owned_by where_ownerId p ∧ ∃ id, photos w !! id = Some p.
Proof.
  unfold findMany. rewrite merge_sort_Permutation, list_elem_of_filter.
  rewrite list_elem_of_fmap. split.
  - intros [Ho [[id q] [-> Hin]]]. split; [done|]. exists id.
    by apply elem_of_map_to_list.
  - intros [Ho [id Hp]]. split; [done|]. exists (id, p). split; [done|].
    by apply elem_of_map_to_list.
Qed.

Lemma newer_trans : Transitive newer.
Proof. unfold newer. intros p q r ??. lia. Qed.

Lemma newer_total : Total newer.
Proof. unfold newer. intros p q. lia. Qed.

(** The list of a signed-in caller holds, newest first, one entry for
    every stored photo of the caller's, and nothing else; only a
    parameter [all] that is exactly [true] widens it to every stored
    photo, whoever owns it. *)
Theorem list_shows_own_photos_unless_all (request : ListRequest)
    (user : User) (w : World) :
  list_session request = Some user →
  ∃ entries,
    ListRoute.GET request w = ListOk entries
    ∧ (∀ e, e ∈ entries ↔
         ∃ id p, photos w !! id = Some p ∧ e = select_entry p
                 ∧ (search_all request = Some (js "true")
                    ∨ ownerId p = user_id user))
    ∧ StronglySorted (λ a b, (entry_createdAt b ≤ entry_createdAt a)%N) entries
    ∧ length entries
      = length (filter (λ p, search_all request = Some (js "true")
                             ∨ ownerId p = user_id user)
                  (map_to_list (photos w)).*2).
Proof.
  intros Hs. unfold ListRoute.GET. rewrite Hs. eexists. split; [reflexivity|].
  set (filt := if bool_decide (search_all request = Some (js "true"))
               then None else Some (user_id user)).
  assert (Hfilt : ∀ p, owned_by filt p
                       ↔ search_all request = Some (js "true")
                         ∨ ownerId p = user_id user).
  { intros p. subst filt. case_bool_decide; simpl.
    - split; [by left | done].
    - split; [by right | by intros [?|?]]. }
  split; [|split].
  - intros e. rewrite list_elem_of_fmap. split.
    + intros [p [-> Hp]]. apply findMany_elem_of in Hp as [Ho [id Hid]].
      exists id, p. split; [done|]. split; [done|]. by apply Hfilt.
    + intros (id & p & Hid & -> & Ho). exists p. split; [done|].
      apply findMany_elem_of. split; [by apply Hfilt | by exists id].
  - eapply (StronglySorted_fmap select_entry newer);
      [|apply (@StronglySorted_merge_sort _ newer _ newer_trans newer_total)].
    by intros p q.
  - rewrite length_fmap. unfold findMany. rewrite merge_sort_Permutation.
    f_equal. apply list_filter_iff. intros p. apply Hfilt.
Qed.

Lemma list_shows_own_photos_unless_all_witness :
  ∃ entries,
    ListRoute.GET (list_of alice (Some (js "TRUE"))) world2 = ListOk entries
    ∧ (∀ e, e ∈ entries ↔
         ∃ id p, photos world2 !! id = Some p ∧ e = select_entry p
                 ∧ (search_all (list_of alice (Some (js "TRUE"))) = Some (js "true")
                    ∨ ownerId p = user_id alice))
    ∧ StronglySorted (λ a b, (entry_createdAt b ≤ entry_createdAt a)%N) entries
    ∧ length entries
      = length (filter (λ p, search_all (list_of alice (Some (js "TRUE")))
                             = Some (js "true")
                             ∨ ownerId p = user_id alice)
                  (map_to_list (photos world2)).*2).
Proof.
  apply (list_shows_own_photos_unless_all (list_of alice (Some (js "TRUE")))
           alice world2).
  reflexivity.
Defined.

(** A photo that a list shows can be opened by every signed-in caller,
    owner or not: in every reachable state the detail handler answers
    the id of a listed entry with the photo that the entry was made
    from. *)
Theorem listed_photo_can_be_opened (out : Outside) (env : ProcessEnv)
    (s : System) (query : ListRequest) (entries : list PhotoEntry)
    (e : PhotoEntry) (request : Request) (caller : User) :
  reachable out env s →
  ListRoute.GET query (world s) = ListOk entries →
  e ∈ entries →
  session request = Some caller →
  params_id request = entry_id e →
  ∃ p, DetailRoute.GET request (world s) = DetailOk p ∧ select_entry p = e.
Proof.
  intros Hs Hlist He Hc Hid.
  destruct (reachable_sound out env s Hs) as [Hphotos _].
  unfold ListRoute.GET in Hlist.
  destruct (list_session query) as [user|]; [|done].
  injection Hlist as <-.
  apply list_elem_of_fmap in He as [p [-> Hp]].
  apply findMany_elem_of in Hp as [_ [id Hp]].
  destruct (Hphotos id p Hp) as [Hkey _]. simpl in Hkey.
  exists p. split; [|done].
  unfold DetailRoute.GET, findFirst. rewrite Hc, Hid. simpl.
  by rewrite Hkey, Hp.
Qed.

Lemma listed_photo_can_be_opened_witness :
  ∃ p,
    DetailRoute.GET (request_on bob (js "c1") None)
      (world (after_one_upload (outside_with paris)))
    = DetailOk p
    ∧ select_entry p
      = select_entry (upload_photo (outside_with paris) (world initial) alice 48.5 2.25).
Proof.
  apply (listed_photo_can_be_opened (outside_with paris) ollama_env
           (after_one_upload (outside_with paris))
           (list_of alice None)
           [select_entry (upload_photo (outside_with paris) (world initial)
                            alice 48.5 2.25)]
           _ (request_on bob (js "c1") None) bob).
  - by exists [Serve Upload (upload_of alice small_jpeg)].
  - vm_compute. reflexivity.
  - apply list_elem_of_here.
  - reflexivity.
  - reflexivity.
Defined.

(* ===================================================================== *)
(** * What the pages send *)
(* ===================================================================== *)

Lemma regenerate_owner (out : Outside) (env : ProcessEnv) (w : World)
    (request : Request) (user : User) (p : Photo) :
  session request = Some user →
  photos w !! params_id request = Some p →
  ownerId p = user_id user →
  run out (RegenerateRoute.POST env request) w
  = (Fulfilled (json (BodyRegenerate (js "AI description regeneration started")
                        PENDING) 200),
     with_photos w (<[params_id request := applyUpdate RegenerateRoute.reset_data p]>
                      (photos w)),
     [RegenerateRoute.enrichment env (getVisionProvider env)
        (params_id request) (url p)]).
Proof.
  unfold RegenerateRoute.POST, requireAuth, mbind, Prog_bind.
  intros Hs Hp Ho. rewrite Hs. simpl. unfold findFirst. rewrite Hp.
  rewrite bool_decide_eq_true_2 by done. simpl. by rewrite Hp.
Qed.

(** The modal offers the delete and the regenerate button exactly when
    the routes would honour them.  For the photo that the detail handler
    returned: when [isOwner] holds, delete and regenerate both answer
    200; when it does not hold for a caller whose id is not empty, both
    answer 404 and change nothing. *)
Theorem owner_controls_match_the_routes (out : Outside) (env : ProcessEnv)
    (w : World) (request : Request) (p : Photo) :
  DetailRoute.GET request w = DetailOk p →
  (isOwner (Some p) (session request) = true →
     ∃ w1 w2 started,
       run out (PhotoRoute.DELETE env request) w
       = (Fulfilled (json (BodyMessage (js "Photo deleted successfully")) 200),
          w1, [])
       ∧ run out (RegenerateRoute.POST env request) w
         = (Fulfilled (json (BodyRegenerate
                               (js "AI description regeneration started")
                               PENDING) 200), w2, started))
  ∧ (isOwner (Some p) (session request) = false →
     (∀ user, session request = Some user → user_id user ≠ []) →
     run out (PhotoRoute.DELETE env request) w = (Fulfilled notFound, w, [])
     ∧ run out (RegenerateRoute.POST env request) w = (Fulfilled notFound, w, [])).
Proof.
  unfold DetailRoute.GET, findFirst. intros Hget.
  destruct (session request) as [user|] eqn:Hs; [|done].
  destruct (photos w !! params_id request) as [q|] eqn:Hp; [|done].
  injection Hget as ->. simpl. split.
  - intros Ho. apply andb_prop in Ho as [_ Ho]. apply bool_decide_eq_true in Ho.
    rewrite (DELETE_owner out env w request user p Hs Hp Ho).
    rewrite (regenerate_owner out env w request user p Hs Hp Ho).
    by eexists _, _, _.
  - intros Ho Hne.
    rewrite bool_decide_eq_false_2 in Ho by (by apply Hne). simpl in Ho.
    apply bool_decide_eq_false in Ho.
    assert (findFirst w (params_id request) (Some (user_id user)) = None) as Hf.
    { unfold findFirst. rewrite Hp. by rewrite bool_decide_eq_false_2. }
    split.
    + by apply (DELETE_not_owned out env w request user Hs).
    + by apply (regenerate_not_owned out env w request user Hs).
Qed.

Lemma owner_controls_match_the_routes_witness :
  (isOwner (Some photo1) (session (request_on bob (js "c1") None)) = true →
     ∃ w1 w2 started,
       run (outside_with paris) (PhotoRoute.DELETE ollama_env (request_on bob (js "c1") None)) world1
       = (Fulfilled (json (BodyMessage (js "Photo deleted successfully")) 200),
          w1, [])
       ∧ run (outside_with paris) (RegenerateRoute.POST ollama_env (request_on bob (js "c1") None)) world1
         = (Fulfilled (json (BodyRegenerate
                               (js "AI description regeneration started")
                               PENDING) 200), w2, started))
  ∧ (isOwner (Some photo1) (session (request_on bob (js "c1") None)) = false →
     (∀ user, session (request_on bob (js "c1") None) = Some user → user_id user ≠ []) →
     run (outside_with paris) (PhotoRoute.DELETE ollama_env (request_on bob (js "c1") None)) world1
     = (Fulfilled notFound, world1, [])
     ∧ run (outside_with paris) (RegenerateRoute.POST ollama_env (request_on bob (js "c1") None)) world1
       = (Fulfilled notFound, world1, [])).
Proof.
  apply (owner_controls_match_the_routes (outside_with paris) ollama_env world1
           (request_on bob (js "c1") None) photo1).
  reflexivity.
Defined.

(** A type that the form accepts is one that the route accepts. *)
Lemma matchesJpeg_typeAllowed (file : File) :
  matchesJpeg (file_type file) = true → typeAllowed file = true.
Proof.
  unfold matchesJpeg, typeAllowed. intros H.
  apply orb_prop in H as [H|H]; apply bool_decide_eq_true in H; by rewrite H.
Qed.

Lemma handleFileChange_keeps (selectedFile : option File) (form : UploadForm) :
  (∀ f, form_file form = Some f →
     matchesJpeg (file_type f) = true
     ∧ (file_size f ≤ PhotosRoute.MAX_FILE_SIZE)%N) →
  ∀ f, form_file (handleFileChange selectedFile form) = Some f →
    matchesJpeg (file_type f) = true
    ∧ (file_size f ≤ PhotosRoute.MAX_FILE_SIZE)%N.
Proof.
  intros Hform f. unfold handleFileChange.
  destruct selectedFile as [g|]; [|by apply Hform].
  destruct (matchesJpeg (file_type g)) eqn:Hty; simpl; [|by apply Hform].
  destruct (N.ltb_spec (10 * 1024 * 1024) (file_size g)) as [Hlt|Hle]; simpl;
    [by apply Hform|].
  intros [= <-]. split; [done|]. exact Hle.
Qed.

(** Whatever files were selected, in whatever order, a request that the
    upload form sends carries a file that passes the type and the size
    check of the route: the route goes on to read the file's EXIF data,
    and its answer is neither of the two refusals. *)
Theorem form_upload_passes_the_route_checks (env : ProcessEnv) (user : User)
    (picked : list (option File)) (request : Request) :
  handleSubmit user (selections picked) = Some request →
  ∃ file,
    request = upload_of user file
    ∧ typeAllowed file = true
    ∧ (file_size file ≤ PhotosRoute.MAX_FILE_SIZE)%N
    ∧ ∃ k, PhotosRoute.POST env request = Call (ExifrParse (file_bytes file)) k.
Proof.
  unfold handleSubmit, selections.
  assert (∀ form,
    (∀ f, form_file form = Some f →
       matchesJpeg (file_type f) = true
       ∧ (file_size f ≤ PhotosRoute.MAX_FILE_SIZE)%N) →
    ∀ f, form_file (fold_left (λ form selectedFile,
                                 handleFileChange selectedFile form)
                      picked form) = Some f →
      matchesJpeg (file_type f) = true
      ∧ (file_size f ≤ PhotosRoute.MAX_FILE_SIZE)%N) as Hfold.
  { induction picked as [|selectedFile picked IH]; intros form Hform; simpl;
      [done|].
    apply IH. by apply handleFileChange_keeps. }
  specialize (Hfold empty_form).
  destruct (form_file (fold_left _ picked empty_form)) as [file|]; [|done].
  intros [= <-]. exists file.
  destruct (Hfold ltac:(done) file eq_refl) as [Hty Hsize].
  apply matchesJpeg_typeAllowed in Hty.
  split; [done|]. split; [done|]. split; [done|].
  by apply (POST_parses env (upload_of user file) user file).
Qed.

Lemma form_upload_passes_the_route_checks_witness :
  ∃ file,
    upload_of alice small_jpeg = upload_of alice file
    ∧ typeAllowed file = true
    ∧ (file_size file ≤ PhotosRoute.MAX_FILE_SIZE)%N
    ∧ ∃ k, PhotosRoute.POST ollama_env (upload_of alice small_jpeg)
           = Call (ExifrParse (file_bytes file)) k.
Proof.
  apply (form_upload_passes_the_route_checks ollama_env alice
           [Some small_jpeg; Some big_png; None] (upload_of alice small_jpeg)).
  reflexivity.
Defined.

(* Trimming *)

Lemma trimStart_idemp (s : jsstring) : trimStart (trimStart s) = trimStart s.
Proof.
  destruct (trimStart s) as [|c t] eqn:Hs; [done|].
  simpl. by rewrite (trimStart_head s c t Hs).
Qed.

Lemma trimStart_length (s : jsstring) : length (trimStart s) ≤ length s.
Proof.
  destruct (trimStart_suffix s) as [t Ht]. rewrite Ht at 2.
  rewrite length_app. lia.
Qed.

Lemma trimEnd_length (s : jsstring) : length (trimEnd s) ≤ length s.
Proof.
  unfold trimEnd. rewrite length_rev.
  etrans; [apply trimStart_length|]. by rewrite length_rev.
Qed.

Lemma trimEnd_prefix (s : jsstring) : ∃ t, s = trimEnd s ++ t.
Proof.
  unfold trimEnd. destruct (trimStart_suffix (rev s)) as [t Ht].
  exists (rev t). rewrite <- rev_app_distr, <- Ht. by rewrite rev_involutive.
Qed.

Lemma trimEnd_idemp (s : jsstring) : trimEnd (trimEnd s) = trimEnd s.
Proof. unfold trimEnd. by rewrite rev_involutive, trimStart_idemp. Qed.

Lemma trim_idemp (s : jsstring) : trim (trim s) = trim s.
Proof.
  unfold trim.
  assert (trimStart (trimEnd (trimStart s)) = trimEnd (trimStart s)) as ->;
    [|apply trimEnd_idemp].
  destruct (trimEnd_prefix (trimStart s)) as [t Ht].
  destruct (trimEnd (trimStart s)) as [|c u] eqn:He; [done|].
  simpl. rewrite (trimStart_head s c (u ++ t)); [done|].
  by rewrite Ht.
Qed.

Lemma trim_length (s : jsstring) : length (trim s) ≤ length s.
Proof.
  unfold trim. etrans; [apply trimEnd_length | apply trimStart_length].
Qed.

(** What the modal sends is what is stored.  A comment request that the
    modal makes from a text of at most 500 code units, the limit of its
    text area, is answered with 201 when the photo is stored; the stored
    content is the trimmed text, which the route's own trimming leaves
    as it is. *)
Theorem modal_comment_is_stored_as_sent (out : Outside) (env : ProcessEnv)
    (w : World) (user : User) (shown : option jsstring)
    (commentContent : jsstring) (request : Request) (p : Photo) :
  handleSubmitComment user shown commentContent = Some request →
  length commentContent ≤ 500 →
  photos w !! params_id request = Some p →
  photo_id p = params_id request →
  ∃ c,
    run out (CommentsRoute.POST env request) w
    = (Fulfilled (json (BodyComment c) 201),
       {| photos := photos w; comments := comments w ++ [c];
          files := files w; dirs := dirs w; tick := S (tick w) |}, [])
    ∧ shown = Some (photoId c)
    ∧ authorId c = user_id user
    ∧ json_body request = comment_body (content c).
Proof.
  unfold handleSubmitComment. intros Hsend Hlen Hp Hkey.
  destruct shown as [[|u id]|]; try done.
  case_bool_decide as Hempty; [done|]. injection Hsend as <-.
  simpl in Hp, Hkey.
  rewrite (POST_comment_run out env w
             (request_on user (u :: id) (comment_body (trim commentContent)))
             user p
             [(js "content", JString (trim commentContent))]
             (trim commentContent) eq_refl ltac:(done) Hp Hkey eq_refl eq_refl).
  rewrite trim_idemp.
  destruct (trim commentContent) as [|c s] eqn:Ht; [done|]. rewrite <- Ht.
  rewrite bool_decide_eq_false_2 by (rewrite Ht; done).
  pose proof (trim_length commentContent) as Hle.
  destruct (Nat.ltb_spec 500 (length (trim commentContent))) as [Hgt|_]; [lia|].
  eexists. split; [reflexivity|]. unfold created_comment. simpl.
  by rewrite trim_idemp.
Qed.

Lemma modal_comment_is_stored_as_sent_witness :
  ∃ c,
    run (outside_with paris)
      (CommentsRoute.POST ollama_env
         (request_on bob (js "c1") (comment_body (js "nice one")))) world1
    = (Fulfilled (json (BodyComment c) 201),
       {| photos := photos world1; comments := comments world1 ++ [c];
          files := files world1; dirs := dirs world1; tick := S (tick world1) |}, [])
    ∧ Some (js "c1") = Some (photoId c)
    ∧ authorId c = user_id bob
    ∧ json_body (request_on bob (js "c1") (comment_body (js "nice one")))
      = comment_body (content c).
Proof.
  apply (modal_comment_is_stored_as_sent (outside_with paris) ollama_env world1
           bob (Some (js "c1")) (js "  nice one ")
           (request_on bob (js "c1") (comment_body (js "nice one"))) photo1).
  - reflexivity.
  - vm_compute. lia.
  - reflexivity.
  - reflexivity.
Defined.

(* ===================================================================== *)
(** * Coordinates are not checked against a range *)
(* ===================================================================== *)

(** Whatever two numbers the parser reports as [latitude] and
    [longitude], provided neither is zero or NaN, an otherwise
    acceptable upload is stored with exactly these numbers: the route
    compares them with no range, so that a latitude of 1000 is stored
    like any other. *)
Theorem reported_coordinates_are_stored_unchecked (out : Outside)
    (env : ProcessEnv) (request : Request) (user : User) (file : File)
    (x y : number) (rawLat rawLng : GpsField) (w : World) :
  session request = Some user →
  formData_file request = Some file →
  typeAllowed file = true →
  (file_size file ≤ PhotosRoute.MAX_FILE_SIZE)%N →
  exifr_parse out (file_bytes file)
  = Fulfilled (Some {| latitude := Num x; longitude := Num y;
                       GPSLatitude := rawLat; GPSLongitude := rawLng |}) →
  truthy (Num x) = true →
  truthy (Num y) = true →
  photos w !! cuid out (S (tick w)) = None →
  ∃ w' id p created started,
    run out (PhotosRoute.POST env request) w
    = (Fulfilled (json (BodyPhoto id (url p) x y created PENDING None) 201),
       w', started)
    ∧ photos w' !! id = Some p
    ∧ lat p = x ∧ lng p = y.
Proof.
  intros Hs Hf Hty Hle Hexif Hx Hy Hfresh.
  rewrite (POST_stores out env _ _ _ _ x y w Hs Hf Hty Hle Hexif).
  - simpl. rewrite Hfresh. eexists _, _, (upload_photo out w user x y), _, _.
    split; [reflexivity|]. simpl. by rewrite lookup_insert_eq.
  - unfold selected_lat, js_or. simpl optionalChain. by rewrite Hx.
  - unfold selected_lng, js_or. simpl optionalChain. by rewrite Hy.
Qed.

Lemma reported_coordinates_are_stored_unchecked_witness :
  let far := {| latitude := Num 1000; longitude := Num (-1000);
                GPSLatitude := Undefined; GPSLongitude := Undefined |} in
  ∃ w' id p created started,
    run (outside_with far) (PhotosRoute.POST ollama_env (upload_of alice small_jpeg))
      world1
    = (Fulfilled (json (BodyPhoto id (url p) 1000 (-1000) created PENDING None) 201),
       w', started)
    ∧ photos w' !! id = Some p
    ∧ lat p = 1000%float ∧ lng p = (-1000)%float.
Proof.
  apply (reported_coordinates_are_stored_unchecked
           (outside_with {| latitude := Num 1000; longitude := Num (-1000);
                            GPSLatitude := Undefined; GPSLongitude := Undefined |})
           ollama_env (upload_of alice small_jpeg) alice small_jpeg
           1000 (-1000) Undefined Undefined world1); try reflexivity.
  vm_compute. discriminate.
Defined.

(* ===================================================================== *)
(** * The shortened description *)
(* ===================================================================== *)

Lemma sublist_Forall_keeps (P : N → Prop) (s t : jsstring) :
  s `sublist_of` t → Forall P t → Forall P s.
Proof.
  induction 1 as [|c s t _ IH|c s t _ IH]; intros Ht; [done| |].
  - apply Forall_cons in Ht as [Hc Ht]. constructor; [done | by apply IH].
  - apply Forall_cons in Ht as [_ Ht]. by apply IH.
Qed.

Lemma trimStart_sublist (s : jsstring) : trimStart s `sublist_of` s.
Proof.
  destruct (trimStart_suffix s) as [t Ht]. rewrite Ht at 2.
  by apply sublist_inserts_l.
Qed.

Lemma trim_sublist (s : jsstring) : trim s `sublist_of` s.
Proof.
  unfold trim. etrans; [|apply trimStart_sublist].
  destruct (trimEnd_prefix (trimStart s)) as [t Ht]. rewrite Ht at 2.
  by apply sublist_inserts_r.
Qed.

Lemma dropLeading_suffix (class : N → bool) (s : jsstring) :
  ∃ t, s = t ++ dropLeading class s.
Proof.
  induction s as [|c s [t Ht]]; simpl.
  - by exists [].
  - destruct (class c).
    + exists (c :: t). simpl. by rewrite <- Ht.
    + by exists [].
Qed.

Lemma removeTrailingPunctuation_sublist (s : jsstring) :
  removeTrailingPunctuation s `sublist_of` s.
Proof.
  unfold removeTrailingPunctuation.
  destruct (dropLeading_suffix isPunctuation (rev s)) as [t Ht].
  assert (s = rev (dropLeading isPunctuation (rev s)) ++ rev t) as Hs
    by (by rewrite <- rev_app_distr, <- Ht, rev_involutive).
  rewrite Hs at 2. by apply sublist_inserts_r.
Qed.

(** Before the first code unit of a class there is none of the class. *)
Lemma search_take (class : N → bool) (s : jsstring) (n : nat) :
  search class s = Some n → Forall (λ c, class c = false) (take n s).
Proof.
  revert n. induction s as [|c s IH]; intros n; simpl; [done|].
  destruct (class c) eqn:Hc.
  - intros [= <-]. constructor.
  - destruct (search class s) as [m|]; [|done]. simpl. intros [= <-].
    simpl. constructor; [done | by apply IH].
Qed.

Lemma search_None (class : N → bool) (s : jsstring) :
  search class s = None → Forall (λ c, class c = false) s.
Proof.
  induction s as [|c s IH]; simpl; [done|].
  destruct (class c) eqn:Hc; [done|].
  destruct (search class s); [done|]. intros _. constructor; [done | by apply IH].
Qed.

Lemma trim_is_trimmed (s : jsstring) :
  (∀ c t, trim s = c :: t → isWhiteSpace c = false)
  ∧ (∀ c t, trim s = t ++ [c] → isWhiteSpace c = false).
Proof.
  split.
  - intros c t Ht. rewrite <- trim_idemp in Ht. unfold trim in Ht at 1.
    destruct (trimEnd_prefix (trimStart (trim s))) as [u Hu].
    rewrite Ht in Hu. by apply (trimStart_head (trim s) c (t ++ u)).
  - intros c t Ht. unfold trim, trimEnd in Ht.
    apply (f_equal (@rev N)) in Ht. rewrite rev_involutive, rev_app_distr in Ht.
    simpl in Ht. by apply (trimStart_head _ c (rev t) Ht).
Qed.

(** Whatever text comes in, the description that goes out has at most
    200 code units and neither begins nor ends with white space; and
    unless the text begins with a sentence end, the description holds no
    full stop, exclamation mark or question mark: it stops before the
    first of them. *)
Theorem shortened_description_is_short (description : jsstring) :
  length (shorten description) ≤ 200
  ∧ (∀ c t, shorten description = c :: t → isWhiteSpace c = false)
  ∧ (∀ c t, shorten description = t ++ [c] → isWhiteSpace c = false)
  ∧ (search isSentenceEnd description ≠ Some 0 →
     Forall (λ c, isSentenceEnd c = false) (shorten description)).
Proof.
  unfold shorten.
  set (d1 := match search isSentenceEnd description with
             | Some (S n) => trim (substring0 description (S n))
             | _ => description
             end).
  set (d2 := if (200 <? length d1)%nat then _ else d1).
  assert (Hd2 : length d2 ≤ 200 ∧ d2 `sublist_of` d1).
  { subst d2. destruct (Nat.ltb_spec 200 (length d1)) as [Hlong|Hshort];
      [|split; [lia | done]].
    assert (Htake : ∀ s, s `sublist_of` substring0 d1 200 →
                         length s ≤ 200 ∧ s `sublist_of` d1).
    { intros s Hs. split.
      - apply sublist_length in Hs. unfold substring0 in Hs.
        rewrite length_take in Hs. lia.
      - etrans; [exact Hs | apply sublist_take]. }
    destruct (lastIndexOf 32 (substring0 d1 200)) as [lastSpace|];
      [destruct (150 <? lastSpace)%nat|]; apply Htake;
      try apply trim_sublist.
    etrans; [apply trim_sublist | apply sublist_take]. }
  destruct Hd2 as [Hlen Hsub].
  assert (Hout : trim (trim (removeTrailingPunctuation d2)) `sublist_of` d2).
  { etrans; [apply trim_sublist|]. etrans; [apply trim_sublist|].
    apply removeTrailingPunctuation_sublist. }
  split; [|split; [|split]].
  - apply sublist_length in Hout. lia.
  - apply trim_is_trimmed.
  - apply trim_is_trimmed.
  - intros Hstart.
    apply (sublist_Forall_keeps _ _ d1); [by etrans|].
    subst d1. destruct (search isSentenceEnd description) as [[|n]|] eqn:Hsearch.
    + done.
    + apply (sublist_Forall_keeps _ _ (take (S n) description));
        [apply trim_sublist | by apply search_take].
    + by apply search_None.
Qed.
